(** * JazzyScroll: a shallow embedding of the scroll-reveal engine

    The development follows the program text of the plugin: the
    constructor [JazzyScroll] with its two detection strategies (one
    IntersectionObserver per element, or a polled array), the activator
    [animateIn], the MutationObserver callback, and the frame-driven
    counter [animateNumber].

    Conventions of the embedding.
    - A JavaScript number is an exact rational, or NaN, or an infinity:
      the rounding of IEEE doubles and the sign of zero are not modelled.
    - Strings are strings of bytes; only ASCII white space is stripped by
      [parseInt].
    - DOM elements are objects of a store, addressed by their identity;
      the tree shape of a document fragment is a value of type [Node].
    - The platform objects (IntersectionObserver, the layout engine, the
      frame clock) are modelled by what the program hands them and by the
      callbacks they deliver: an animation frame, a frame of a counter, a
      resize, a notification of an observer and a batch of mutations are
      the events of a run. The platform's own validation of the values it
      is handed is outside the embedding: the constructor of an observer
      accepts any margin, and the style object stores any string. The
      statements that depend on it carry a premise that says where the
      embedding and the platform agree ([margin_accepted], [milliseconds],
      [printable], [safe_integer], [in_safe_range]).
    - The classes and the style of an element are fields of their own:
      the map [attributes] holds the other attributes, and does not
      change when [class] or [style] do. *)

From Stdlib Require Import ZArith QArith Qcanon Qround String Ascii DecimalString DecimalZ Sorted Lia.
From stdpp Require Import gmap strings list numbers.

Local Open Scope Z_scope.

(** ** The fragment of JavaScript the program uses *)

Module Js.

(** Numbers. *)
Inductive Number :=
  | NaN
  | PInf
  | NInf
  | Fin (q : Qc).

Definition Z2Qc (z : Z) : Qc := Q2Qc (inject_Z z).
Definition ofZ (z : Z) : Number := Fin (Z2Qc z).

Definition Qc_ltb (a b : Qc) : bool := bool_decide (a < b)%Qc.
Definition Qc_leb (a b : Qc) : bool := bool_decide (a ≤ b)%Qc.
Definition Qc_eqb (a b : Qc) : bool := bool_decide (a = b).

Definition neg (a : Number) : Number :=
  match a with
  | NaN => NaN
  | PInf => NInf
  | NInf => PInf
  | Fin q => Fin (- q)%Qc
  end.

Definition add (a b : Number) : Number :=
  match a, b with
  | NaN, _ | _, NaN => NaN
  | PInf, NInf | NInf, PInf => NaN
  | PInf, _ | _, PInf => PInf
  | NInf, _ | _, NInf => NInf
  | Fin x, Fin y => Fin (x + y)%Qc
  end.

Definition sub (a b : Number) : Number := add a (neg b).

(** The sign of a number that is neither NaN nor zero: [true] when
    negative. *)
Definition negative (a : Number) : bool :=
  match a with
  | NInf => true
  | Fin q => Qc_ltb q 0%Qc
  | _ => false
  end.

Definition is_zero (a : Number) : bool :=
  match a with
  | Fin q => Qc_eqb q 0%Qc
  | _ => false
  end.

Definition signed_inf (negative_sign : bool) : Number :=
  if negative_sign then NInf else PInf.

Definition mul (a b : Number) : Number :=
  match a, b with
  | NaN, _ | _, NaN => NaN
  | Fin x, Fin y => Fin (x * y)%Qc
  | _, _ =>
      (* at least one infinity *)
      if is_zero a || is_zero b then NaN
      else signed_inf (xorb (negative a) (negative b))
  end.

Definition div (a b : Number) : Number :=
  match a, b with
  | NaN, _ | _, NaN => NaN
  | Fin x, Fin y =>
      if Qc_eqb y 0%Qc then
        if Qc_eqb x 0%Qc then NaN else signed_inf (Qc_ltb x 0%Qc)
      else Fin (x / y)%Qc
  | Fin _, _ => Fin 0%Qc
  | _, Fin _ => signed_inf (xorb (negative a) (negative b))
  | _, _ => NaN
  end.

(** [a < b] and [a <= b]: false as soon as an operand is NaN. *)
Definition lt (a b : Number) : bool :=
  match a, b with
  | NaN, _ | _, NaN => false
  | _, NInf => false
  | NInf, _ => true
  | PInf, _ => false
  | _, PInf => true
  | Fin x, Fin y => Qc_ltb x y
  end.

Definition le (a b : Number) : bool :=
  match a, b with
  | NaN, _ | _, NaN => false
  | NInf, _ => true
  | _, PInf => true
  | _, NInf => false
  | PInf, _ => false
  | Fin x, Fin y => Qc_leb x y
  end.

(** [Math.min] of two arguments and [Math.floor]. *)
Definition Math_min (a b : Number) : Number :=
  match a, b with
  | NaN, _ | _, NaN => NaN
  | _, _ => if lt b a then b else a
  end.

Definition Math_floor (a : Number) : Number :=
  match a with
  | Fin q => ofZ (Qfloor q)
  | _ => a
  end.

Definition isNaN (a : Number) : bool :=
  match a with NaN => true | _ => false end.

(** Values: what a settings field, an attribute read or a property can
    hold in this program. *)
Inductive Value :=
  | VUndefined
  | VNull
  | VNum (n : Number)
  | VStr (s : string).

Definition ToBoolean (v : Value) : bool :=
  match v with
  | VUndefined | VNull => false
  | VNum NaN => false
  | VNum (Fin q) => negb (Qc_eqb q 0%Qc)
  | VNum _ => true
  | VStr s => negb (String.eqb s "")
  end.

(** [a || b] and [c ? a : b]. *)
Definition or (a b : Value) : Value := if ToBoolean a then a else b.
Definition cond (c a b : Value) : Value := if ToBoolean c then a else b.

(** Number to string. Integral values print in decimal; a fractional value
    prints its decimal expansion, cut after 17 fractional digits. The
    exponent forms of very large and very small doubles are not modelled. *)
Definition digit_char (d : Z) : ascii := ascii_of_N (Z.to_N (48 + d)).

Fixpoint frac_digits (fuel : nat) (r d : Z) : string :=
  match fuel with
  | O => EmptyString
  | S fuel' =>
      if r =? 0 then EmptyString
      else String (digit_char (10 * r / d))
                  (frac_digits fuel' ((10 * r) mod d) d)
  end.

Definition Z_to_string (z : Z) : string := NilZero.string_of_int (Z.to_int z).

Definition Qc_abs_to_string (n : Z) (d : Z) : string :=
  let r := n mod d in
  if r =? 0 then Z_to_string (n / d)
  else (Z_to_string (n / d) ++ "." ++ frac_digits 17 r d)%string.

Definition NumberToString (a : Number) : string :=
  match a with
  | NaN => "NaN"
  | PInf => "Infinity"
  | NInf => "-Infinity"
  | Fin q =>
      let n := Qnum (this q) in
      let d := Zpos (Qden (this q)) in
      if n <? 0 then ("-" ++ Qc_abs_to_string (- n) d)%string
      else Qc_abs_to_string n d
  end.

Definition ToString (v : Value) : string :=
  match v with
  | VUndefined => "undefined"
  | VNull => "null"
  | VNum n => NumberToString n
  | VStr s => s
  end.

(** [a + b] where [b] is a string: concatenation. *)
Definition concat (a : Value) (b : string) : string :=
  (ToString a ++ b)%string.

(** [parseInt] without a radix argument. *)
Definition is_whitespace (c : ascii) : bool :=
  let n := N_of_ascii c in
  ((9 <=? n) && (n <=? 13) || (n =? 32))%N.

Fixpoint trim_start (s : string) : string :=
  match s with
  | String c r => if is_whitespace c then trim_start r else s
  | EmptyString => s
  end.

Definition digit_value (c : ascii) : option Z :=
  let n := Z.of_N (N_of_ascii c) in
  if (48 <=? n) && (n <=? 57) then Some (n - 48)
  else if (97 <=? n) && (n <=? 122) then Some (n - 87)
  else if (65 <=? n) && (n <=? 90) then Some (n - 55)
  else None.

(** The longest prefix of digits of the radix; [None] when it is empty. *)
Fixpoint parse_digits (radix : Z) (s : string) (acc : option Z) : option Z :=
  match s with
  | String c r =>
      match digit_value c with
      | Some d =>
          if d <? radix
          then parse_digits radix r (Some (radix * default 0 acc + d))
          else acc
      | None => acc
      end
  | EmptyString => acc
  end.

Definition strip_sign (s : string) : Z * string :=
  match s with
  | String "-" r => (-1, r)
  | String "+" r => (1, r)
  | _ => (1, s)
  end.

Definition strip_radix (s : string) : Z * string :=
  match s with
  | String "0" (String "x" r) => (16, r)
  | String "0" (String "X" r) => (16, r)
  | _ => (10, s)
  end.

Definition parseInt_string (s : string) : Number :=
  let '(sign, s1) := strip_sign (trim_start s) in
  let '(radix, s2) := strip_radix s1 in
  match parse_digits radix s2 None with
  | Some n => ofZ (sign * n)
  | None => NaN
  end.

Definition parseInt (v : Value) : Number := parseInt_string (ToString v).

(** String to number, as the arithmetic operators convert a string
    operand: white space is trimmed on both sides; the empty string is 0;
    a literal in base 16, 8 or 2 has no sign; a decimal literal has an
    optional sign, an optional fraction and an optional exponent; anything
    else is NaN. *)
Definition is_digit (c : ascii) : bool :=
  let n := N_of_ascii c in
  ((48 <=? n) && (n <=? 57))%N.

Fixpoint trim_end (s : string) : string :=
  match s with
  | EmptyString => EmptyString
  | String c r =>
      match trim_end r with
      | EmptyString =>
          if is_whitespace c then EmptyString else String c EmptyString
      | r' => String c r'
      end
  end.

(** The longest prefix of decimal digits, and what follows it. *)
Fixpoint span_digits (s : string) : string * string :=
  match s with
  | String c r =>
      if is_digit c
      then let '(ds, rest) := span_digits r in (String c ds, rest)
      else (EmptyString, s)
  | EmptyString => (EmptyString, EmptyString)
  end.

Definition digits_value (radix : Z) (ds : string) : Z :=
  default 0 (parse_digits radix ds None).

Fixpoint all_digits (radix : Z) (s : string) : bool :=
  match s with
  | EmptyString => true
  | String c r =>
      match digit_value c with
      | Some d => (d <? radix) && all_digits radix r
      | None => false
      end
  end.

Definition pow10 (k : Z) : Qc :=
  if k <? 0 then (/ Z2Qc (10 ^ (- k)))%Qc else Z2Qc (10 ^ k).

Definition is_letter_e (c : ascii) : bool :=
  let n := N_of_ascii c in
  ((n =? 101) || (n =? 69))%N.

Definition unsigned_decimal (s : string) : Number :=
  if String.eqb s "Infinity" then PInf
  else
    let '(ip, r1) := span_digits s in
    let '(fp, r2) := match r1 with
                     | String "." r => span_digits r
                     | _ => (EmptyString, r1)
                     end in
    if ((String.length ip =? 0) && (String.length fp =? 0))%nat then NaN
    else
      let mantissa :=
        (Z2Qc (digits_value 10 ip)
         + Z2Qc (digits_value 10 fp)
           / Z2Qc (10 ^ Z.of_nat (String.length fp)))%Qc in
      match r2 with
      | EmptyString => Fin mantissa
      | String c r3 =>
          if is_letter_e c then
            let '(esign, r4) := strip_sign r3 in
            let '(ed, r5) := span_digits r4 in
            if ((String.length ed =? 0)%nat || negb (String.eqb r5 ""))%bool
            then NaN
            else Fin (mantissa * pow10 (esign * digits_value 10 ed))%Qc
          else NaN
      end.

Definition radix_of_prefix (c : ascii) : option Z :=
  let n := N_of_ascii c in
  if ((n =? 120) || (n =? 88))%N then Some 16
  else if ((n =? 111) || (n =? 79))%N then Some 8
  else if ((n =? 98) || (n =? 66))%N then Some 2
  else None.

Definition radix_literal (s : string) : option Number :=
  match s with
  | String "0" (String c r) =>
      match radix_of_prefix c with
      | Some radix =>
          Some (if negb (String.eqb r "") && all_digits radix r
                then ofZ (digits_value radix r) else NaN)
      | None => None
      end
  | _ => None
  end.

Definition StringToNumber (s : string) : Number :=
  let t := trim_end (trim_start s) in
  if String.eqb t "" then ofZ 0
  else match radix_literal t with
       | Some n => n
       | None =>
           let '(sign, r) := strip_sign t in
           mul (ofZ sign) (unsigned_decimal r)
       end.

Definition ToNumber (v : Value) : Number :=
  match v with
  | VUndefined => NaN
  | VNull => ofZ 0
  | VNum n => n
  | VStr s => StringToNumber s
  end.

(** [s.includes(sub)]. *)
Fixpoint includes (s sub : string) : bool :=
  if String.prefix sub s then true
  else match s with
       | String _ r => includes r sub
       | EmptyString => false
       end.

End Js.

(** ** The document *)

Module Dom.

(** The identity of an element object. *)
Definition elem_id := nat.

(** The identity of a plain object allocated by the program. *)
Definition loc := nat.

Record Style := {
  transitionDuration : string;
  transitionDelay : string
}.

(** An element object: the DOM state the program reads and writes, and the
    expando properties the program attaches to it ([None] is undefined). *)
Record Element := {
  attributes : gmap string string;
  classList : list string;
  textContent : string;
  style : Style;
  jazzySpeed : option string;
  jazzyDelay : option string;
  jazzyOffset : option Js.Number;
  options : option loc
}.

Definition blank : Element := {|
  attributes := ∅;
  classList := [];
  textContent := "";
  style := {| transitionDuration := ""; transitionDelay := "" |};
  jazzySpeed := None;
  jazzyDelay := None;
  jazzyOffset := None;
  options := None
|}.

#[global] Instance Element_inhabited : Inhabited Element := populate blank.

(** [element.getAttribute(name)]: null when the attribute is absent. *)
Definition getAttribute (el : Element) (name : string) : Js.Value :=
  match attributes el !! name with
  | Some s => Js.VStr s
  | None => Js.VNull
  end.

(** [element.classList.add(token)]. *)
Definition classList_add (token : string) (el : Element) : Element :=
  {| attributes := attributes el;
     classList := if bool_decide (token ∈ classList el)
                  then classList el else classList el ++ [token];
     textContent := textContent el;
     style := style el;
     jazzySpeed := jazzySpeed el;
     jazzyDelay := jazzyDelay el;
     jazzyOffset := jazzyOffset el;
     options := options el |}.

(** [element.matches('[data-jazzy-scroll]:not(.animated-in)')]. *)
Definition matches_jazzy (el : Element) : bool :=
  bool_decide (is_Some (attributes el !! "data-jazzy-scroll"))
  && negb (bool_decide ("animated-in" ∈ classList el)).

(** The shape of a subtree of the document. *)
#[warnings="-register-all"]
Inductive Node :=
  | ElementNode (e : elem_id) (childNodes : list Node)
  | TextNode (data : string)
  | CommentNode (data : string).

Definition ELEMENT_NODE : Z := 1.

Definition nodeType (n : Node) : Z :=
  match n with
  | ElementNode _ _ => 1
  | TextNode _ => 3
  | CommentNode _ => 8
  end.

(** The elements of a subtree in document order, its root included. *)
Fixpoint inclusive_descendants (n : Node) : list elem_id :=
  match n with
  | ElementNode e childNodes => e :: flat_map inclusive_descendants childNodes
  | _ => []
  end.

Definition descendants (n : Node) : list elem_id :=
  match n with
  | ElementNode _ childNodes => flat_map inclusive_descendants childNodes
  | _ => []
  end.

(** [node.querySelectorAll('[data-jazzy-scroll]:not(.animated-in)')]: the
    matching descendants, in document order; the node itself is not a
    candidate. *)
Definition querySelectorAll_jazzy
    (elements : gmap elem_id Element) (n : Node) : list elem_id :=
  List.filter (fun e => matches_jazzy (elements !!! e)) (descendants n).

(** [document.querySelectorAll(...)]: every element of the document is a
    candidate. *)
Definition document_querySelectorAll_jazzy
    (elements : gmap elem_id Element) (document : list Node) : list elem_id :=
  List.filter (fun e => matches_jazzy (elements !!! e))
              (flat_map inclusive_descendants document).

(** A mutation record; the callback reads [addedNodes] only. *)
Record MutationRecord := { addedNodes : list Node }.

(** An IntersectionObserverEntry: the fields the callback reads. *)
Record Entry := {
  target : elem_id;
  isIntersecting : bool;
  boundingClientRect_top : Qc
}.

End Dom.

(** ** The counter: [animateNumber] and its [step] *)

Module Ramp.
Import Js.

(** The closure of [step]: the arguments of [animateNumber] and the
    variable [startTimestamp], null until the first frame. The duration is
    whatever the caller passes; division converts it to a number. *)
Record Closure := {
  start : Number;
  end_ : Number;
  duration : Value;
  startTimestamp : option Qc
}.

Definition animateNumber (start end_ : Number) (duration : Value) : Closure :=
  {| start := start; end_ := end_; duration := duration;
     startTimestamp := None |}.

(** [!startTimestamp]: true for null and for zero. *)
Definition not_startTimestamp (c : Closure) : bool :=
  match startTimestamp c with
  | None => true
  | Some t => negb (ToBoolean (VNum (Fin t)))
  end.

Definition set_startTimestamp (c : Closure) (timestamp : Qc) : Closure :=
  if not_startTimestamp c then
    {| start := start c; end_ := end_ c; duration := duration c;
       startTimestamp := Some timestamp |}
  else c.

Definition startTimestamp_value (c : Closure) : Number :=
  match startTimestamp c with
  | Some t => Fin t
  | None => ofZ 0
  end.

Definition progress (c : Closure) (timestamp : Qc) : Number :=
  Math_min (div (sub (Fin timestamp) (startTimestamp_value c))
                (ToNumber (duration c)))
           (ofZ 1).

Definition displayed (c : Closure) (timestamp : Qc) : Number :=
  Math_floor (add (mul (progress c timestamp) (sub (end_ c) (start c)))
                  (start c)).

(** One frame: the closure it leaves, the number it assigns to
    [element.textContent], the text this makes, and whether it asked for
    another frame. *)
Record Frame := {
  closure : Closure;
  assigned : Number;
  textContent : string;
  requested : bool
}.

Definition step (c : Closure) (timestamp : Qc) : Frame :=
  let c := set_startTimestamp c timestamp in
  {| closure := c;
     assigned := displayed c timestamp;
     textContent := NumberToString (displayed c timestamp);
     requested := lt (progress c timestamp) (ofZ 1) |}.

(** The frames of a run on the given clock readings: the step is called
    again only when it asked for it. *)
Fixpoint frames (c : Closure) (timestamps : list Qc) : list Frame :=
  match timestamps with
  | [] => []
  | t :: ts =>
      let f := step c t in
      f :: (if requested f then frames (closure f) ts else [])
  end.

(** *** Vocabulary for the properties *)

(** The progress and the value of a frame at clock reading [t], for a
    counter from [s] to [e] over [d] that saw its first frame at [t0]. *)
Definition clamp (p : Qc) : Qc := if Qc_ltb 1 p then 1%Qc else p.

Definition progress_at (d t0 t : Qc) : Qc := clamp ((t + - t0) / d)%Qc.

Definition value_at (s e : Z) (d t0 t : Qc) : Z :=
  Qfloor (progress_at d t0 t * (Z2Qc e + - Z2Qc s) + Z2Qc s)%Qc.

(** The closure after the first frame. *)
Definition started (s e : Z) (d t0 : Qc) : Closure :=
  {| start := ofZ s; end_ := ofZ e; duration := VNum (Fin d);
     startTimestamp := Some t0 |}.

(** The start of the clock after a frame at reading [t]: a start that is
    zero is falsy, and is set again. *)
Definition restart (st t : Qc) : Qc := if Qc_eqb st 0 then t else st.

(** The frame at reading [t] of a counter whose clock started at [st]. *)
Definition frame_at (s e : Z) (d st t : Qc) : Frame :=
  {| closure := started s e d st;
     assigned := ofZ (value_at s e d st t);
     textContent := Z_to_string (value_at s e d st t);
     requested := Qc_ltb (progress_at d st t) 1 |}.


End Ramp.

(** ** The plugin *)

Module Jazzy.
Import Js Dom.

(** The calls of the plugin's own functions, in the order they are made;
    the list is ghost state for stating how often and with which arguments
    a function is invoked. *)
Inductive Call :=
  | CallAddElement (element : elem_id)
  | CallIsInViewport (element : elem_id)
  | CallAnimateIn (element : elem_id)
  | CallAnimateNumber (element : elem_id) (start end_ : Number) (duration : Value).

(** The [options] object literal of the observer branch. *)
Record Options := {
  rootMargin : string;
  threshold : list Number
}.

#[global] Instance Options_inhabited : Inhabited Options :=
  populate {| rootMargin := ""; threshold := [] |}.

(** An IntersectionObserver: the margin and thresholds it read from the
    options when it was constructed, and the targets it observes. *)
Record IntersectionObserver := {
  io_rootMargin : string;
  io_threshold : list Number;
  io_observed : list elem_id
}.

(** The state of the branch taken by the constructor: the shared options
    object, or the array [jazzyElements] with the closure variable
    [viewportBottom] and whether [init] is queued for the next frame. *)
Inductive Strategy :=
  | Observing (options : loc)
  | Polling (jazzyElements : list elem_id) (viewportBottom : Z)
            (frameRequested : bool).

(** The object under construction, [this]. *)
Record Engine := {
  speed : Value;
  delay : Value;
  offset : Number;
  strategy : Strategy
}.

(** A counter started by [animateNumber]: the element it writes to, the
    closure of its [step], and whether [step] is queued for the next
    frame. *)
Record Counter := {
  counter_element : elem_id;
  counter_closure : Ramp.Closure;
  counter_requested : bool
}.

Record World := {
  elements : gmap elem_id Element;
  heap : gmap loc Options;
  observers : list IntersectionObserver;
  this : Engine;
  counters : list Counter;
  calls : list Call
}.

(** The layout engine: the [top] of [getBoundingClientRect()], which depends
    on the scroll position of the frame and on the state of the document. *)
Definition Layout := gmap elem_id Element -> elem_id -> Qc.

(** *** State and exceptions *)

Inductive Outcome (A : Type) :=
  | Return (a : A) (w : World)
  | Throw (w : World).
Arguments Return {A} a w.
Arguments Throw {A} w.

Definition M (A : Type) : Type := World -> Outcome A.

Definition ret {A} (a : A) : M A := fun w => Return a w.
Definition bind {A B} (m : M A) (k : A -> M B) : M B :=
  fun w => match m w with
           | Return a w' => k a w'
           | Throw w' => Throw w'
           end.
(** An uncaught TypeError; what was done before it stays done. *)
Definition throw {A} : M A := fun w => Throw w.
Definition get {A} (f : World -> A) : M A := fun w => Return (f w) w.
Definition modify (f : World -> World) : M unit := fun w => Return tt (f w).

Declare Scope jazzy_scope.
Delimit Scope jazzy_scope with jazzy.
Notation "'let*' x := m 'in' k" := (bind m (fun x => k))
  (at level 10, x name, m at level 100, k at level 200) : jazzy_scope.
Notation "m ;; k" := (bind m (fun _ => k))
  (at level 100, k at level 200, right associativity) : jazzy_scope.
Local Open Scope jazzy_scope.

(** The world after a callback has run, whether it returned or threw. *)
Definition world_of {A} (o : Outcome A) : World :=
  match o with Return _ w => w | Throw w => w end.

(** *** Field updates *)

Definition with_elements (f : gmap elem_id Element -> gmap elem_id Element)
    (w : World) : World :=
  {| elements := f (elements w); heap := heap w; observers := observers w;
     this := this w; counters := counters w; calls := calls w |}.

Definition with_heap (f : gmap loc Options -> gmap loc Options)
    (w : World) : World :=
  {| elements := elements w; heap := f (heap w); observers := observers w;
     this := this w; counters := counters w; calls := calls w |}.

Definition with_observers
    (f : list IntersectionObserver -> list IntersectionObserver)
    (w : World) : World :=
  {| elements := elements w; heap := heap w; observers := f (observers w);
     this := this w; counters := counters w; calls := calls w |}.

Definition with_strategy (f : Strategy -> Strategy) (w : World) : World :=
  {| elements := elements w; heap := heap w; observers := observers w;
     this := {| speed := speed (this w); delay := delay (this w);
                offset := offset (this w);
                strategy := f (strategy (this w)) |};
     counters := counters w;
     calls := calls w |}.

Definition with_counters (f : list Counter -> list Counter) (w : World) : World :=
  {| elements := elements w; heap := heap w; observers := observers w;
     this := this w; counters := f (counters w); calls := calls w |}.

Definition record (c : Call) : M unit :=
  modify (fun w =>
    {| elements := elements w; heap := heap w; observers := observers w;
       this := this w; counters := counters w; calls := calls w ++ [c] |}).

Definition update_element (element : elem_id) (f : Element -> Element) : M unit :=
  modify (with_elements (fun els => <[element := f (els !!! element)]> els)).

Definition set_jazzySpeed (v : string) (el : Element) : Element :=
  {| attributes := attributes el; classList := classList el;
     textContent := textContent el; style := style el;
     jazzySpeed := Some v; jazzyDelay := jazzyDelay el;
     jazzyOffset := jazzyOffset el; options := Dom.options el |}.

Definition set_jazzyDelay (v : string) (el : Element) : Element :=
  {| attributes := attributes el; classList := classList el;
     textContent := textContent el; style := style el;
     jazzySpeed := jazzySpeed el; jazzyDelay := Some v;
     jazzyOffset := jazzyOffset el; options := Dom.options el |}.

Definition set_jazzyOffset (v : Number) (el : Element) : Element :=
  {| attributes := attributes el; classList := classList el;
     textContent := textContent el; style := style el;
     jazzySpeed := jazzySpeed el; jazzyDelay := jazzyDelay el;
     jazzyOffset := Some v; options := Dom.options el |}.

Definition set_options (l : loc) (el : Element) : Element :=
  {| attributes := attributes el; classList := classList el;
     textContent := textContent el; style := style el;
     jazzySpeed := jazzySpeed el; jazzyDelay := jazzyDelay el;
     jazzyOffset := jazzyOffset el; options := Some l |}.

Definition set_textContent (v : string) (el : Element) : Element :=
  {| attributes := attributes el; classList := classList el;
     textContent := v; style := style el;
     jazzySpeed := jazzySpeed el; jazzyDelay := jazzyDelay el;
     jazzyOffset := jazzyOffset el; options := Dom.options el |}.

Definition set_style (f : Style -> Style) (el : Element) : Element :=
  {| attributes := attributes el; classList := classList el;
     textContent := textContent el; style := f (style el);
     jazzySpeed := jazzySpeed el; jazzyDelay := jazzyDelay el;
     jazzyOffset := jazzyOffset el; options := Dom.options el |}.

Definition set_transitionDuration (v : string) (s : Style) : Style :=
  {| transitionDuration := v; transitionDelay := transitionDelay s |}.

Definition set_transitionDelay (v : string) (s : Style) : Style :=
  {| transitionDuration := transitionDuration s; transitionDelay := v |}.

Definition set_rootMargin (v : string) (o : Options) : Options :=
  {| rootMargin := v; threshold := threshold o |}.

(** A property that was never assigned reads as undefined, which arithmetic
    turns into NaN. *)
Definition ToNumber_property (p : option Number) : Number :=
  match p with Some n => n | None => NaN end.

Definition property_string (p : option string) : string :=
  match p with Some s => s | None => "undefined" end.

(** *** [animateNumber]

    The call creates the closure of [step] and queues [step] for the next
    frame; module [Ramp] has the closure and the frames. *)
Definition animateNumber (element : elem_id) (start end_ : Number)
    (duration : Value) : M unit :=
  record (CallAnimateNumber element start end_ duration) ;;
  (* window.requestAnimationFrame(step) *)
  modify (with_counters (fun cs =>
    cs ++ [ {| counter_element := element;
               counter_closure := Ramp.animateNumber start end_ duration;
               counter_requested := true |} ])).

(** One frame of a counter: [step] on the clock reading of the frame. *)
Definition counter_step (counter : nat) (timestamp : Qc) : M unit :=
  let* cs := get counters in
  match cs !! counter with
  | Some c =>
      let f := Ramp.step (counter_closure c) timestamp in
      update_element (counter_element c)
        (set_textContent (Ramp.textContent f)) ;;
      modify (with_counters
        (<[counter := {| counter_element := counter_element c;
                         counter_closure := Ramp.closure f;
                         counter_requested := Ramp.requested f |}]>))
  | None => ret tt
  end.

(** *** [this.animateIn] *)
Definition animateIn (element : elem_id) : M unit :=
  record (CallAnimateIn element) ;;
  let* el := get (fun w => elements w !!! element) in
  let animationType := getAttribute el "data-jazzy-scroll" in
  match animationType with
  | VStr animationType =>
      (if includes animationType "count" then
         let startNumber :=
           parseInt (or (getAttribute el "data-jazzy-scroll-count-start")
                        (VNum (ofZ 0))) in
         let endNumber :=
           parseInt (or (getAttribute el "data-jazzy-scroll-count-end")
                        (VStr (textContent el))) in
         if negb (isNaN startNumber) && negb (isNaN endNumber) then
           let* _this_speed := get (fun w => speed (this w)) in
           animateNumber element startNumber endNumber _this_speed
         else ret tt
       else ret tt) ;;
      update_element element (classList_add "animated-in")
  | _ =>
      (* [animationType.includes] on null *)
      throw
  end.

(** *** The per-element settings, common to both [addElement]s

    [attribute ? attribute : _this.field], for the three fields. *)
Definition resolved_speed (_this : Engine) (el : Element) : Value :=
  cond (getAttribute el "data-jazzy-scroll-speed")
       (getAttribute el "data-jazzy-scroll-speed")
       (speed _this).

Definition resolved_delay (_this : Engine) (el : Element) : Value :=
  cond (getAttribute el "data-jazzy-scroll-delay")
       (getAttribute el "data-jazzy-scroll-delay")
       (delay _this).

Definition resolved_offset (_this : Engine) (el : Element) : Value :=
  cond (getAttribute el "data-jazzy-scroll-offset")
       (getAttribute el "data-jazzy-scroll-offset")
       (VNum (offset _this)).

Definition resolve_settings (element : elem_id) : M unit :=
  let* el := get (fun w => elements w !!! element) in
  let* _this := get this in
  update_element element
    (set_jazzySpeed (concat (resolved_speed _this el) "ms")) ;;
  update_element element
    (set_jazzyDelay (concat (resolved_delay _this el) "ms")) ;;
  update_element element
    (set_jazzyOffset (parseInt (resolved_offset _this el))).

(** The two assignments to [element.style]. The string is stored as it
    is: the style object of the platform keeps it only if it is a valid
    time (see [milliseconds]). *)
Definition apply_style (element : elem_id) : M unit :=
  let* el := get (fun w => elements w !!! element) in
  update_element element
    (set_style (set_transitionDuration (property_string (jazzySpeed el)))) ;;
  update_element element
    (set_style (set_transitionDelay (property_string (jazzyDelay el)))).

(** The margin string built from an offset. *)
Definition margin_of (offset : Number) : string :=
  ("0px 0px " ++ NumberToString (mul offset (ofZ (-1))) ++ "px 0px")%string.

(** *** The observer branch *)

(** [new IntersectionObserver(callback, options)] followed by
    [observe(element)]: the observer reads the options once, here. The
    platform's constructor throws on a margin it cannot parse; this one
    does not (see [margin_accepted]). *)
Definition new_IntersectionObserver (options : Options) (element : elem_id)
    : M unit :=
  modify (with_observers (fun os =>
    os ++ [ {| io_rootMargin := rootMargin options;
               io_threshold := threshold options;
               io_observed := [element] |} ])).

Definition disconnect (observer : nat) : M unit :=
  modify (with_observers
    (alter (fun o => {| io_rootMargin := io_rootMargin o;
                        io_threshold := io_threshold o;
                        io_observed := [] |}) observer)).

Definition addElement_observing (this_options : loc) (element : elem_id)
    : M unit :=
  record (CallAddElement element) ;;
  resolve_settings element ;;
  update_element element (set_options this_options) ;;
  let* el := get (fun w => elements w !!! element) in
  (* element.options.rootMargin = ...: a write through the reference *)
  match Dom.options el with
  | Some l =>
      modify (with_heap
        (alter (set_rootMargin
                  (margin_of (ToNumber_property (jazzyOffset el)))) l)) ;;
      apply_style element ;;
      let* element_options := get (fun w => heap w !!! l) in
      new_IntersectionObserver element_options element
  | None => throw
  end.

(** The callback handed to the observer of one element. *)
Definition intersection_callback (intersectionObserver : nat)
    (entries : list Entry) : M unit :=
  match entries !! 0%nat with
  | Some entry =>
      if isIntersecting entry
         || le (Fin (boundingClientRect_top entry)) (ofZ 0)
      then animateIn (target entry) ;; disconnect intersectionObserver
      else ret tt
  | None => throw
  end.

(** *** The polling branch *)

Definition jazzyElements_of (w : World) : list elem_id :=
  match strategy (this w) with
  | Polling l _ _ => l
  | Observing _ => []
  end.

Definition viewportBottom_of (w : World) : Z :=
  match strategy (this w) with
  | Polling _ vb _ => vb
  | Observing _ => 0
  end.

Definition frameRequested_of (w : World) : bool :=
  match strategy (this w) with
  | Polling _ _ b => b
  | Observing _ => false
  end.

Definition with_jazzyElements (f : list elem_id -> list elem_id) : World -> World :=
  with_strategy (fun s =>
    match s with
    | Polling l vb b => Polling (f l) vb b
    | Observing o => Observing o
    end).

Definition set_viewportBottom (vb : Z) : World -> World :=
  with_strategy (fun s =>
    match s with
    | Polling l _ b => Polling l vb b
    | Observing o => Observing o
    end).

Definition set_frameRequested (b : bool) : World -> World :=
  with_strategy (fun s =>
    match s with
    | Polling l vb _ => Polling l vb b
    | Observing o => Observing o
    end).

Definition addElement_polling (element : elem_id) : M unit :=
  record (CallAddElement element) ;;
  resolve_settings element ;;
  apply_style element ;;
  (* _this.jazzyElements.push(element) *)
  modify (with_jazzyElements (fun l => l ++ [element])).

Definition isInViewport (layout : Layout) (element : elem_id) : M bool :=
  record (CallIsInViewport element) ;;
  let* els := get elements in
  let* viewportBottom := get viewportBottom_of in
  ret (le (add (Fin (layout els element))
               (ToNumber_property (jazzyOffset (els !!! element))))
          (ofZ viewportBottom)).

(** [array.splice(i, 1)]. *)
Definition splice1 {A} (i : nat) (l : list A) : list A :=
  take i l ++ drop (S i) l.

(** The body of [for (let i = length - 1; i >= 0; i--)] at index [i], and
    the loop entered with [i + 1 = k]. *)
Definition init_body (layout : Layout) (i : nat) : M unit :=
  let* jazzyElements := get jazzyElements_of in
  match jazzyElements !! i with
  | Some element =>
      let* inViewport := isInViewport layout element in
      if inViewport : bool then
        animateIn element ;;
        modify (with_jazzyElements (splice1 i))
      else ret tt
  | None =>
      (* [element] is undefined: the call on it throws *)
      throw
  end.

Fixpoint init_loop (layout : Layout) (k : nat) : M unit :=
  match k with
  | O => ret tt
  | S i => init_body layout i ;; init_loop layout i
  end.

Definition requestAnimationFrame_init : M unit :=
  modify (set_frameRequested true).

Definition init (layout : Layout) : M unit :=
  let* jazzyElements := get jazzyElements_of in
  init_loop layout (length jazzyElements) ;;
  requestAnimationFrame_init.

(** The listener of the window's resize event. *)
Definition on_resize (window_innerHeight : Z) : M unit :=
  let* viewportBottom := get viewportBottom_of in
  if bool_decide (viewportBottom <> window_innerHeight)
  then modify (set_viewportBottom window_innerHeight)
  else ret tt.

(** *** [_this.addElement]: whichever branch defined it *)
Definition addElement (element : elem_id) : M unit :=
  let* s := get (fun w => strategy (this w)) in
  match s with
  | Observing this_options => addElement_observing this_options element
  | Polling _ _ _ => addElement_polling element
  end.

(** A loop over a list that the body does not change. *)
Fixpoint for_each {A} (l : list A) (body : A -> M unit) : M unit :=
  match l with
  | [] => ret tt
  | x :: l' => body x ;; for_each l' body
  end.

(** *** The MutationObserver callback *)

(** [for (let y = 0; y < node.querySelectorAll(...).length; y++)]: the
    query is evaluated again at every test and at every access. The first
    argument bounds the iterations left by the number of descendants that
    remain to be indexed. *)
Fixpoint descendants_loop (k : nat) (node : Node) (y : nat) : M unit :=
  match k with
  | O => ret tt
  | S k' =>
      let* found := get (fun w => querySelectorAll_jazzy (elements w) node) in
      if bool_decide (y < length found)%nat then
        let* found' := get (fun w => querySelectorAll_jazzy (elements w) node) in
        match found' !! y with
        | Some element => addElement element ;; descendants_loop k' node (S y)
        | None => throw
        end
      else ret tt
  end.

Definition added_node (node : Node) : M unit :=
  if bool_decide (nodeType node = ELEMENT_NODE) then
    match node with
    | ElementNode e _ =>
        let* el := get (fun w => elements w !!! e) in
        (if matches_jazzy el then addElement e else ret tt) ;;
        descendants_loop (length (descendants node)) node 0
    | _ => ret tt
    end
  else ret tt.

Definition mutation_callback (mutationsList : list MutationRecord) : M unit :=
  for_each mutationsList (fun mutation =>
    for_each (addedNodes mutation) added_node).

(** *** The constructor *)

(** What the script reads from [window]. *)
Record Window := {
  has_IntersectionObserver : bool;
  has_IntersectionObserverEntry : bool;
  has_intersectionRatio : bool;
  orientation : Value;
  innerHeight : Z
}.

Definition supportsIntersectionObserver (window : Window) : bool :=
  has_IntersectionObserver window
  && has_IntersectionObserverEntry window
  && has_intersectionRatio window.

(** The settings object: a missing field reads as undefined. The types are
    those of the constructor's documentation: [speed] and [delay] are
    numbers or strings, [offset] is a number. *)
Record Settings := {
  settings_speed : Value;
  settings_delay : Value;
  settings_offset : option Number
}.

(** [new JazzyScroll()]: the default parameter is an empty array, all of
    whose named fields are undefined. *)
Definition no_settings : Settings :=
  {| settings_speed := VUndefined; settings_delay := VUndefined;
     settings_offset := None |}.

Definition _defaultSpeed : Number := ofZ 500.
Definition _defaultDelay : Number := ofZ 0.
Definition _defaultOffset : Number := ofZ 0.

(** [a || b] on a field that holds a number or is undefined. *)
Definition or_number (a : option Number) (b : Number) : Number :=
  match a with
  | Some n => if ToBoolean (VNum n) then n else b
  | None => b
  end.

(** The three assignments at the top of the constructor, followed by the
    override for devices that expose [window.orientation]. *)
Definition this_speed (settings : Settings) : Value :=
  or (settings_speed settings) (VNum _defaultSpeed).

Definition this_delay (settings : Settings) : Value :=
  or (settings_delay settings) (VNum _defaultDelay).

Definition this_offset (window : Window) (settings : Settings) : Number :=
  let offset := or_number (settings_offset settings) _defaultOffset in
  match orientation window with
  | VUndefined => offset
  | _ => ofZ 0
  end.

(** The world the constructor starts from: the elements of the page, no
    object of the plugin yet. *)
Definition JazzyScroll (window : Window) (document : list Node)
    (page : gmap elem_id Element) (settings : Settings) : Outcome unit :=
  let _jazzyElements := document_querySelectorAll_jazzy page document in
  let speed := this_speed settings in
  let delay := this_delay settings in
  let offset := this_offset window settings in
  if supportsIntersectionObserver window then
    let this_options : loc := fresh (dom (∅ : gmap loc Options)) in
    let w :=
      {| elements := page;
         heap := {[ this_options :=
                      {| rootMargin := margin_of offset;
                         threshold := [ofZ 0; ofZ 1] |} ]};
         observers := [];
         this := {| speed := speed; delay := delay; offset := offset;
                    strategy := Observing this_options |};
         counters := [];
         calls := [] |} in
    (* _this.init() *)
    for_each _jazzyElements addElement w
  else
    let w :=
      {| elements := page;
         heap := ∅;
         observers := [];
         this := {| speed := speed; delay := delay; offset := offset;
                    strategy := Polling [] (innerHeight window) false |};
         counters := [];
         calls := [] |} in
    (for_each _jazzyElements addElement ;;
     requestAnimationFrame_init) w.

(** *** What the platform delivers after construction *)

Inductive Event :=
  | AnimationFrame (layout : Layout)
  | Resize (window_innerHeight : Z)
  | CounterFrame (counter : nat) (timestamp : Qc)
  | Intersection (observer : nat) (entries : list Entry)
  | Mutations (mutationsList : list MutationRecord).

(** A frame runs the [step] of a counter only if the counter asked for
    it. *)
Definition counter_queued (w : World) (counter : nat) : bool :=
  match counters w !! counter with
  | Some c => counter_requested c
  | None => false
  end.

(** An observer is called with a non-empty list of entries about targets it
    observes; a disconnected observer is not called. *)
Definition deliverable (w : World) (observer : nat) (entries : list Entry)
    : bool :=
  match observers w !! observer with
  | Some o =>
      negb (bool_decide (entries = []))
      && forallb (fun en => bool_decide (target en ∈ io_observed o)) entries
  | None => false
  end.

Definition handle (ev : Event) : M unit :=
  match ev with
  | AnimationFrame layout =>
      let* requested := get frameRequested_of in
      if requested : bool
      then modify (set_frameRequested false) ;; init layout
      else ret tt
  | Resize window_innerHeight =>
      let* s := get (fun w => strategy (this w)) in
      match s with
      | Polling _ _ _ => on_resize window_innerHeight
      | Observing _ => ret tt
      end
  | CounterFrame counter timestamp =>
      let* queued := get (fun w => counter_queued w counter) in
      if queued : bool then counter_step counter timestamp else ret tt
  | Intersection observer entries =>
      let* ok := get (fun w => deliverable w observer entries) in
      if ok : bool then intersection_callback observer entries else ret tt
  | Mutations mutationsList => mutation_callback mutationsList
  end.

(** An exception thrown by a callback ends that callback only. *)
Definition step (w : World) (ev : Event) : World := world_of (handle ev w).

Definition run (evs : list Event) (w : World) : World := fold_left step evs w.

(** How many times [animateIn] has been called on an element. *)
Definition is_animateIn (element : elem_id) (c : Call) : bool :=
  match c with
  | CallAnimateIn e => bool_decide (e = element)
  | _ => false
  end.

Definition animateIn_count (element : elem_id) (w : World) : nat :=
  length (List.filter (is_animateIn element) (calls w)).

(** The elements a strategy is still watching. *)
Definition tracked (w : World) : list elem_id :=
  match strategy (this w) with
  | Polling l _ _ => l
  | Observing _ => flat_map io_observed (observers w)
  end.

(** *** Vocabulary for the properties *)

(** The value of the marker attribute of an element. *)
Definition marker (w : World) (element : elem_id) : option string :=
  attributes (elements w !!! element) !! "data-jazzy-scroll".

(** The two numbers [animateIn] parses for a counting element. *)
Definition startNumber_of (el : Element) : Number :=
  parseInt (or (getAttribute el "data-jazzy-scroll-count-start")
               (VNum (ofZ 0))).

Definition endNumber_of (el : Element) : Number :=
  parseInt (or (getAttribute el "data-jazzy-scroll-count-end")
               (VStr (Dom.textContent el))).

(** The element object once [addElement] has resolved its settings and
    applied its style. *)
Definition registered (_this : Engine) (el : Element) : Element :=
  {| attributes := attributes el;
     classList := classList el;
     Dom.textContent := Dom.textContent el;
     style := {| transitionDuration := concat (resolved_speed _this el) "ms";
                 transitionDelay := concat (resolved_delay _this el) "ms" |};
     jazzySpeed := Some (concat (resolved_speed _this el) "ms");
     jazzyDelay := Some (concat (resolved_delay _this el) "ms");
     jazzyOffset := Some (parseInt (resolved_offset _this el));
     Dom.options := Dom.options el |}.

(** The numbers of the counter [animateIn] starts, if it starts one. *)
Definition counting (el : Element) (animationType : string)
    : option (Number * Number) :=
  if includes animationType "count" then
    if negb (isNaN (startNumber_of el)) && negb (isNaN (endNumber_of el))
    then Some (startNumber_of el, endNumber_of el)
    else None
  else None.

(** The calls [animateIn] makes after its own, and the counter it queues. *)
Definition counting_calls (_this : Engine) (e : elem_id) (el : Element)
    (animationType : string) : list Call :=
  match counting el animationType with
  | Some (startNumber, endNumber) =>
      [CallAnimateNumber e startNumber endNumber (speed _this)]
  | None => []
  end.

Definition counting_counters (_this : Engine) (e : elem_id) (el : Element)
    (animationType : string) : list Counter :=
  match counting el animationType with
  | Some (startNumber, endNumber) =>
      [ {| counter_element := e;
           counter_closure :=
             Ramp.animateNumber startNumber endNumber (speed _this);
           counter_requested := true |} ]
  | None => []
  end.

(** The world after [animateIn] has returned. *)
Definition activated (e : elem_id) (animationType : string) (w : World) : World :=
  {| elements := <[e := classList_add "animated-in" (elements w !!! e)]> (elements w);
     heap := heap w;
     observers := observers w;
     this := this w;
     counters := counters w
                 ++ counting_counters (this w) e (elements w !!! e) animationType;
     calls := calls w ++ CallAnimateIn e
                :: counting_calls (this w) e (elements w !!! e) animationType |}.

(** The world after [addElement], and after a series of them. *)
Definition register (w : World) (e : elem_id) : World :=
  world_of (addElement e w).

Definition register_all (l : list elem_id) (w : World) : World :=
  fold_left register l w.

(** Two worlds whose documents read the same: same attributes, classes
    and text on every element. *)
Definition same_document (w w' : World) : Prop :=
  forall x,
    attributes (elements w' !!! x) = attributes (elements w !!! x)
    /\ classList (elements w' !!! x) = classList (elements w !!! x)
    /\ Dom.textContent (elements w' !!! x) = Dom.textContent (elements w !!! x).

(** The world after one more call has been recorded, and after an
    observer has been disconnected. *)
Definition called (c : Call) (w : World) : World :=
  {| elements := elements w; heap := heap w; observers := observers w;
     this := this w; counters := counters w; calls := calls w ++ [c] |}.

(** The world after a frame of a counter. *)
Definition counted (counter : nat) (timestamp : Qc) (w : World) : World :=
  world_of (counter_step counter timestamp w).

Definition disconnected (observer : nat) (w : World) : World :=
  world_of (disconnect observer w).

(** The polling branch allocates no observer. *)
Definition well_formed (w : World) : Prop :=
  match strategy (this w) with
  | Polling _ _ _ => observers w = []
  | Observing _ => True
  end.

(** The world the constructor leaves behind. *)
Definition constructed (window : Window) (document : list Node)
    (page : gmap elem_id Element) (settings : Settings) : World :=
  world_of (JazzyScroll window document page settings).

(** The world in which the constructor starts registering elements. *)
Definition initial (window : Window) (page : gmap elem_id Element)
    (settings : Settings) : World :=
  {| elements := page;
     heap := if supportsIntersectionObserver window
             then {[ fresh (dom (∅ : gmap loc Options)) :=
                       {| rootMargin := margin_of (this_offset window settings);
                          threshold := [ofZ 0; ofZ 1] |} ]}
             else ∅;
     observers := [];
     this := {| speed := this_speed settings;
                delay := this_delay settings;
                offset := this_offset window settings;
                strategy := if supportsIntersectionObserver window
                            then Observing (fresh (dom (∅ : gmap loc Options)))
                            else Polling [] (innerHeight window) false |};
     counters := [];
     calls := [] |}.

(** Each tracked element is tracked once, still carries its marker and
    has not been activated; no element has been activated twice; an
    activated element carries the completion class. *)
Definition at_most_once (w : World) : Prop :=
  NoDup (tracked w)
  /\ (forall e, e ∈ tracked w ->
        animateIn_count e w = 0%nat /\ is_Some (marker w e))
  /\ (forall e, (animateIn_count e w <= 1)%nat)
  /\ (forall e, animateIn_count e w <> 0%nat ->
        "animated-in" ∈ classList (elements w !!! e)).

(** Each tracked element holds the offset resolved from its own attribute
    or else from the engine, whose offset is [c]. *)
Definition offsets_resolved (c : Number) (w : World) : Prop :=
  offset (this w) = c
  /\ forall e, e ∈ tracked w ->
       jazzyOffset (elements w !!! e)
       = Some (parseInt (resolved_offset (this w) (elements w !!! e))).

(** The test of [isInViewport], without the record of the call. *)
Definition inViewport (layout : Layout) (w : World) (element : elem_id) : bool :=
  le (add (Fin (layout (elements w) element))
          (ToNumber_property (jazzyOffset (elements w !!! element))))
     (ofZ (viewportBottom_of w)).

(** An element that passes the test of [isInViewport] whatever the state
    of the document when it is measured. *)
Definition always_inViewport (layout : Layout) (w : World) (element : elem_id)
    : Prop :=
  forall els,
    le (add (Fin (layout els element))
            (ToNumber_property (jazzyOffset (elements w !!! element))))
       (ofZ (viewportBottom_of w)) = true.

(** The elements a list of calls hands to [animateIn], in order. *)
Definition animated (cs : list Call) : list elem_id :=
  flat_map (fun c => match c with CallAnimateIn e => [e] | _ => [] end) cs.

(** What a pass keeps fixed: the measure of every element but its classes,
    and the cached viewport height. *)
Definition pass_frame (w w' : World) : Prop :=
  viewportBottom_of w' = viewportBottom_of w
  /\ forall x, jazzyOffset (elements w' !!! x) = jazzyOffset (elements w !!! x)
               /\ marker w' x = marker w x.

(** Every tracked element carries the marker attribute. *)
Definition tracked_marked (w : World) : Prop :=
  forall e, e ∈ tracked w -> is_Some (marker w e).

(** The elements on which a list of calls evaluates [isInViewport], and
    those it hands to [addElement], in order. *)
Definition evaluated (cs : list Call) : list elem_id :=
  flat_map (fun c => match c with CallIsInViewport e => [e] | _ => [] end) cs.

Definition added (cs : list Call) : list elem_id :=
  flat_map (fun c => match c with CallAddElement e => [e] | _ => [] end) cs.

(** The elements a batch of mutation records puts forward for
    registration, read off the document as it stands: each added element
    if it matches, then its matching descendants. *)
Definition candidates (els : gmap elem_id Element) (node : Node)
    : list elem_id :=
  match node with
  | ElementNode e _ =>
      (if matches_jazzy (els !!! e) then [e] else [])
      ++ querySelectorAll_jazzy els node
  | _ => []
  end.

Definition registrations (els : gmap elem_id Element)
    (mutationsList : list MutationRecord) : list elem_id :=
  flat_map (fun mutation => flat_map (candidates els) (addedNodes mutation))
           mutationsList.

(** A run in which the watcher never puts forward an element that is still
    tracked, nor the same element twice in one batch. *)
Definition fresh_event (w : World) (ev : Event) : Prop :=
  match ev with
  | Mutations mutationsList =>
      let regs := registrations (elements w) mutationsList in
      NoDup regs /\ forall e, e ∈ regs -> e ∉ tracked w
  | _ => True
  end.

Fixpoint fresh_run (w : World) (evs : list Event) : Prop :=
  match evs with
  | [] => True
  | ev :: evs' => fresh_event w ev /\ fresh_run (step w ev) evs'
  end.

(** *** Vocabulary for the properties of the strategies *)

(** Whether the constructor took the observer branch. *)
Definition observing (w : World) : bool :=
  match strategy (this w) with
  | Observing _ => true
  | Polling _ _ _ => false
  end.

(** The height the resize listener has seen last, [h0] if it has seen
    none. *)
Definition last_resize (h0 : Z) (evs : list Event) : Z :=
  fold_left (fun h ev => match ev with Resize h' => h' | _ => h end) evs h0.

(** A layout that measures an element the same whatever the state of the
    document: nothing moves when a class is added. *)
Definition static (layout : Layout) : Prop :=
  forall els els' e, layout els e = layout els' e.

(** An element that fails the test of [isInViewport] whatever the state
    of the document when it is measured. *)
Definition never_inViewport (layout : Layout) (w : World) (element : elem_id)
    : Prop :=
  forall els,
    le (add (Fin (layout els element))
            (ToNumber_property (jazzyOffset (elements w !!! element))))
       (ofZ (viewportBottom_of w)) = false.

(** What [attribute ? attribute : fallback] evaluates to, read off the
    attribute map. *)
Definition attribute_or (el : Element) (name : string) (fallback : Value)
    : Value :=
  match attributes el !! name with
  | Some s => if String.eqb s "" then fallback else VStr s
  | None => fallback
  end.

(** The document as the engine may have left it, for a page that started
    as [page]: every attribute as it was, and the classes as they were
    but for the completion class on the elements handed to [animateIn]. *)
Definition only_marked (page : gmap elem_id Element) (w : World) : Prop :=
  forall x,
    attributes (elements w !!! x) = attributes (page !!! x)
    /\ classList (elements w !!! x)
       = if bool_decide (animateIn_count x w = 0%nat)
         then classList (page !!! x)
         else classList (classList_add "animated-in" (page !!! x)).

(** In the observer branch the shared options object exists and keeps the
    thresholds of its literal; each observer that still observes watches
    one element, with these thresholds and the margin of that element's
    own resolved offset. *)
Definition observers_configured (w : World) : Prop :=
  (forall l, strategy (this w) = Observing l ->
     is_Some (heap w !! l) /\ threshold (heap w !!! l) = [ofZ 0; ofZ 1])
  /\ forall o obs e, observers w !! o = Some obs -> e ∈ io_observed obs ->
       io_observed obs = [e]
       /\ io_threshold obs = [ofZ 0; ofZ 1]
       /\ io_rootMargin obs
          = margin_of (parseInt (resolved_offset (this w) (elements w !!! e))).

(** Every element that has been handed to [addElement] holds the style
    and the three settings [addElement] resolves for it. *)
Definition settings_applied (w : World) : Prop :=
  forall e, e ∈ added (calls w) ->
    style (elements w !!! e) = style (registered (this w) (elements w !!! e))
    /\ jazzySpeed (elements w !!! e)
       = jazzySpeed (registered (this w) (elements w !!! e))
    /\ jazzyDelay (elements w !!! e)
       = jazzyDelay (registered (this w) (elements w !!! e))
    /\ jazzyOffset (elements w !!! e)
       = jazzyOffset (registered (this w) (elements w !!! e)).

(** *** The page script

    Besides the callbacks the platform delivers, the page script can call
    the public [addElement] on any element, and change the classes and
    the attributes of any element. The plugin does not observe attribute
    changes ([attributes: false]). *)
Definition set_classList (classes : list string) (el : Element) : Element :=
  {| attributes := attributes el;
     classList := classes;
     Dom.textContent := Dom.textContent el;
     style := style el;
     jazzySpeed := jazzySpeed el;
     jazzyDelay := jazzyDelay el;
     jazzyOffset := jazzyOffset el;
     Dom.options := Dom.options el |}.

Definition setAttribute (name value : string) (el : Element) : Element :=
  {| attributes := <[name := value]> (attributes el);
     classList := classList el;
     Dom.textContent := Dom.textContent el;
     style := style el;
     jazzySpeed := jazzySpeed el;
     jazzyDelay := jazzyDelay el;
     jazzyOffset := jazzyOffset el;
     Dom.options := Dom.options el |}.

Definition removeAttribute (name : string) (el : Element) : Element :=
  {| attributes := delete name (attributes el);
     classList := classList el;
     Dom.textContent := Dom.textContent el;
     style := style el;
     jazzySpeed := jazzySpeed el;
     jazzyDelay := jazzyDelay el;
     jazzyOffset := jazzyOffset el;
     Dom.options := Dom.options el |}.

Inductive Action :=
  | Platform (ev : Event)
  | PageAddElement (element : elem_id)
  | PageSetClasses (element : elem_id) (classes : list string)
  | PageSetAttribute (element : elem_id) (name value : string)
  | PageRemoveAttribute (element : elem_id) (name : string).

Definition act (w : World) (a : Action) : World :=
  match a with
  | Platform ev => step w ev
  | PageAddElement e => register w e
  | PageSetClasses e classes =>
      with_elements
        (fun els => <[e := set_classList classes (els !!! e)]> els) w
  | PageSetAttribute e name value =>
      with_elements
        (fun els => <[e := setAttribute name value (els !!! e)]> els) w
  | PageRemoveAttribute e name =>
      with_elements
        (fun els => <[e := removeAttribute name (els !!! e)]> els) w
  end.

Definition page_run (acts : list Action) (w : World) : World :=
  fold_left act acts w.

(** A run in which the page registers only elements that carry the
    marker, and does not strip the marker from a tracked element. *)
Definition keeps_marker (w : World) (a : Action) : Prop :=
  match a with
  | PageAddElement e => is_Some (marker w e)
  | PageRemoveAttribute e name =>
      name = "data-jazzy-scroll" -> e ∉ tracked w
  | _ => True
  end.

Fixpoint keeps_markers (w : World) (acts : list Action) : Prop :=
  match acts with
  | [] => True
  | a :: acts' => keeps_marker w a /\ keeps_markers (act w a) acts'
  end.

(** How often an element is tracked, and how often it has been handed to
    [addElement]. *)
Definition tracked_count (e : elem_id) (w : World) : nat :=
  count_occ Nat.eq_dec (tracked w) e.

Definition registered_count (e : elem_id) (w : World) : nat :=
  count_occ Nat.eq_dec (added (calls w)) e.

(** *** Where the embedding follows the platform

    Numbers are exact in the embedding and doubles in the program: the
    two agree on the sums and differences of whole numbers up to 2^52,
    and on their decimal notation. *)
Definition safe_integer (z : Z) : Prop := Z.abs z <= 2 ^ 52.

Definition in_safe_range (n : Number) : Prop :=
  match n with
  | Fin q => (- Z2Qc (2 ^ 52) <= q)%Qc /\ (q <= Z2Qc (2 ^ 52))%Qc
  | _ => False
  end.

(** A value whose conversion to a string is the same in the embedding and
    in the program: a string, or a whole number in the exact range.
    [NumberToString] has no exponent notation and prints a fraction from
    its exact quotient. *)
Definition printable (v : Value) : Prop :=
  match v with
  | VNum n => exists z, safe_integer z /\ n = ofZ z
  | _ => True
  end.

(** The constructor of IntersectionObserver rejects a margin whose length
    is not a number, as the margin built from an offset that did not parse
    is; [new_IntersectionObserver] leaves this check out. A statement that
    needs the constructor to return for an element carries this premise:
    the offset of the element resolves to a number in the exact range. *)
Definition margin_accepted (w : World) (e : elem_id) : Prop :=
  observing w = true ->
  in_safe_range (parseInt (resolved_offset (this w) (elements w !!! e))).

(** The style object keeps a transition time only if it is a valid CSS
    time, and gives it back in its own notation; [apply_style] stores the
    string as it is. The two agree on a whole number of milliseconds of at
    most six digits, given as a number or in decimal notation. *)
Definition milliseconds (v : Value) (z : Z) : Prop :=
  0 <= z < 1000000 /\ (v = VNum (ofZ z) \/ v = VStr (Z_to_string z)).

(** Every call of [animateIn] on an element has used up one registration
    of it: the calls and the entries still tracked together are at most
    the registrations. *)
Definition once_per_registration (w : World) : Prop :=
  forall e,
    (animateIn_count e w + tracked_count e w <= registered_count e w)%nat.

End Jazzy.

(** ** Concrete pages and runtimes, for the examples *)

Module Examples.
Import Js Dom Jazzy.

Definition element (attrs : list (string * string)) (text : string) : Element :=
  {| attributes := list_to_map attrs;
     classList := [];
     Dom.textContent := text;
     style := {| transitionDuration := ""; transitionDelay := "" |};
     jazzySpeed := None;
     jazzyDelay := None;
     jazzyOffset := None;
     Dom.options := None |}.

Definition desktop (observer : bool) : Window :=
  {| has_IntersectionObserver := observer;
     has_IntersectionObserverEntry := observer;
     has_intersectionRatio := observer;
     orientation := VUndefined;
     innerHeight := 600 |}.

(** A phone held upright: [window.orientation] is 0. *)
Definition phone (observer : bool) : Window :=
  {| has_IntersectionObserver := observer;
     has_IntersectionObserverEntry := observer;
     has_intersectionRatio := observer;
     orientation := VNum (ofZ 0);
     innerHeight := 600 |}.

Definition offset_50 : Settings :=
  {| settings_speed := VUndefined; settings_delay := VUndefined;
     settings_offset := Some (ofZ 50) |}.

(** The settings of the site's own bootstrap script. *)
Definition bootstrap : Settings :=
  {| settings_speed := VNum (ofZ 800); settings_delay := VNum (ofZ 0);
     settings_offset := Some (ofZ 0) |}.

(** One element that fades in, with an offset of its own. *)
Definition page_offset : gmap elem_id Element :=
  {[ 1%nat := element [("data-jazzy-scroll", "fade");
                       ("data-jazzy-scroll-offset", "120")] "" ]}.

(** One counter with a speed of its own. *)
Definition page_counter : gmap elem_id Element :=
  {[ 1%nat := element [("data-jazzy-scroll", "jazzy-count");
                       ("data-jazzy-scroll-speed", "1000")] "42" ]}.

(** One counter whose end is not a number. *)
Definition page_bad_counter : gmap elem_id Element :=
  {[ 1%nat := element [("data-jazzy-scroll", "jazzy-count");
                       ("data-jazzy-scroll-count-end", "many")] "42" ]}.

(** A section that holds a heading and a paragraph, all three marked; the
    first and the last carry offsets. *)
Definition page_section : gmap elem_id Element :=
  {[ 1%nat := element [("data-jazzy-scroll", "fade");
                       ("data-jazzy-scroll-offset", "50")] "";
     2%nat := element [("data-jazzy-scroll", "slide")] "Title";
     3%nat := element [("data-jazzy-scroll", "fade");
                       ("data-jazzy-scroll-offset", "-20")] "Text" ]}.

Definition one_element : list Node := [ElementNode 1%nat []].

Definition section_tree : Node :=
  ElementNode 1%nat [ElementNode 2%nat [TextNode "Title"];
                     ElementNode 3%nat [TextNode "Text"]].

(** Every element sits 100 pixels below the top of the viewport. *)
Definition layout_100 : Layout := fun _ _ => Q2Qc 100.

(** The page script moves an element that is still pending: the watcher
    reports it as added. *)
Definition moved (e : elem_id) : Event :=
  Mutations [ {| addedNodes := [ElementNode e []] |} ].

End Examples.

(** ** Further pages, for the examples *)

Module MoreExamples.
Import Js Dom Jazzy Examples.

(** One element whose offset is not a number. *)
Definition page_unparsable_offset : gmap elem_id Element :=
  {[ 1%nat := element [("data-jazzy-scroll", "fade");
                       ("data-jazzy-scroll-offset", "auto")] "" ]}.

(** One element whose animation is named after a price cut. *)
Definition page_discount : gmap elem_id Element :=
  {[ 1%nat := element [("data-jazzy-scroll", "discount-fade")] "30" ]}.

(** The page script strips the marker attribute from an element. *)
Definition stripped (e : elem_id) (w : World) : World :=
  with_elements
    (fun els => <[e := removeAttribute "data-jazzy-scroll" (els !!! e)]> els) w.

End MoreExamples.

(** ** The site's bootstrap script *)

Module Script.
Import Js Dom Jazzy.

(** The object literal passed to the constructor. *)
Definition settings : Settings :=
  {| settings_speed := VNum (ofZ 800);
     settings_delay := VNum (ofZ 0);
     settings_offset := Some (ofZ 0) |}.


End Script.


(** * Properties *)

Import Js Dom Jazzy.
Local Open Scope jazzy_scope.

(** ** Numbers *)

Example parseInt_0 : Js.parseInt (Js.VNum (Js.ofZ 0)) = Js.ofZ 0.
Proof. vm_compute. reflexivity. Qed.
Example parseInt_42px : Js.parseInt (Js.VStr " -42px") = Js.ofZ (-42).
Proof. vm_compute. reflexivity. Qed.

Example parseInt_hex : Js.parseInt (Js.VStr "0x1F") = Js.ofZ 31.
Proof. vm_compute. reflexivity. Qed.
Example parseInt_NaN : Js.parseInt (Js.VStr "many") = Js.NaN.
Proof. vm_compute. reflexivity. Qed.

Example StringToNumber_examples :
  map (fun s => Js.NumberToString (Js.StringToNumber s))
      ["800"; " 12.5 "; "1e3"; "1.5e-2"; "0x1F"; "-0x1F"; ""; "abc"; "5.";
       ".5"; "-Infinity"; "0b101"; "12px"; "1e"]
  = ["800"; "12.5"; "1000"; "0.015"; "31"; "NaN"; "0"; "NaN"; "5";
     "0.5"; "-Infinity"; "5"; "NaN"; "NaN"].
Proof. vm_compute. reflexivity. Qed.

Lemma Qc_ltb_spec (a b : Qc) : Qc_ltb a b = true <-> (a < b)%Qc.
Proof. unfold Qc_ltb. apply bool_decide_eq_true. Qed.

Lemma Qc_leb_spec (a b : Qc) : Qc_leb a b = true <-> (a ≤ b)%Qc.
Proof. unfold Qc_leb. apply bool_decide_eq_true. Qed.

Lemma Qc_eqb_spec (a b : Qc) : Qc_eqb a b = true <-> a = b.
Proof. unfold Qc_eqb. apply bool_decide_eq_true. Qed.

Lemma le_Fin (a b : Qc) : le (Fin a) (Fin b) = true <-> (a ≤ b)%Qc.
Proof. apply Qc_leb_spec. Qed.

Lemma lt_Fin (a b : Qc) : lt (Fin a) (Fin b) = true <-> (a < b)%Qc.
Proof. apply Qc_ltb_spec. Qed.

Lemma ofZ_inj (a b : Z) : ofZ a = ofZ b -> a = b.
Proof.
  unfold ofZ. intros H. injection H as H.
  apply Qred_eq_iff in H. unfold Qeq in H. simpl in H. lia.
Qed.

(** ** Closed forms of the plugin's functions *)

Ltac run_monad :=
  cbv [bind get modify ret throw record update_element
       with_jazzyElements set_viewportBottom set_frameRequested
       with_strategy with_elements with_heap with_observers with_counters];
  cbn [elements this heap observers counters calls
       speed delay offset strategy].

Lemma addElement_polling_eq e w :
  addElement_polling e w =
  Return tt
    {| elements := <[e := registered (this w) (elements w !!! e)]> (elements w);
       heap := heap w;
       observers := observers w;
       this := {| speed := speed (this w); delay := delay (this w);
                  offset := offset (this w);
                  strategy := match strategy (this w) with
                              | Observing o => Observing o
                              | Polling l vb b => Polling (l ++ [e]) vb b
                              end |};
       counters := counters w;
       calls := calls w ++ [CallAddElement e] |}.
Proof.
  unfold addElement_polling, resolve_settings, apply_style. run_monad.
  rewrite !lookup_total_insert_eq, !insert_insert_eq. reflexivity.
Qed.

Lemma addElement_observing_eq l e w :
  let el := set_options l (registered (this w) (elements w !!! e)) in
  let hp := alter (set_rootMargin
                     (margin_of (parseInt (resolved_offset (this w)
                                             (elements w !!! e))))) l (heap w) in
  addElement_observing l e w =
  Return tt
    {| elements := <[e := el]> (elements w);
       heap := hp;
       observers := observers w ++
                    [ {| io_rootMargin := rootMargin (hp !!! l);
                         io_threshold := threshold (hp !!! l);
                         io_observed := [e] |} ];
       this := this w;
       counters := counters w;
       calls := calls w ++ [CallAddElement e] |}.
Proof.
  unfold addElement_observing, resolve_settings, apply_style,
    new_IntersectionObserver. run_monad.
  rewrite !lookup_total_insert_eq. cbn [Dom.options set_options].
  run_monad.
  rewrite !lookup_total_insert_eq, !insert_insert_eq. reflexivity.
Qed.

Lemma addElement_eq e w :
  addElement e w =
  match strategy (this w) with
  | Observing l => addElement_observing l e w
  | Polling _ _ _ => addElement_polling e w
  end.
Proof. unfold addElement. run_monad. destruct (strategy (this w)); reflexivity. Qed.

Lemma animateIn_eq e w animationType :
  marker w e = Some animationType ->
  animateIn e w = Return tt (activated e animationType w).
Proof.
  unfold marker, animateIn, activated, counting_calls, counting_counters,
    counting, animateNumber, startNumber_of, endNumber_of.
  intros H. run_monad.
  unfold getAttribute at 1. rewrite H.
  destruct (includes animationType "count"); run_monad.
  - destruct (negb _ && negb _); run_monad;
      rewrite <- ?app_assoc, ?app_nil_r; reflexivity.
  - rewrite app_nil_r. reflexivity.
Qed.

Lemma animateIn_throws e w :
  marker w e = None ->
  animateIn e w =
  Throw (called (CallAnimateIn e) w).
Proof.
  unfold marker, animateIn. intros H. run_monad.
  unfold getAttribute. rewrite H. reflexivity.
Qed.

(** ** Registration *)

Lemma addElement_returns e w : addElement e w = Return tt (register w e).
Proof.
  unfold register. rewrite addElement_eq.
  destruct (strategy (this w)).
  - rewrite addElement_observing_eq. reflexivity.
  - rewrite addElement_polling_eq. reflexivity.
Qed.

Lemma for_each_app {A} (l1 l2 : list A) (body : A -> M unit) w :
  for_each (l1 ++ l2) body w = (for_each l1 body ;; for_each l2 body) w.
Proof.
  revert w. induction l1 as [|x l1 IH]; intros w; simpl.
  - reflexivity.
  - unfold bind in *. destruct (body x w); [apply IH | reflexivity].
Qed.

Lemma register_all_returns l w :
  for_each l addElement w = Return tt (register_all l w).
Proof.
  revert w. induction l as [|e l IH]; intros w; simpl.
  - reflexivity.
  - unfold bind. rewrite addElement_returns. apply IH.
Qed.

Lemma register_all_app l1 l2 w :
  register_all (l1 ++ l2) w = register_all l2 (register_all l1 w).
Proof. apply fold_left_app. Qed.

Lemma register_elements w e :
  elements (register w e) =
  <[e := match strategy (this w) with
         | Observing l => set_options l (registered (this w) (elements w !!! e))
         | Polling _ _ _ => registered (this w) (elements w !!! e)
         end]> (elements w).
Proof.
  unfold register. rewrite addElement_eq.
  destruct (strategy (this w)).
  - rewrite addElement_observing_eq. reflexivity.
  - rewrite addElement_polling_eq. reflexivity.
Qed.

Lemma register_calls w e : calls (register w e) = calls w ++ [CallAddElement e].
Proof.
  unfold register. rewrite addElement_eq.
  destruct (strategy (this w)).
  - rewrite addElement_observing_eq. reflexivity.
  - rewrite addElement_polling_eq. reflexivity.
Qed.

Lemma register_config w e :
  speed (this (register w e)) = speed (this w)
  /\ delay (this (register w e)) = delay (this w)
  /\ offset (this (register w e)) = offset (this w).
Proof.
  unfold register. rewrite addElement_eq.
  destruct (strategy (this w)).
  - rewrite addElement_observing_eq. auto.
  - rewrite addElement_polling_eq. auto.
Qed.

Lemma same_document_refl w : same_document w w.
Proof. intros x. auto. Qed.

Lemma same_document_trans w1 w2 w3 :
  same_document w1 w2 -> same_document w2 w3 -> same_document w1 w3.
Proof.
  intros H12 H23 x. destruct (H12 x) as (?&?&?), (H23 x) as (?&?&?).
  repeat split; congruence.
Qed.

Lemma register_same_document w e : same_document w (register w e).
Proof.
  intros x. rewrite register_elements.
  destruct (decide (e = x)) as [->|Hne].
  - rewrite lookup_total_insert_eq. destruct (strategy (this w)); auto.
  - rewrite lookup_total_insert_ne by done. auto.
Qed.

Lemma register_all_same_document l w : same_document w (register_all l w).
Proof.
  revert w. induction l as [|e l IH]; intros w; simpl.
  - apply same_document_refl.
  - eapply same_document_trans; [apply register_same_document | apply IH].
Qed.

Lemma same_document_matches w w' x :
  same_document w w' ->
  matches_jazzy (elements w' !!! x) = matches_jazzy (elements w !!! x).
Proof.
  intros H. destruct (H x) as (Ha & Hc & _).
  unfold matches_jazzy. rewrite Ha, Hc. reflexivity.
Qed.

Lemma same_document_query w w' node :
  same_document w w' ->
  querySelectorAll_jazzy (elements w') node
  = querySelectorAll_jazzy (elements w) node.
Proof.
  intros H. unfold querySelectorAll_jazzy.
  apply List.filter_ext. intros x. apply same_document_matches, H.
Qed.

Lemma same_document_candidates w w' node :
  same_document w w' ->
  candidates (elements w') node = candidates (elements w) node.
Proof.
  intros H. destruct node as [e cs| |]; try reflexivity.
  unfold candidates.
  rewrite (same_document_matches w w' e H), (same_document_query w w' _ H).
  reflexivity.
Qed.

Lemma query_length_bound els node :
  (length (querySelectorAll_jazzy els node) <= length (descendants node))%nat.
Proof. unfold querySelectorAll_jazzy. apply List.filter_length_le. Qed.

(** The loop over the descendants registers the matching descendants from
    index [y] on; the bound on its iterations is never what ends it. *)
Lemma descendants_loop_eq k node y w :
  (length (querySelectorAll_jazzy (elements w) node) <= k + y)%nat ->
  descendants_loop k node y w
  = Return tt (register_all (drop y (querySelectorAll_jazzy (elements w) node)) w).
Proof.
  revert y w. induction k as [|k IH]; intros y w Hlen.
  - simpl. rewrite drop_ge by (simpl in Hlen; lia). reflexivity.
  - simpl. run_monad. case_bool_decide as Hy.
    + destruct (lookup_lt_is_Some_2 _ _ Hy) as [e He].
      rewrite He. run_monad. rewrite addElement_returns.
      rewrite IH.
      * rewrite (same_document_query w (register w e) node
                   (register_same_document w e)).
        rewrite (drop_S _ _ _ He). reflexivity.
      * rewrite (same_document_query w (register w e) node
                   (register_same_document w e)). lia.
    + rewrite drop_ge by lia. reflexivity.
Qed.

Lemma added_node_eq node w :
  added_node node w
  = Return tt (register_all (candidates (elements w) node) w).
Proof.
  destruct node as [e cs| |]; try reflexivity.
  unfold added_node, candidates. simpl bool_decide.
  cbn [nodeType]. run_monad.
  rewrite bool_decide_eq_true_2 by reflexivity.
  destruct (matches_jazzy (elements w !!! e)).
  - rewrite addElement_returns.
    rewrite descendants_loop_eq
      by (pose proof (query_length_bound (elements (register w e))
                         (ElementNode e cs)); lia).
    rewrite (same_document_query w (register w e) _
               (register_same_document w e)).
    rewrite drop_0. reflexivity.
  - rewrite descendants_loop_eq
      by (pose proof (query_length_bound (elements w)
                         (ElementNode e cs)); lia).
    rewrite drop_0. reflexivity.
Qed.

Lemma added_nodes_eq nodes w :
  for_each nodes added_node w
  = Return tt (register_all (flat_map (candidates (elements w)) nodes) w).
Proof.
  revert w. induction nodes as [|n nodes IH]; intros w; simpl.
  - reflexivity.
  - unfold bind. rewrite added_node_eq, IH, register_all_app.
    f_equal. f_equal. apply flat_map_ext. intros node.
    apply same_document_candidates, register_all_same_document.
Qed.

Lemma mutation_callback_eq mutationsList w :
  mutation_callback mutationsList w
  = Return tt (register_all (registrations (elements w) mutationsList) w).
Proof.
  unfold mutation_callback, registrations.
  revert w. induction mutationsList as [|m ms IH]; intros w; simpl.
  - reflexivity.
  - unfold bind. rewrite added_nodes_eq, IH, register_all_app.
    f_equal. f_equal. apply flat_map_ext. intros mutation.
    apply flat_map_ext. intros node.
    apply same_document_candidates, register_all_same_document.
Qed.

(** ** Invariants of the event loop

    A property of worlds that survives each elementary effect of the
    callbacks survives every event. The parameter [fresh] switches on the
    assumption that the watcher only puts forward elements that are not
    tracked. *)

Lemma isInViewport_eq layout e w :
  isInViewport layout e w
  = Return (inViewport layout w e) (called (CallIsInViewport e) w).
Proof. reflexivity. Qed.

Lemma animateIn_throws_called e w :
  marker w e = None -> animateIn e w = Throw (called (CallAnimateIn e) w).
Proof. apply animateIn_throws. Qed.

Lemma constructed_eq window document page settings :
  constructed window document page settings
  = (if supportsIntersectionObserver window then id
     else set_frameRequested true)
      (register_all (document_querySelectorAll_jazzy page document)
                    (initial window page settings)).
Proof.
  unfold constructed, JazzyScroll, initial.
  destruct (supportsIntersectionObserver window).
  - rewrite register_all_returns. reflexivity.
  - unfold bind. rewrite register_all_returns. reflexivity.
Qed.

Lemma JazzyScroll_returns window document page settings :
  JazzyScroll window document page settings
  = Return tt (constructed window document page settings).
Proof.
  unfold constructed, JazzyScroll.
  destruct (supportsIntersectionObserver window).
  - rewrite register_all_returns. reflexivity.
  - unfold bind. rewrite register_all_returns. reflexivity.
Qed.

Lemma document_query_match page document e :
  e ∈ document_querySelectorAll_jazzy page document ->
  matches_jazzy (page !!! e) = true.
Proof.
  unfold document_querySelectorAll_jazzy. intros H.
  apply list_elem_of_In, List.filter_In in H. apply H.
Qed.

Lemma document_query_NoDup page document :
  NoDup (flat_map inclusive_descendants document) ->
  NoDup (document_querySelectorAll_jazzy page document).
Proof.
  intros H. unfold document_querySelectorAll_jazzy.
  apply NoDup_ListNoDup, List.NoDup_filter, NoDup_ListNoDup, H.
Qed.

(** A frame of a counter writes the text of one element and nothing else
    of what the strategies read. *)
Lemma counted_keeps counter timestamp w :
  this (counted counter timestamp w) = this w
  /\ observers (counted counter timestamp w) = observers w
  /\ heap (counted counter timestamp w) = heap w
  /\ calls (counted counter timestamp w) = calls w
  /\ forall x,
       attributes (elements (counted counter timestamp w) !!! x)
       = attributes (elements w !!! x)
       /\ classList (elements (counted counter timestamp w) !!! x)
          = classList (elements w !!! x)
       /\ jazzyOffset (elements (counted counter timestamp w) !!! x)
          = jazzyOffset (elements w !!! x)
       /\ Dom.options (elements (counted counter timestamp w) !!! x)
          = Dom.options (elements w !!! x).
Proof.
  unfold counted, counter_step. run_monad.
  destruct (counters w !! counter) as [c|]; run_monad; cbn [world_of].
  - repeat split; try reflexivity; cbn [elements];
      (destruct (decide (counter_element c = x)) as [->|Hne];
       [rewrite lookup_total_insert_eq | rewrite lookup_total_insert_ne by done];
       reflexivity).
  - repeat split; reflexivity.
Qed.

Lemma tracked_counted counter timestamp w :
  tracked (counted counter timestamp w) = tracked w.
Proof.
  unfold tracked.
  destruct (counted_keeps counter timestamp w) as (-> & -> & _). reflexivity.
Qed.

Lemma marker_counted counter timestamp w x :
  marker (counted counter timestamp w) x = marker w x.
Proof.
  unfold marker.
  destruct (counted_keeps counter timestamp w) as (_ & _ & _ & _ & H).
  destruct (H x) as (-> & _). reflexivity.
Qed.

Section Invariant.
Variable P : World -> Prop.
Variable fresh : Prop.

Hypothesis P_register : forall w e,
  well_formed w -> P w -> matches_jazzy (elements w !!! e) = true ->
  (fresh -> e ∉ tracked w) ->
  P (register w e).

Hypothesis P_called : forall w e,
  well_formed w -> P w -> e ∈ tracked w -> P (called (CallIsInViewport e) w).

Hypothesis P_activated_polling : forall w i e ty,
  well_formed w -> P w ->
  jazzyElements_of w !! i = Some e -> marker w e = Some ty ->
  P (with_jazzyElements (splice1 i) (activated e ty w)).

Hypothesis P_throws : forall w e,
  well_formed w -> P w -> e ∈ tracked w -> marker w e = None ->
  P (called (CallAnimateIn e) w).

Hypothesis P_activated_observing : forall w l o obs e ty,
  well_formed w -> P w -> strategy (this w) = Observing l ->
  observers w !! o = Some obs -> e ∈ io_observed obs ->
  marker w e = Some ty ->
  P (disconnected o (activated e ty w)).

Hypothesis P_counted : forall w counter timestamp,
  well_formed w -> P w -> P (counted counter timestamp w).

Hypothesis P_frameRequested : forall w b,
  well_formed w -> P w -> P (set_frameRequested b w).

Hypothesis P_viewportBottom : forall w vb,
  well_formed w -> P w -> P (set_viewportBottom vb w).

Let Inv (w : World) : Prop := well_formed w /\ P w.

Lemma well_formed_register w e : well_formed w -> well_formed (register w e).
Proof.
  unfold well_formed, register. rewrite addElement_eq.
  destruct (strategy (this w)) eqn:Hs.
  - rewrite addElement_observing_eq. cbn. rewrite Hs. done.
  - rewrite addElement_polling_eq. cbn. rewrite Hs. done.
Qed.

Lemma tracked_register w e :
  well_formed w -> tracked (register w e) = tracked w ++ [e].
Proof.
  unfold well_formed, tracked, register. rewrite addElement_eq.
  destruct (strategy (this w)) eqn:Hs; intros Hwf.
  - rewrite addElement_observing_eq. cbn. rewrite Hs.
    rewrite flat_map_app. simpl. reflexivity.
  - rewrite addElement_polling_eq. cbn. rewrite Hs. reflexivity.
Qed.

Lemma invariant_register_all l w :
  Inv w ->
  (forall e, e ∈ l -> matches_jazzy (elements w !!! e) = true) ->
  (fresh -> NoDup l /\ forall e, e ∈ l -> e ∉ tracked w) ->
  Inv (register_all l w).
Proof.
  revert w. induction l as [|e l IH]; intros w [Hwf HP] Hm Hf; simpl.
  - split; assumption.
  - apply IH.
    + split; [apply well_formed_register, Hwf|].
      apply P_register; try assumption.
      * apply Hm. left.
      * intros F. destruct (Hf F) as [_ Hnt]. apply Hnt. left.
    + intros x Hx.
      rewrite (same_document_matches w _ x (register_same_document w e)).
      apply Hm. right. exact Hx.
    + intros F. destruct (Hf F) as [Hnd Hnt].
      apply list.NoDup_cons in Hnd as [Hne Hnd]. split; [exact Hnd|].
      intros x Hx. rewrite tracked_register by exact Hwf.
      rewrite elem_of_app, list_elem_of_singleton.
      intros [Hin | ->].
      * apply (Hnt x); [right; exact Hx | exact Hin].
      * apply Hne, Hx.
Qed.

Lemma candidates_match els node e :
  e ∈ candidates els node -> matches_jazzy (els !!! e) = true.
Proof.
  destruct node as [x cs| |]; simpl; try (intros H; inversion H; fail).
  rewrite elem_of_app. intros [H|H].
  - destruct (matches_jazzy (els !!! x)) eqn:Hx.
    + apply list_elem_of_singleton in H. subst. exact Hx.
    + inversion H.
  - unfold querySelectorAll_jazzy in H.
    apply list_elem_of_In, List.filter_In in H. apply H.
Qed.

Lemma registrations_match els ms e :
  e ∈ registrations els ms -> matches_jazzy (els !!! e) = true.
Proof.
  unfold registrations. intros H.
  apply list_elem_of_In, in_flat_map in H as (m & _ & H).
  apply in_flat_map in H as (node & _ & H).
  apply (candidates_match els node), list_elem_of_In, H.
Qed.


Lemma invariant_init_body layout i w : Inv w -> Inv (world_of (init_body layout i w)).
Proof.
  intros [Hwf HP]. unfold init_body. run_monad.
  destruct (jazzyElements_of w !! i) as [e|] eqn:Hi; [|split; assumption].
  assert (Hpoll : exists l vb b, strategy (this w) = Polling l vb b).
  { unfold jazzyElements_of in Hi.
    destruct (strategy (this w)); [inversion Hi | eauto]. }
  destruct Hpoll as (l & vb & b & Hs).
  assert (Htr : e ∈ tracked w).
  { unfold tracked. unfold jazzyElements_of in Hi. rewrite Hs in *.
    eapply list_elem_of_lookup_2, Hi. }
  pose proof (P_called w e Hwf HP Htr) as HP1.
  assert (Hwf1 : well_formed (called (CallIsInViewport e) w)) by exact Hwf.
  rewrite isInViewport_eq.
  destruct (inViewport layout w e); [|split; assumption].
  destruct (marker (called (CallIsInViewport e) w) e) as [ty|] eqn:Hm.
  - rewrite (animateIn_eq _ _ _ Hm). run_monad.
    split.
    + unfold well_formed in *. cbn. cbn in Hwf1. rewrite Hs in *. exact Hwf1.
    + apply (P_activated_polling _ i e ty Hwf1 HP1 Hi Hm).
  - rewrite (animateIn_throws_called _ _ Hm). cbn [world_of].
    split; [exact Hwf|].
    apply (P_throws _ e Hwf1 HP1 Htr Hm).
Qed.

Lemma invariant_init_loop layout k w : Inv w -> Inv (world_of (init_loop layout k w)).
Proof.
  revert w. induction k as [|i IH]; intros w HQ; simpl.
  - exact HQ.
  - unfold bind. pose proof (invariant_init_body layout i w HQ) as Hb.
    destruct (init_body layout i w); [apply IH, Hb | exact Hb].
Qed.

Lemma invariant_set_frameRequested b w : Inv w -> Inv (set_frameRequested b w).
Proof.
  intros [Hwf HP]. split; [|apply P_frameRequested; assumption].
  unfold well_formed in *. cbn. destruct (strategy (this w)); exact Hwf.
Qed.

Lemma invariant_set_viewportBottom vb w : Inv w -> Inv (set_viewportBottom vb w).
Proof.
  intros [Hwf HP]. split; [|apply P_viewportBottom; assumption].
  unfold well_formed in *. cbn. destruct (strategy (this w)); exact Hwf.
Qed.

Lemma invariant_init layout w : Inv w -> Inv (world_of (init layout w)).
Proof.
  intros HQ. unfold init. run_monad.
  pose proof (invariant_init_loop layout (length (jazzyElements_of w)) w HQ) as Hl.
  destruct (init_loop layout _ w); [|exact Hl].
  apply (invariant_set_frameRequested true), Hl.
Qed.

Lemma invariant_intersection o entries w :
  Inv w -> Inv (world_of (handle (Intersection o entries) w)).
Proof.
  intros [Hwf HP]. unfold handle. run_monad.
  destruct (deliverable w o entries) eqn:Hd; [|split; assumption].
  unfold deliverable in Hd.
  destruct (observers w !! o) as [obs|] eqn:Ho; [|discriminate].
  apply andb_true_iff in Hd as [Hne Hall].
  unfold intersection_callback.
  destruct entries as [|entry entries]; [discriminate|]. cbn [lookup list_lookup].
  simpl in Hall. apply andb_true_iff in Hall as [Hin _].
  apply bool_decide_eq_true in Hin.
  destruct (strategy (this w)) as [l|l vb b] eqn:Hs.
  2:{ unfold well_formed in Hwf. rewrite Hs in Hwf. rewrite Hwf in Ho.
      discriminate. }
  destruct (_ || _); [|split; assumption].
  assert (Htr : target entry ∈ tracked w).
  { unfold tracked. rewrite Hs. apply list_elem_of_In, in_flat_map.
    exists obs. split; [eapply list_elem_of_In, list_elem_of_lookup_2, Ho
                      | apply list_elem_of_In, Hin]. }
  run_monad.
  destruct (marker w (target entry)) as [ty|] eqn:Hm.
  - rewrite (animateIn_eq _ _ _ Hm).
    split.
    + unfold well_formed. cbn. rewrite Hs. done.
    + apply (P_activated_observing w l o obs (target entry) ty); assumption.
  - rewrite (animateIn_throws_called _ _ Hm). cbn [world_of].
    split; [exact Hwf|]. apply P_throws; assumption.
Qed.

Lemma invariant_step w ev : Inv w -> (fresh -> fresh_event w ev) -> Inv (step w ev).
Proof.
  intros HQ Hf. unfold step. destruct ev as [layout|h|counter t|o entries|ms].
  - unfold handle. run_monad.
    destruct (frameRequested_of w); [|exact HQ].
    apply invariant_init, (invariant_set_frameRequested false), HQ.
  - unfold handle, on_resize. run_monad.
    destruct (strategy (this w)); [exact HQ|].
    run_monad. case_bool_decide; [|exact HQ].
    apply invariant_set_viewportBottom, HQ.
  - unfold handle. run_monad.
    destruct (counter_queued w counter); [|exact HQ].
    fold (counted counter t w). destruct HQ as [Hwf HP]. split.
    + unfold well_formed in *.
      destruct (counted_keeps counter t w) as (-> & -> & _). exact Hwf.
    + apply P_counted; assumption.
  - apply invariant_intersection, HQ.
  - unfold handle. rewrite mutation_callback_eq. cbn [world_of].
    apply invariant_register_all; [exact HQ| |].
    + intros e. apply registrations_match.
    + intros F. apply (Hf F).
Qed.

Lemma invariant_run evs w :
  Inv w -> (fresh -> fresh_run w evs) -> Inv (run evs w).
Proof.
  revert w. induction evs as [|ev evs IH]; intros w HQ Hf; simpl.
  - exact HQ.
  - apply IH.
    + apply invariant_step; [exact HQ|]. intros F. apply (Hf F).
    + intros F. apply (Hf F).
Qed.

Lemma invariant_constructed window document page settings :
  P (initial window page settings) ->
  (fresh -> NoDup (flat_map inclusive_descendants document)) ->
  Inv (constructed window document page settings).
Proof.
  intros HP Hf. rewrite constructed_eq.
  assert (HQ : Inv (register_all
                    (document_querySelectorAll_jazzy page document)
                    (initial window page settings))).
  { apply invariant_register_all.
    - split; [|exact HP]. unfold well_formed, initial. cbn.
      destruct (supportsIntersectionObserver window); done.
    - intros e. apply document_query_match.
    - intros F. split; [apply document_query_NoDup, Hf, F|].
      intros e _. unfold tracked, initial. cbn.
      destruct (supportsIntersectionObserver window); cbn; apply not_elem_of_nil. }
  destruct (supportsIntersectionObserver window); [exact HQ|].
  apply invariant_set_frameRequested, HQ.
Qed.

Theorem invariant_reachable window document page settings evs :
  P (initial window page settings) ->
  (fresh -> NoDup (flat_map inclusive_descendants document)
            /\ fresh_run (constructed window document page settings) evs) ->
  P (run evs (constructed window document page settings)).
Proof.
  intros HP Hf. apply invariant_run.
  - apply invariant_constructed; [exact HP|]. intros F. apply (Hf F).
  - intros F. apply (Hf F).
Qed.

End Invariant.

(** ** Counting the calls of [animateIn] *)

Lemma animateIn_count_called c e w :
  animateIn_count e (called c w)
  = (animateIn_count e w + if is_animateIn e c then 1 else 0)%nat.
Proof.
  unfold animateIn_count, called. cbn [calls].
  rewrite List.filter_app, length_app. simpl.
  destruct (is_animateIn e c); reflexivity.
Qed.

Lemma animateIn_count_register e w x :
  animateIn_count e (register w x) = animateIn_count e w.
Proof.
  unfold animateIn_count. rewrite register_calls.
  rewrite List.filter_app, length_app. simpl. lia.
Qed.

Lemma counting_calls_no_animateIn _this x el ty e :
  List.filter (is_animateIn e) (counting_calls _this x el ty) = [].
Proof.
  unfold counting_calls. destruct (counting el ty) as [[? ?]|]; reflexivity.
Qed.

Lemma animateIn_count_activated e x ty w :
  animateIn_count e (activated x ty w)
  = (animateIn_count e w + if bool_decide (x = e) then 1 else 0)%nat.
Proof.
  unfold animateIn_count, activated. cbn [calls].
  rewrite List.filter_app, length_app. cbn [List.filter is_animateIn].
  rewrite counting_calls_no_animateIn.
  destruct (bool_decide (x = e)); reflexivity.
Qed.

Lemma marker_activated x ty w e : marker (activated x ty w) e = marker w e.
Proof.
  unfold marker, activated. cbn [elements].
  destruct (decide (x = e)) as [->|Hne].
  - rewrite lookup_total_insert_eq. reflexivity.
  - rewrite lookup_total_insert_ne by done. reflexivity.
Qed.

Lemma classList_activated x ty w e :
  "animated-in" ∈ classList (elements w !!! e) \/ x = e ->
  "animated-in" ∈ classList (elements (activated x ty w) !!! e).
Proof.
  unfold activated. cbn [elements].
  destruct (decide (x = e)) as [->|Hne].
  - intros _. rewrite lookup_total_insert_eq. unfold classList_add. cbn.
    case_bool_decide as Hin; [exact Hin|].
    apply elem_of_app. right. apply list_elem_of_singleton. reflexivity.
  - rewrite lookup_total_insert_ne by done. intros [H|H]; [exact H|done].
Qed.

Lemma matches_marker el :
  matches_jazzy el = true ->
  is_Some (attributes el !! "data-jazzy-scroll")
  /\ "animated-in" ∉ classList el.
Proof.
  unfold matches_jazzy. intros H. apply andb_true_iff in H as [Ha Hc].
  apply bool_decide_eq_true in Ha. apply negb_true_iff in Hc.
  apply bool_decide_eq_false in Hc. auto.
Qed.

Lemma marker_register w x e : marker (register w x) e = marker w e.
Proof.
  unfold marker. destruct (register_same_document w x e) as (-> & _). reflexivity.
Qed.

(** The targets that remain once an observer has been disconnected. *)
Lemma tracked_disconnected_sublist o (os : list IntersectionObserver) :
  flat_map io_observed
    (alter (fun ob => {| io_rootMargin := io_rootMargin ob;
                         io_threshold := io_threshold ob;
                         io_observed := [] |}) o os)
  `sublist_of` flat_map io_observed os.
Proof.
  revert o. induction os as [|ob os IH]; intros o; [done|].
  destruct o as [|o]; simpl.
  - apply sublist_inserts_l. done.
  - apply sublist_app; [done | apply IH].
Qed.

Lemma tracked_disconnected_not_in o (os : list IntersectionObserver) ob e :
  NoDup (flat_map io_observed os) ->
  os !! o = Some ob -> e ∈ io_observed ob ->
  e ∉ flat_map io_observed
        (alter (fun ob => {| io_rootMargin := io_rootMargin ob;
                             io_threshold := io_threshold ob;
                             io_observed := [] |}) o os).
Proof.
  revert o. induction os as [|ob' os IH]; intros o Hnd Ho He; [done|].
  simpl in Hnd. apply list.NoDup_app in Hnd as (Hnd1 & Hdisj & Hnd2).
  destruct o as [|o]; simpl in *.
  - injection Ho as ->. apply Hdisj, He.
  - intros Hin. apply elem_of_app in Hin as [Hin|Hin].
    + apply (Hdisj e Hin).
      apply list_elem_of_In, in_flat_map. exists ob.
      split; [eapply list_elem_of_In, list_elem_of_lookup_2, Ho
             | apply list_elem_of_In, He].
    + apply (IH o Hnd2 Ho He Hin).
Qed.

Lemma splice1_sublist {A} i (l : list A) : splice1 i l `sublist_of` l.
Proof.
  unfold splice1. rewrite <- (take_drop i l) at 3.
  apply sublist_app; [done|].
  replace (drop (S i) l) with (drop 1 (drop i l))
    by (rewrite drop_drop; f_equal; lia).
  apply sublist_drop.
Qed.

Lemma splice1_not_in {A} i (l : list A) e :
  NoDup l -> l !! i = Some e -> e ∉ splice1 i l.
Proof.
  intros Hnd Hi. rewrite <- (take_drop_middle l i e Hi) in Hnd.
  apply list.NoDup_app in Hnd as (_ & Hdisj & Hnd).
  apply list.NoDup_cons in Hnd as [Hne _].
  unfold splice1. intros Hin. apply elem_of_app in Hin as [Hin|Hin].
  - apply (Hdisj e Hin). left.
  - apply Hne, Hin.
Qed.

(** *** The invariant behind at-most-once activation *)

Lemma at_most_once_register w e :
  well_formed w -> at_most_once w ->
  matches_jazzy (elements w !!! e) = true ->
  (True -> e ∉ tracked w) ->
  at_most_once (register w e).
Proof.
  intros Hwf (Hnd & Htr & Hle & Hcl) Hm Hfresh.
  specialize (Hfresh I).
  apply matches_marker in Hm as [Hmk Hncl].
  unfold at_most_once. rewrite (tracked_register w e Hwf).
  repeat split.
  - apply list.NoDup_app. repeat split; [exact Hnd| |apply NoDup_singleton].
    intros x Hx Hx'. apply list_elem_of_singleton in Hx'. subst. done.
  - rewrite animateIn_count_register.
    apply elem_of_app in H as [H|H]; [apply Htr, H|].
    apply list_elem_of_singleton in H. subst.
    destruct (animateIn_count e w) eqn:Hc; [reflexivity|].
    exfalso. apply Hncl, Hcl. lia.
  - rewrite marker_register.
    apply elem_of_app in H as [H|H]; [apply Htr, H|].
    apply list_elem_of_singleton in H. subst. exact Hmk.
  - intros x. rewrite animateIn_count_register. apply Hle.
  - intros x. rewrite animateIn_count_register. intros Hx.
    destruct (register_same_document w e x) as (_ & -> & _). apply Hcl, Hx.
Qed.

Lemma at_most_once_called w e :
  at_most_once w -> at_most_once (called (CallIsInViewport e) w).
Proof.
  intros (Hnd & Htr & Hle & Hcl). unfold at_most_once.
  repeat split; try assumption.
  - rewrite animateIn_count_called. simpl.
    destruct (Htr e0 H) as [-> _]. reflexivity.
  - apply (Htr e0 H).
  - intros x. rewrite animateIn_count_called. simpl.
    rewrite Nat.add_0_r. apply Hle.
  - intros x. rewrite animateIn_count_called. simpl.
    rewrite Nat.add_0_r. apply Hcl.
Qed.


Lemma at_most_once_activated w e ty (kept : list elem_id) w' :
  at_most_once w ->
  e ∈ tracked w ->
  tracked w' = kept -> kept `sublist_of` tracked w -> e ∉ kept ->
  (forall x, animateIn_count x w' = animateIn_count x (activated e ty w)) ->
  (forall x, elements w' !!! x = elements (activated e ty w) !!! x) ->
  at_most_once w'.
Proof.
  intros (Hnd & Htr & Hle & Hcl) He Hk Hsub Hnot Hcount Hels.
  unfold at_most_once. rewrite Hk.
  split; [eapply sublist_NoDup; eassumption|].
  split; [|split].
  - intros x Hx.
    assert (Hx' : x ∈ tracked w) by (eapply elem_of_sublist; eassumption).
    assert (Hne : e <> x) by (intros ->; done).
    split.
    + rewrite Hcount, animateIn_count_activated.
      rewrite bool_decide_eq_false_2 by exact Hne.
      destruct (Htr x Hx') as [-> _]. reflexivity.
    + unfold marker. rewrite Hels. fold (marker (activated e ty w) x).
      rewrite marker_activated. apply (Htr x Hx').
  - intros x. rewrite Hcount, animateIn_count_activated.
    case_bool_decide as Hx.
    + subst x. destruct (Htr e He) as [-> _]. simpl. lia.
    + rewrite Nat.add_0_r. apply Hle.
  - intros x. rewrite Hcount, animateIn_count_activated, Hels. intros Hx.
    apply classList_activated.
    case_bool_decide as Hex; [right; exact Hex|].
    left. apply Hcl. lia.
Qed.

Lemma at_most_once_activated_polling w i e ty :
  well_formed w -> at_most_once w ->
  jazzyElements_of w !! i = Some e -> marker w e = Some ty ->
  at_most_once (with_jazzyElements (splice1 i) (activated e ty w)).
Proof.
  intros _ Hinv Hi _.
  assert (Hs : exists l vb b, strategy (this w) = Polling l vb b /\ l !! i = Some e).
  { unfold jazzyElements_of in Hi.
    destruct (strategy (this w)) as [|l vb b]; [inversion Hi | eauto 6]. }
  destruct Hs as (l & vb & b & Hs & Hl).
  assert (Htl : tracked w = l) by (unfold tracked; rewrite Hs; reflexivity).
  apply (at_most_once_activated w e ty (splice1 i l)); try done.
  - rewrite Htl. eapply list_elem_of_lookup_2, Hl.
  - unfold tracked. cbn. rewrite Hs. reflexivity.
  - rewrite Htl. apply splice1_sublist.
  - apply splice1_not_in; [|exact Hl]. rewrite <- Htl. apply Hinv.
Qed.

Lemma at_most_once_throws w e :
  well_formed w -> at_most_once w -> e ∈ tracked w -> marker w e = None ->
  at_most_once (called (CallAnimateIn e) w).
Proof.
  intros _ (_ & Htr & _) He Hm. destruct (Htr e He) as [_ [ty Hty]].
  congruence.
Qed.

Lemma at_most_once_activated_observing w l o obs e ty :
  well_formed w -> at_most_once w -> strategy (this w) = Observing l ->
  observers w !! o = Some obs -> e ∈ io_observed obs ->
  marker w e = Some ty ->
  at_most_once (disconnected o (activated e ty w)).
Proof.
  intros _ Hinv Hs Ho He _.
  assert (Htl : tracked w = flat_map io_observed (observers w))
    by (unfold tracked; rewrite Hs; reflexivity).
  apply (at_most_once_activated w e ty
           (flat_map io_observed
              (alter (fun ob => {| io_rootMargin := io_rootMargin ob;
                                   io_threshold := io_threshold ob;
                                   io_observed := [] |}) o (observers w))));
    try done.
  - rewrite Htl. apply list_elem_of_In, in_flat_map. exists obs.
    split; [eapply list_elem_of_In, list_elem_of_lookup_2, Ho
           | apply list_elem_of_In, He].
  - unfold tracked, disconnected, disconnect. cbn. rewrite Hs. reflexivity.
  - rewrite Htl. apply tracked_disconnected_sublist.
  - apply (tracked_disconnected_not_in o _ obs e); [|exact Ho|exact He].
    rewrite <- Htl. apply Hinv.
Qed.

Lemma at_most_once_with_strategy f w :
  (forall s, match s, f s with
             | Observing _, Observing _ => True
             | Polling l _ _, Polling l' _ _ => l' = l
             | _, _ => False
             end) ->
  at_most_once w -> at_most_once (with_strategy f w).
Proof.
  intros Hf Hinv.
  assert (Htr : tracked (with_strategy f w) = tracked w).
  { unfold tracked. cbn. specialize (Hf (strategy (this w))).
    destruct (strategy (this w)), (f _); try done. }
  unfold at_most_once. rewrite Htr. exact Hinv.
Qed.

Lemma at_most_once_frameRequested w b :
  well_formed w -> at_most_once w -> at_most_once (set_frameRequested b w).
Proof.
  intros _. apply at_most_once_with_strategy. intros [|]; done.
Qed.

Lemma at_most_once_viewportBottom w vb :
  well_formed w -> at_most_once w -> at_most_once (set_viewportBottom vb w).
Proof.
  intros _. apply at_most_once_with_strategy. intros [|]; done.
Qed.

Lemma at_most_once_counted w counter timestamp :
  well_formed w -> at_most_once w -> at_most_once (counted counter timestamp w).
Proof.
  intros _ (Hnd & Htr & Hle & Hcl).
  destruct (counted_keeps counter timestamp w) as (_ & _ & _ & Hcalls & Hels).
  unfold at_most_once, animateIn_count.
  rewrite tracked_counted, Hcalls.
  split; [exact Hnd|]. split; [|split; [exact Hle|]].
  - intros e He. rewrite marker_counted. apply (Htr e He).
  - intros e He. destruct (Hels e) as (_ & -> & _). apply Hcl, He.
Qed.

Lemma at_most_once_initial window page settings :
  at_most_once (initial window page settings).
Proof.
  unfold at_most_once, tracked, animateIn_count, initial. cbn.
  destruct (supportsIntersectionObserver window); cbn;
    (split; [apply NoDup_nil_2|]);
    (split; [intros e He; inversion He|]);
    (split; [intros; lia | intros; lia]).
Qed.

(** The invariant holds in every world reached by a run in which no tracked
    element is put forward again. *)
Lemma at_most_once_reachable window document page settings evs :
  NoDup (flat_map inclusive_descendants document) ->
  fresh_run (constructed window document page settings) evs ->
  at_most_once (run evs (constructed window document page settings)).
Proof.
  intros Hdoc Hrun.
  apply (invariant_reachable at_most_once True).
  - intros w e Hwf. apply at_most_once_register, Hwf.
  - intros w e _ Hinv _. apply at_most_once_called, Hinv.
  - apply at_most_once_activated_polling.
  - apply at_most_once_throws.
  - apply at_most_once_activated_observing.
  - apply at_most_once_counted.
  - apply at_most_once_frameRequested.
  - apply at_most_once_viewportBottom.
  - apply at_most_once_initial.
  - intros _. split; assumption.
Qed.

(** *** The invariant behind the resolved offsets *)

Lemma resolved_offset_ext _this _this' el el' :
  offset _this' = offset _this -> attributes el' = attributes el ->
  resolved_offset _this' el' = resolved_offset _this el.
Proof.
  intros Ho Ha. unfold resolved_offset, getAttribute. rewrite Ho, Ha. reflexivity.
Qed.

Lemma offsets_resolved_shrink c w w' :
  offsets_resolved c w ->
  offset (this w') = offset (this w) ->
  (forall x, x ∈ tracked w' -> x ∈ tracked w) ->
  (forall x, jazzyOffset (elements w' !!! x) = jazzyOffset (elements w !!! x)
             /\ attributes (elements w' !!! x) = attributes (elements w !!! x)) ->
  offsets_resolved c w'.
Proof.
  intros [Hc Hres] Ho Htr Hels. split; [congruence|].
  intros x Hx. destruct (Hels x) as [Hj Ha].
  rewrite Hj, (Hres x (Htr x Hx)). f_equal. f_equal. symmetry.
  apply resolved_offset_ext; assumption.
Qed.

Lemma activated_keeps x ty w e :
  jazzyOffset (elements (activated x ty w) !!! e) = jazzyOffset (elements w !!! e)
  /\ attributes (elements (activated x ty w) !!! e) = attributes (elements w !!! e).
Proof.
  unfold activated. cbn [elements].
  destruct (decide (x = e)) as [->|Hne].
  - rewrite lookup_total_insert_eq. split; reflexivity.
  - rewrite lookup_total_insert_ne by done. split; reflexivity.
Qed.

Lemma offsets_resolved_register c w e :
  well_formed w -> offsets_resolved c w -> offsets_resolved c (register w e).
Proof.
  intros Hwf [Hc Hres].
  destruct (register_config w e) as (_ & _ & Ho).
  split; [congruence|].
  intros x Hx. rewrite (tracked_register w e Hwf) in Hx.
  rewrite register_elements.
  destruct (decide (e = x)) as [->|Hne].
  - rewrite lookup_total_insert_eq.
    destruct (strategy (this w)); cbn [jazzyOffset set_options registered];
      f_equal; f_equal; symmetry; apply resolved_offset_ext; done.
  - rewrite lookup_total_insert_ne by done.
    apply elem_of_app in Hx as [Hx|Hx];
      [|apply list_elem_of_singleton in Hx; congruence].
    rewrite (Hres x Hx). f_equal. f_equal. symmetry.
    apply resolved_offset_ext; done.
Qed.

Lemma offsets_resolved_reachable window document page settings evs :
  offsets_resolved (this_offset window settings)
    (run evs (constructed window document page settings)).
Proof.
  apply (invariant_reachable (offsets_resolved (this_offset window settings)) False).
  - intros w e Hwf Hinv _ _. apply offsets_resolved_register; assumption.
  - intros w e _ Hinv _.
    apply (offsets_resolved_shrink _ w); [exact Hinv|done|done|done].
  - intros w i e ty _ Hinv Hi _.
    apply (offsets_resolved_shrink _ w); [exact Hinv|done| |].
    + unfold tracked. cbn. unfold jazzyElements_of in Hi.
      destruct (strategy (this w)); [done|].
      intros x Hx. eapply elem_of_sublist; [exact Hx | apply splice1_sublist].
    + intros x. apply activated_keeps.
  - intros w e _ Hinv _ _.
    apply (offsets_resolved_shrink _ w); [exact Hinv|done|done|done].
  - intros w l o obs e ty _ Hinv Hs _ _ _.
    apply (offsets_resolved_shrink _ w); [exact Hinv|done| |].
    + unfold tracked, disconnected, disconnect. cbn. rewrite Hs.
      intros x Hx.
      eapply elem_of_sublist; [exact Hx | apply tracked_disconnected_sublist].
    + intros x. apply activated_keeps.
  - intros w counter t _ Hinv.
    destruct (counted_keeps counter t w) as (Hthis & _ & _ & _ & Hels).
    apply (offsets_resolved_shrink _ w); [exact Hinv| | |].
    + rewrite Hthis. reflexivity.
    + intros x. rewrite tracked_counted. done.
    + intros x. destruct (Hels x) as (-> & _ & -> & _). done.
  - intros w b _ Hinv.
    apply (offsets_resolved_shrink _ w); [exact Hinv|done| |done].
    unfold tracked. cbn. destruct (strategy (this w)); done.
  - intros w vb _ Hinv.
    apply (offsets_resolved_shrink _ w); [exact Hinv|done| |done].
    unfold tracked. cbn. destruct (strategy (this w)); done.
  - split; [reflexivity|]. intros e He. exfalso.
    unfold tracked, initial in He. cbn in He.
    destruct (supportsIntersectionObserver window); cbn in He; inversion He.
  - intros [].
Qed.

(** *** Tracked elements keep their marker *)

Lemma tracked_marked_shrink w w' :
  tracked_marked w ->
  (forall x, x ∈ tracked w' -> x ∈ tracked w) ->
  (forall x, marker w' x = marker w x) ->
  tracked_marked w'.
Proof. intros H Htr Hm x Hx. rewrite Hm. apply H, Htr, Hx. Qed.

Lemma tracked_marked_reachable window document page settings evs :
  tracked_marked (run evs (constructed window document page settings)).
Proof.
  apply (invariant_reachable tracked_marked False).
  - intros w e Hwf Hinv Hm _ x Hx.
    rewrite (tracked_register w e Hwf) in Hx. rewrite marker_register.
    apply elem_of_app in Hx as [Hx|Hx]; [apply Hinv, Hx|].
    apply list_elem_of_singleton in Hx. subst x.
    apply matches_marker in Hm. apply Hm.
  - intros w e _ Hinv _. apply (tracked_marked_shrink w); done.
  - intros w i e ty _ Hinv Hi _.
    apply (tracked_marked_shrink w); [exact Hinv| |].
    + unfold tracked. cbn. unfold jazzyElements_of in Hi.
      destruct (strategy (this w)); [done|].
      intros x Hx. eapply elem_of_sublist; [exact Hx | apply splice1_sublist].
    + intros x. apply marker_activated.
  - intros w e _ Hinv _ _. apply (tracked_marked_shrink w); done.
  - intros w l o obs e ty _ Hinv Hs _ _ _.
    apply (tracked_marked_shrink w); [exact Hinv| |].
    + unfold tracked, disconnected, disconnect. cbn. rewrite Hs.
      intros x Hx.
      eapply elem_of_sublist; [exact Hx | apply tracked_disconnected_sublist].
    + intros x. apply marker_activated.
  - intros w counter t _ Hinv. apply (tracked_marked_shrink w); [exact Hinv| |].
    + intros x. rewrite tracked_counted. done.
    + intros x. apply marker_counted.
  - intros w b _ Hinv. apply (tracked_marked_shrink w); [exact Hinv| |done].
    unfold tracked. cbn. destruct (strategy (this w)); done.
  - intros w vb _ Hinv. apply (tracked_marked_shrink w); [exact Hinv| |done].
    unfold tracked. cbn. destruct (strategy (this w)); done.
  - intros e He. exfalso. unfold tracked, initial in He. cbn in He.
    destruct (supportsIntersectionObserver window); cbn in He; inversion He.
  - intros [].
Qed.

Lemma jazzyElements_tracked w x : x ∈ jazzyElements_of w -> x ∈ tracked w.
Proof.
  unfold jazzyElements_of, tracked. destruct (strategy (this w)); [|done].
  intros H. inversion H.
Qed.

(** ** One polling pass *)

Lemma evaluated_app cs1 cs2 : evaluated (cs1 ++ cs2) = evaluated cs1 ++ evaluated cs2.
Proof. apply flat_map_app. Qed.

Lemma animated_app cs1 cs2 : animated (cs1 ++ cs2) = animated cs1 ++ animated cs2.
Proof. apply flat_map_app. Qed.

Lemma evaluated_counting_calls _this e el ty :
  evaluated (counting_calls _this e el ty) = [].
Proof.
  unfold counting_calls. destruct (counting el ty) as [[? ?]|]; reflexivity.
Qed.

Lemma animated_counting_calls _this e el ty :
  animated (counting_calls _this e el ty) = [].
Proof.
  unfold counting_calls. destruct (counting el ty) as [[? ?]|]; reflexivity.
Qed.

Lemma pass_frame_refl w : pass_frame w w.
Proof. split; [reflexivity | intros x; split; reflexivity]. Qed.

Lemma pass_frame_called c w : pass_frame w (called c w).
Proof. split; [reflexivity | intros x; split; reflexivity]. Qed.

Lemma pass_frame_trans w1 w2 w3 :
  pass_frame w1 w2 -> pass_frame w2 w3 -> pass_frame w1 w3.
Proof.
  intros [Hv1 H1] [Hv2 H2]. split; [congruence|].
  intros x. destruct (H1 x), (H2 x). split; congruence.
Qed.

Lemma pass_frame_splice_activated i e ty w :
  pass_frame w (with_jazzyElements (splice1 i) (activated e ty w)).
Proof.
  split.
  - unfold viewportBottom_of. cbn. destruct (strategy (this w)); reflexivity.
  - intros x. split.
    + apply activated_keeps.
    + apply marker_activated.
Qed.

Lemma always_inViewport_frame layout w w' x :
  pass_frame w w' -> always_inViewport layout w x ->
  always_inViewport layout w' x.
Proof.
  intros [Hv Hx] H els. destruct (Hx x) as [Hj _]. rewrite Hv, Hj. apply H.
Qed.

Lemma length_splice1 {A} i (l : list A) :
  (i < length l)%nat -> length (splice1 i l) = (length l - 1)%nat.
Proof.
  intros Hi. unfold splice1. rewrite length_app, length_take, length_drop. lia.
Qed.

Lemma take_splice1 {A} i (l : list A) : take i (splice1 i l) = take i l.
Proof.
  unfold splice1.
  destruct (decide (i <= length l)%nat) as [Hle|Hgt].
  - rewrite take_app_le by (rewrite length_take; lia).
    rewrite take_take. f_equal. lia.
  - rewrite drop_ge by lia. rewrite app_nil_r, take_take. f_equal. lia.
Qed.

Lemma drop_splice1 {A} i (l : list A) :
  (i <= length l)%nat -> drop i (splice1 i l) = drop (S i) l.
Proof.
  intros Hi. unfold splice1.
  rewrite drop_app_length' by (rewrite length_take; lia). reflexivity.
Qed.

(** The loop from index [k - 1] down to 0, run on a collection whose first
    [k] elements carry their marker: it returns, it has evaluated exactly
    these [k] elements, from the last to the first, each once; the elements
    beyond were not touched; an element that passes the test whenever it
    is measured has been handed to [animateIn] and is gone. *)
Lemma init_loop_outcome layout k w :
  (k <= length (jazzyElements_of w))%nat ->
  (forall x, x ∈ take k (jazzyElements_of w) -> is_Some (marker w x)) ->
  exists w' cs kept,
    init_loop layout k w = Return tt w'
    /\ calls w' = calls w ++ cs
    /\ evaluated cs = rev (take k (jazzyElements_of w))
    /\ jazzyElements_of w' = kept ++ drop k (jazzyElements_of w)
    /\ (kept `sublist_of` take k (jazzyElements_of w))
    /\ pass_frame w w'
    /\ forall x, always_inViewport layout w x ->
         (x ∉ kept) /\ (x ∈ take k (jazzyElements_of w) -> x ∈ animated cs).
Proof.
  revert w. induction k as [|i IH]; intros w Hk Hmark.
  - exists w, [], []. simpl. rewrite app_nil_r, drop_0, take_0.
    split; [reflexivity|]. split; [reflexivity|]. split; [reflexivity|].
    split; [reflexivity|]. split; [done|]. split; [apply pass_frame_refl|].
    intros x _. split; [apply not_elem_of_nil | intros Hx; inversion Hx].
  - destruct (lookup_lt_is_Some_2 (jazzyElements_of w) i Hk) as [e He].
    assert (Hpoll : exists vb b,
               strategy (this w) = Polling (jazzyElements_of w) vb b).
    { unfold jazzyElements_of in *.
      destruct (strategy (this w)); [inversion He | eauto]. }
    destruct Hpoll as (vb & b & Hs).
    set (l := jazzyElements_of w) in *.
    set (w1 := called (CallIsInViewport e) w).
    assert (Hme : is_Some (marker w e)).
    { apply Hmark. rewrite (take_S_r _ _ _ He). apply elem_of_app. right.
      apply list_elem_of_singleton. reflexivity. }
    destruct Hme as [ty Hty].
    simpl. unfold bind at 1. unfold init_body. run_monad. fold l.
    rewrite He, isInViewport_eq. fold w1.
    destruct (inViewport layout w e) eqn:Hin.
    + (* activated and removed *)
      rewrite (animateIn_eq e w1 ty Hty). run_monad.
      set (w2 := with_jazzyElements (splice1 i) (activated e ty w1)).
      assert (Hl2 : jazzyElements_of w2 = splice1 i l).
      { unfold w2, jazzyElements_of. cbn. rewrite Hs. reflexivity. }
      assert (Hf2 : pass_frame w w2).
      { apply (pass_frame_trans w w1); [apply pass_frame_called|].
        apply pass_frame_splice_activated. }
      destruct (IH w2) as (w' & cs & kept & Hret & Hcalls & Hev & Hjz & Hsub & Hfr & Hsure).
      { rewrite Hl2, length_splice1 by lia. lia. }
      { intros x Hx. rewrite Hl2, take_splice1 in Hx.
        destruct Hf2 as [_ Hf2]. destruct (Hf2 x) as [_ ->].
        apply Hmark. rewrite (take_S_r _ _ _ He). apply elem_of_app. left. exact Hx. }
      rewrite Hl2, take_splice1 in Hev, Hsub.
      rewrite Hl2, drop_splice1 in Hjz by lia.
      exists w', (CallIsInViewport e :: CallAnimateIn e
                    :: counting_calls (this w1) e (elements w1 !!! e) ty ++ cs), kept.
      split; [exact Hret|]. split.
      { rewrite Hcalls. unfold w2, activated, w1, called. cbn.
        rewrite <- !app_assoc. reflexivity. }
      split.
      { rewrite (take_S_r _ _ _ He), rev_app_distr. simpl.
        rewrite evaluated_app, evaluated_counting_calls, Hev. reflexivity. }
      split; [exact Hjz|]. split.
      { rewrite (take_S_r _ _ _ He). apply sublist_inserts_r, Hsub. }
      split; [exact (pass_frame_trans _ _ _ Hf2 Hfr)|].
      intros x Hx.
      destruct (Hsure x (always_inViewport_frame _ _ _ _ Hf2 Hx)) as [Hnk Han].
      rewrite Hl2, take_splice1 in Han.
      split; [exact Hnk|].
      intros Hxin. rewrite (take_S_r _ _ _ He) in Hxin.
      apply elem_of_app in Hxin as [Hxin|Hxin].
      * simpl. rewrite animated_app, animated_counting_calls. simpl.
        right. apply Han, Hxin.
      * apply list_elem_of_singleton in Hxin. subst x. simpl. left.
    + (* kept *)
      run_monad.
      assert (Hl1 : jazzyElements_of w1 = l) by reflexivity.
      assert (Hf1 : pass_frame w w1) by apply pass_frame_called.
      destruct (IH w1) as (w' & cs & kept & Hret & Hcalls & Hev & Hjz & Hsub & Hfr & Hsure).
      { rewrite Hl1. lia. }
      { intros x Hx. rewrite Hl1 in Hx. change (marker w1 x) with (marker w x).
        apply Hmark. rewrite (take_S_r _ _ _ He). apply elem_of_app. left. exact Hx. }
      rewrite Hl1 in Hev, Hsub, Hjz.
      exists w', (CallIsInViewport e :: cs), (kept ++ [e]).
      split; [exact Hret|]. split.
      { rewrite Hcalls. unfold w1, called. cbn. rewrite <- app_assoc. reflexivity. }
      split.
      { rewrite (take_S_r _ _ _ He), rev_app_distr. simpl. rewrite Hev. reflexivity. }
      split.
      { rewrite Hjz, <- app_assoc. simpl. rewrite (drop_S _ _ _ He). reflexivity. }
      split.
      { rewrite (take_S_r _ _ _ He). apply sublist_app; [exact Hsub | done]. }
      split; [exact (pass_frame_trans _ _ _ Hf1 Hfr)|].
      intros x Hx.
      assert (Hxe : x <> e).
      { intros ->. unfold inViewport in Hin. rewrite (Hx (elements w)) in Hin.
        discriminate. }
      destruct (Hsure x (always_inViewport_frame _ _ _ _ Hf1 Hx)) as [Hnk Han].
      split.
      * intros Hin'. apply elem_of_app in Hin' as [Hin'|Hin']; [done|].
        apply list_elem_of_singleton in Hin'. done.
      * intros Hxin. rewrite (take_S_r _ _ _ He) in Hxin.
        apply elem_of_app in Hxin as [Hxin|Hxin].
        -- simpl. apply Han, Hxin.
        -- apply list_elem_of_singleton in Hxin. done.
Qed.

(** ** The polling pass, in full *)


Lemma inViewport_frame layout w w' x :
  static layout -> pass_frame w w' ->
  inViewport layout w' x = inViewport layout w x.
Proof.
  intros Hst [Hv Hx]. unfold inViewport. destruct (Hx x) as [-> _].
  rewrite Hv, (Hst (elements w') (elements w)). reflexivity.
Qed.

Lemma never_inViewport_frame layout w w' x :
  pass_frame w w' -> never_inViewport layout w x ->
  never_inViewport layout w' x.
Proof.
  intros [Hv Hx] H els. destruct (Hx x) as [Hj _]. rewrite Hv, Hj. apply H.
Qed.

(** The loop from index [k - 1] down to 0 on a collection whose first [k]
    elements carry their marker: what it leaves of the strategy and of
    the rest of the engine, which elements it cannot have activated, and,
    when the layout is static, exactly which ones it has. *)
Lemma init_loop_result layout k w l vb b :
  strategy (this w) = Polling l vb b ->
  (k <= length l)%nat ->
  (forall x, x ∈ take k l -> is_Some (marker w x)) ->
  exists w' cs kept,
    init_loop layout k w = Return tt w'
    /\ calls w' = calls w ++ cs
    /\ strategy (this w') = Polling (kept ++ drop k l) vb b
    /\ speed (this w') = speed (this w)
    /\ delay (this w') = delay (this w)
    /\ offset (this w') = offset (this w)
    /\ heap w' = heap w
    /\ observers w' = observers w
    /\ pass_frame w w'
    /\ (forall x, attributes (elements w' !!! x) = attributes (elements w !!! x))
    /\ (forall x, x ∈ animated cs -> x ∈ take k l)
    /\ (forall x, "animated-in" ∈ classList (elements w !!! x) \/ x ∈ animated cs ->
          "animated-in" ∈ classList (elements w' !!! x))
    /\ (forall x, never_inViewport layout w x ->
          (x ∉ animated cs) /\ (x ∈ take k l -> x ∈ kept))
    /\ (static layout ->
          kept = List.filter (fun x => negb (inViewport layout w x)) (take k l)
          /\ animated cs = rev (List.filter (inViewport layout w) (take k l))).
Proof.
  revert w l. induction k as [|i IH]; intros w l Hs Hk Hmark.
  - exists w, [], []. simpl. rewrite app_nil_r, drop_0, take_0.
    repeat (split; [first [reflexivity | exact Hs | apply pass_frame_refl]|]).
    split; [intros x Hx; inversion Hx|].
    split; [intros x [Hx|Hx]; [exact Hx | inversion Hx]|].
    split.
    + intros x _. split; [apply not_elem_of_nil | intros Hx; inversion Hx].
    + intros _. split; reflexivity.
  - destruct (lookup_lt_is_Some_2 l i Hk) as [e He].
    set (w1 := called (CallIsInViewport e) w).
    assert (Hme : is_Some (marker w e)).
    { apply Hmark. rewrite (take_S_r _ _ _ He). apply elem_of_app. right.
      apply list_elem_of_singleton. reflexivity. }
    destruct Hme as [ty Hty].
    assert (Hjz : jazzyElements_of w = l).
    { unfold jazzyElements_of. rewrite Hs. reflexivity. }
    simpl. unfold bind at 1. unfold init_body. run_monad.
    rewrite Hjz, He, isInViewport_eq. fold w1.
    destruct (inViewport layout w e) eqn:Hin.
    + rewrite (animateIn_eq e w1 ty Hty). run_monad.
      set (w2 := with_jazzyElements (splice1 i) (activated e ty w1)).
      assert (Hs2 : strategy (this w2) = Polling (splice1 i l) vb b).
      { unfold w2. cbn. rewrite Hs. reflexivity. }
      assert (Hf2 : pass_frame w w2).
      { apply (pass_frame_trans w w1); [apply pass_frame_called|].
        apply pass_frame_splice_activated. }
      destruct (IH w2 (splice1 i l) Hs2)
        as (w' & cs & kept & Hret & Hcalls & Hs' & Hsp & Hdl & Hof & Hhp & Hob
            & Hfr & Hat & Hsub & Hcls & Hnever & Hstatic).
      { rewrite length_splice1 by lia. lia. }
      { intros x Hx. rewrite take_splice1 in Hx.
        destruct Hf2 as [_ Hf2]. destruct (Hf2 x) as [_ ->].
        apply Hmark. rewrite (take_S_r _ _ _ He). apply elem_of_app. left. exact Hx. }
      rewrite take_splice1 in Hsub, Hnever, Hstatic.
      rewrite drop_splice1 in Hs' by lia.
      exists w', (CallIsInViewport e :: CallAnimateIn e
                    :: counting_calls (this w1) e (elements w1 !!! e) ty ++ cs), kept.
      split; [exact Hret|]. split.
      { rewrite Hcalls. unfold w2, activated, w1, called. cbn.
        rewrite <- !app_assoc. reflexivity. }
      split; [exact Hs'|].
      split; [rewrite Hsp; reflexivity|].
      split; [rewrite Hdl; reflexivity|].
      split; [rewrite Hof; reflexivity|].
      split; [rewrite Hhp; reflexivity|].
      split; [rewrite Hob; reflexivity|].
      split; [exact (pass_frame_trans _ _ _ Hf2 Hfr)|].
      split.
      { intros x. rewrite Hat. unfold w2. cbn.
        exact (proj2 (activated_keeps e ty w1 x)). }
      split.
      { intros x. simpl. rewrite animated_app, animated_counting_calls. simpl.
        rewrite (take_S_r _ _ _ He). intros Hx.
        apply elem_of_cons in Hx as [->|Hx]; apply elem_of_app.
        - right. apply list_elem_of_singleton. reflexivity.
        - left. apply Hsub, Hx. }
      split.
      { intros x Hx. apply Hcls.
        simpl in Hx. rewrite animated_app, animated_counting_calls in Hx.
        simpl in Hx. rewrite elem_of_cons in Hx.
        destruct Hx as [Hx|[->|Hx]]; [left|left|right; exact Hx].
        - unfold w2. cbn [with_jazzyElements with_strategy elements].
          apply classList_activated. left. exact Hx.
        - unfold w2. cbn [with_jazzyElements with_strategy elements].
          apply classList_activated. right. reflexivity. }
      split.
      * intros x Hx.
        assert (Hxe : x <> e).
        { intros ->. unfold inViewport in Hin. rewrite (Hx (elements w)) in Hin.
          discriminate. }
        destruct (Hnever x (never_inViewport_frame _ _ _ _ Hf2 Hx)) as [Hna Hkp].
        split.
        -- simpl. rewrite animated_app, animated_counting_calls. simpl.
           intros Hin'. apply elem_of_cons in Hin' as [Hin'|Hin']; done.
        -- intros Hxin. rewrite (take_S_r _ _ _ He) in Hxin.
           apply elem_of_app in Hxin as [Hxin|Hxin]; [apply Hkp, Hxin|].
           apply list_elem_of_singleton in Hxin. done.
      * intros Hst. destruct (Hstatic Hst) as [Hk' Ha'].
        rewrite (take_S_r _ _ _ He), !List.filter_app. simpl. rewrite Hin. simpl.
        rewrite app_nil_r, rev_app_distr. simpl.
        rewrite animated_app, animated_counting_calls. simpl.
        split.
        -- rewrite Hk'. apply List.filter_ext. intros x.
           rewrite (inViewport_frame layout w w2 x Hst Hf2). reflexivity.
        -- rewrite Ha'. do 2 f_equal. apply List.filter_ext. intros x.
           apply (inViewport_frame layout w w2 x Hst Hf2).
    + run_monad.
      assert (Hs1 : strategy (this w1) = Polling l vb b) by exact Hs.
      assert (Hf1 : pass_frame w w1) by apply pass_frame_called.
      destruct (IH w1 l Hs1)
        as (w' & cs & kept & Hret & Hcalls & Hs' & Hsp & Hdl & Hof & Hhp & Hob
            & Hfr & Hat & Hsub & Hcls & Hnever & Hstatic).
      { lia. }
      { intros x Hx. change (marker w1 x) with (marker w x).
        apply Hmark. rewrite (take_S_r _ _ _ He). apply elem_of_app. left. exact Hx. }
      exists w', (CallIsInViewport e :: cs), (kept ++ [e]).
      split; [exact Hret|]. split.
      { rewrite Hcalls. unfold w1, called. cbn. rewrite <- app_assoc. reflexivity. }
      split.
      { rewrite Hs', <- app_assoc. simpl. rewrite (drop_S _ _ _ He). reflexivity. }
      split; [exact Hsp|]. split; [exact Hdl|]. split; [exact Hof|].
      split; [exact Hhp|]. split; [exact Hob|].
      split; [exact (pass_frame_trans _ _ _ Hf1 Hfr)|].
      split; [exact Hat|].
      split.
      { intros x Hx. simpl in Hx. rewrite (take_S_r _ _ _ He).
        apply elem_of_app. left. apply Hsub, Hx. }
      split; [intros x Hx; apply Hcls; exact Hx|].
      split.
      * intros x Hx.
        destruct (Hnever x (never_inViewport_frame _ _ _ _ Hf1 Hx)) as [Hna Hkp].
        split; [exact Hna|].
        intros Hxin. rewrite (take_S_r _ _ _ He) in Hxin.
        apply elem_of_app in Hxin as [Hxin|Hxin]; apply elem_of_app.
        -- left. apply Hkp, Hxin.
        -- right. exact Hxin.
      * intros Hst. destruct (Hstatic Hst) as [Hk' Ha'].
        rewrite (take_S_r _ _ _ He), !List.filter_app. simpl. rewrite Hin. simpl.
        rewrite app_nil_r.
        split.
        -- rewrite Hk'. reflexivity.
        -- rewrite Ha'. reflexivity.
Qed.

(** A whole pass: [init] on a polled collection whose elements carry
    their marker. *)
Lemma init_result layout w l vb b :
  strategy (this w) = Polling l vb b ->
  (forall x, x ∈ l -> is_Some (marker w x)) ->
  exists w' cs kept,
    init layout w = Return tt w'
    /\ calls w' = calls w ++ cs
    /\ strategy (this w') = Polling kept vb true
    /\ speed (this w') = speed (this w)
    /\ delay (this w') = delay (this w)
    /\ offset (this w') = offset (this w)
    /\ heap w' = heap w
    /\ observers w' = observers w
    /\ pass_frame w w'
    /\ (forall x, attributes (elements w' !!! x) = attributes (elements w !!! x))
    /\ (forall x, x ∈ animated cs -> x ∈ l)
    /\ (forall x, "animated-in" ∈ classList (elements w !!! x) \/ x ∈ animated cs ->
          "animated-in" ∈ classList (elements w' !!! x))
    /\ (forall x, never_inViewport layout w x ->
          (x ∉ animated cs) /\ (x ∈ l -> x ∈ kept))
    /\ (static layout ->
          kept = List.filter (fun x => negb (inViewport layout w x)) l
          /\ animated cs = rev (List.filter (inViewport layout w) l)).
Proof.
  intros Hs Hmark.
  destruct (init_loop_result layout (length l) w l vb b Hs)
    as (w' & cs & kept & Hret & Hcalls & Hs' & Hsp & Hdl & Hof & Hhp & Hob
        & Hfr & Hat & Hsub & Hcls & Hnever & Hstatic).
  { lia. }
  { intros x Hx. rewrite firstn_all in Hx. apply Hmark, Hx. }
  rewrite firstn_all in Hsub, Hnever, Hstatic. rewrite drop_all, app_nil_r in Hs'.
  exists (set_frameRequested true w'), cs, kept.
  split.
  { unfold init. run_monad. unfold jazzyElements_of at 1. rewrite Hs, Hret.
    reflexivity. }
  split; [exact Hcalls|].
  split; [cbn; rewrite Hs'; reflexivity|].
  split; [exact Hsp|]. split; [exact Hdl|]. split; [exact Hof|].
  split; [exact Hhp|]. split; [exact Hob|].
  split.
  { destruct Hfr as [Hv Hx]. split; [|exact Hx].
    rewrite <- Hv. unfold viewportBottom_of. cbn. rewrite Hs'. reflexivity. }
  split; [exact Hat|]. split; [exact Hsub|]. split; [exact Hcls|].
  split; [exact Hnever | exact Hstatic].
Qed.


(** ** Invariants of a run, given that tracked elements keep their marker *)

Section MarkedInvariant.
Variable Q : World -> Prop.

Hypothesis Q_register : forall w e,
  well_formed w -> Q w -> matches_jazzy (elements w !!! e) = true ->
  Q (register w e).

Hypothesis Q_called : forall w e, Q w -> Q (called (CallIsInViewport e) w).

Hypothesis Q_activated_polling : forall w i e ty,
  well_formed w -> Q w ->
  jazzyElements_of w !! i = Some e -> marker w e = Some ty ->
  Q (with_jazzyElements (splice1 i) (activated e ty w)).

Hypothesis Q_activated_observing : forall w l o obs e ty,
  well_formed w -> Q w -> strategy (this w) = Observing l ->
  observers w !! o = Some obs -> e ∈ io_observed obs ->
  marker w e = Some ty ->
  Q (disconnected o (activated e ty w)).

Hypothesis Q_counted : forall w counter timestamp,
  Q w -> Q (counted counter timestamp w).

Hypothesis Q_frameRequested : forall w b, Q w -> Q (set_frameRequested b w).

Hypothesis Q_viewportBottom : forall w vb, Q w -> Q (set_viewportBottom vb w).

(** One event, and the constructor. *)
Lemma marked_invariant_rule :
  (forall w ev,
     well_formed w -> tracked_marked w -> Q w ->
     well_formed (step w ev) /\ tracked_marked (step w ev) /\ Q (step w ev))
  /\ (forall window document page settings,
        Q (initial window page settings) ->
        well_formed (constructed window document page settings)
        /\ tracked_marked (constructed window document page settings)
        /\ Q (constructed window document page settings)).
Proof.
  assert (Hreg : forall w e, well_formed w -> tracked_marked w /\ Q w ->
      matches_jazzy (elements w !!! e) = true -> (False -> e ∉ tracked w) ->
      tracked_marked (register w e) /\ Q (register w e)).
  { intros w e Hwf [Htm Hq] Hm _. split; [|apply Q_register; assumption].
    intros x Hx.
    rewrite (tracked_register w e Hwf) in Hx. rewrite marker_register.
    apply elem_of_app in Hx as [Hx|Hx]; [apply Htm, Hx|].
    apply list_elem_of_singleton in Hx. subst x.
    apply matches_marker in Hm. apply Hm. }
  assert (Hcal : forall w e, well_formed w -> tracked_marked w /\ Q w -> e ∈ tracked w ->
      tracked_marked (called (CallIsInViewport e) w)
      /\ Q (called (CallIsInViewport e) w)).
  { intros w e _ [Htm Hq] _. split; [|apply Q_called, Hq].
    apply (tracked_marked_shrink w); done. }
  assert (Hpol : forall w i e ty, well_formed w -> tracked_marked w /\ Q w ->
      jazzyElements_of w !! i = Some e -> marker w e = Some ty ->
      tracked_marked (with_jazzyElements (splice1 i) (activated e ty w))
      /\ Q (with_jazzyElements (splice1 i) (activated e ty w))).
  { intros w i e ty Hwf [Htm Hq] Hi Hty.
    split; [|apply Q_activated_polling; assumption].
    apply (tracked_marked_shrink w); [exact Htm| |].
    + unfold tracked. cbn. unfold jazzyElements_of in Hi.
      destruct (strategy (this w)); [done|].
      intros x Hx. eapply elem_of_sublist; [exact Hx | apply splice1_sublist].
    + intros x. apply marker_activated. }
  assert (Hthr : forall w e, well_formed w -> tracked_marked w /\ Q w -> e ∈ tracked w ->
      marker w e = None ->
      tracked_marked (called (CallAnimateIn e) w)
      /\ Q (called (CallAnimateIn e) w)).
  { intros w e _ [Htm _] He Hnone. exfalso.
    destruct (Htm e He) as [ty Hty]. congruence. }
  assert (Hobs : forall w l o obs e ty, well_formed w -> tracked_marked w /\ Q w ->
      strategy (this w) = Observing l -> observers w !! o = Some obs ->
      e ∈ io_observed obs -> marker w e = Some ty ->
      tracked_marked (disconnected o (activated e ty w))
      /\ Q (disconnected o (activated e ty w))).
  { intros w l o obs e ty Hwf [Htm Hq] Hs Ho He Hty.
    split; [|eapply Q_activated_observing; eassumption].
    apply (tracked_marked_shrink w); [exact Htm| |].
    + unfold tracked, disconnected, disconnect. cbn. rewrite Hs.
      intros x Hx.
      eapply elem_of_sublist; [exact Hx | apply tracked_disconnected_sublist].
    + intros x. apply marker_activated. }
  assert (Hcnt : forall w counter timestamp, well_formed w -> tracked_marked w /\ Q w ->
      tracked_marked (counted counter timestamp w)
      /\ Q (counted counter timestamp w)).
  { intros w counter t _ [Htm Hq]. split; [|apply Q_counted, Hq].
    apply (tracked_marked_shrink w); [exact Htm| |].
    + intros x. rewrite tracked_counted. done.
    + intros x. apply marker_counted. }
  assert (Hfrq : forall w b, well_formed w -> tracked_marked w /\ Q w ->
      tracked_marked (set_frameRequested b w) /\ Q (set_frameRequested b w)).
  { intros w b _ [Htm Hq]. split; [|apply Q_frameRequested, Hq].
    apply (tracked_marked_shrink w); [exact Htm| |done].
    unfold tracked. cbn. destruct (strategy (this w)); done. }
  assert (Hvpb : forall w vb, well_formed w -> tracked_marked w /\ Q w ->
      tracked_marked (set_viewportBottom vb w) /\ Q (set_viewportBottom vb w)).
  { intros w vb _ [Htm Hq]. split; [|apply Q_viewportBottom, Hq].
    apply (tracked_marked_shrink w); [exact Htm| |done].
    unfold tracked. cbn. destruct (strategy (this w)); done. }
  split.
  - intros w ev Hwf Htm Hq.
    apply (invariant_step (fun w => tracked_marked w /\ Q w) False
             Hreg Hcal Hpol Hthr Hobs Hcnt Hfrq Hvpb w ev);
      [split; [exact Hwf | split; assumption] | intros []].
  - intros window document page settings Hinit.
    apply (invariant_constructed (fun w => tracked_marked w /\ Q w) False
             Hreg Hfrq);
      [|intros []].
    split; [|exact Hinit].
    intros e He. exfalso. unfold tracked, initial in He. cbn in He.
    destruct (supportsIntersectionObserver window); cbn in He; inversion He.
Qed.

Lemma marked_invariant_reachable window document page settings evs :
  Q (initial window page settings) ->
  Q (run evs (constructed window document page settings)).
Proof.
  intros Hinit. destruct marked_invariant_rule as [Hstep Hcons].
  assert (H : well_formed (run evs (constructed window document page settings))
              /\ tracked_marked (run evs (constructed window document page settings))
              /\ Q (run evs (constructed window document page settings)));
    [|exact (proj2 (proj2 H))].
  induction evs as [|ev evs IH] using rev_ind.
  - apply Hcons, Hinit.
  - unfold run. rewrite fold_left_app. cbn [fold_left].
    destruct IH as (Hwf & Htm & Hq). apply Hstep; assumption.
Qed.

End MarkedInvariant.


(** ** The frames of the counter *)

Module RampFacts.
Import Js Ramp.

Lemma Qfloor_Z2Qc z : Qfloor (Z2Qc z) = z.
Proof.
  unfold Z2Qc. simpl. rewrite (Qfloor_comp _ _ (Qred_correct _)).
  apply Qfloor_Z.
Qed.

Lemma Qc_eqb_false (a b : Qc) : a <> b -> Qc_eqb a b = false.
Proof. intros H. unfold Qc_eqb. apply bool_decide_eq_false_2, H. Qed.

Lemma Qc_pos_neq (d : Qc) : (0 < d)%Qc -> d <> 0%Qc.
Proof. intros H ->. apply (Qclt_not_le _ _ H), Qcle_refl. Qed.



Lemma clamp_lt_1 p : (clamp p < 1)%Qc <-> (p < 1)%Qc.
Proof.
  unfold clamp, Qc_ltb. case_bool_decide as H.
  - split; intros H'.
    + exfalso. apply (Qclt_not_le _ _ H'), Qcle_refl.
    + exfalso. apply (Qclt_not_le _ _ H), Qclt_le_weak, H'.
  - reflexivity.
Qed.

Lemma clamp_ge_1 p : (1 <= p)%Qc -> clamp p = 1%Qc.
Proof.
  intros Hp. unfold clamp, Qc_ltb. case_bool_decide as H; [reflexivity|].
  apply Qcle_antisym; [apply Qcnot_lt_le, H | exact Hp].
Qed.

Lemma div_mono (d x y : Qc) : (0 < d)%Qc -> (x <= y)%Qc -> (x / d <= y / d)%Qc.
Proof.
  intros Hd Hxy. unfold Qcdiv.
  apply Qcmult_le_compat_r; [exact Hxy|].
  apply Qclt_le_weak, Qcinv_pos, Hd.
Qed.

Lemma div_lt_1 (d x : Qc) : (0 < d)%Qc -> (x / d < 1)%Qc <-> (x < d)%Qc.
Proof.
  intros Hd. pose proof (Qc_pos_neq d Hd) as Hne.
  rewrite !Qclt_nge. apply not_iff_compat.
  rewrite (Qcmult_le_mono_pos_r 1 (x / d) d Hd).
  unfold Qcdiv. rewrite <- Qcmult_assoc, (Qcmult_inv_l d Hne).
  rewrite Qcmult_1_l, Qcmult_1_r. reflexivity.
Qed.


(** The frame computed by the program on a started counter. *)
Lemma displayed_started s e d t0 t :
  d <> 0%Qc ->
  displayed (started s e d t0) t = ofZ (value_at s e d t0 t).
Proof.
  intros Hd. unfold displayed, progress, started, startTimestamp_value.
  cbn [start end_ duration startTimestamp ToNumber].
  unfold sub, neg, ofZ. cbn [add div].
  rewrite (Qc_eqb_false d 0%Qc Hd).
  unfold Math_min, lt. cbn [mul add Math_floor].
  unfold value_at, progress_at, clamp, ofZ, Z2Qc.
  destruct (Qc_ltb _ _); reflexivity.
Qed.

Lemma requested_started s e d t0 t :
  d <> 0%Qc ->
  lt (progress (started s e d t0) t) (ofZ 1)
  = Qc_ltb (progress_at d t0 t) 1%Qc.
Proof.
  intros Hd. unfold progress, started, startTimestamp_value.
  cbn [start end_ duration startTimestamp ToNumber].
  unfold sub, neg, ofZ. cbn [add div].
  rewrite (Qc_eqb_false d 0%Qc Hd).
  unfold Math_min, lt, progress_at, clamp.
  destruct (Qc_ltb _ _); reflexivity.
Qed.

Lemma value_at_first s e d t0 : value_at s e d t0 t0 = s.
Proof.
  unfold value_at, progress_at.
  replace ((t0 + - t0) / d)%Qc with 0%Qc by (unfold Qcdiv; ring).
  replace (clamp 0%Qc) with 0%Qc by reflexivity.
  replace (0 * (Z2Qc e + - Z2Qc s) + Z2Qc s)%Qc with (Z2Qc s) by ring.
  apply Qfloor_Z2Qc.
Qed.

Lemma value_at_last s e d t0 t :
  (0 < d)%Qc -> (d <= t + - t0)%Qc -> value_at s e d t0 t = e.
Proof.
  intros Hd Ht. unfold value_at, progress_at.
  rewrite clamp_ge_1.
  - replace (1 * (Z2Qc e + - Z2Qc s) + Z2Qc s)%Qc with (Z2Qc e) by ring.
    apply Qfloor_Z2Qc.
  - apply Qcnot_lt_le. rewrite (div_lt_1 d _ Hd). apply Qcle_not_lt, Ht.
Qed.





(** The first frame fixes the start of the clock, unless it reads zero. *)
Lemma first_frame s e d t0 :
  set_startTimestamp (animateNumber (ofZ s) (ofZ e) (VNum (Fin d))) t0
  = started s e d t0.
Proof. reflexivity. Qed.

Lemma later_frame s e d t0 t :
  t0 <> 0%Qc -> set_startTimestamp (started s e d t0) t = started s e d t0.
Proof.
  intros H0. unfold set_startTimestamp, not_startTimestamp, started.
  cbn [startTimestamp ToBoolean]. rewrite (Qc_eqb_false _ _ H0). reflexivity.
Qed.

Lemma NumberToString_ofZ z : NumberToString (ofZ z) = Z_to_string z.
Proof.
  unfold NumberToString, ofZ, Z2Qc.
  assert (Hq : Qcanon.this (Q2Qc (inject_Z z)) = inject_Z z).
  { simpl. apply Qred_identity. simpl. apply Z.gcd_1_r. }
  rewrite Hq. simpl Qnum. simpl Qden.
  unfold Qc_abs_to_string. rewrite !Z.mod_1_r, !Z.div_1_r. simpl.
  destruct (Z.ltb_spec z 0) as [Hneg|Hpos]; [|reflexivity].
  unfold Z_to_string. destruct z as [|p|p]; try lia. reflexivity.
Qed.

End RampFacts.

(** * The claims *)

Module Claims.
Import Js Dom Jazzy Examples.

(** ** Configuration *)

Lemma constructed_config window document page settings :
  speed (this (constructed window document page settings)) = this_speed settings
  /\ delay (this (constructed window document page settings)) = this_delay settings
  /\ offset (this (constructed window document page settings))
     = this_offset window settings.
Proof.
  rewrite constructed_eq.
  assert (H : forall l w,
             speed (this (register_all l w)) = speed (this w)
             /\ delay (this (register_all l w)) = delay (this w)
             /\ offset (this (register_all l w)) = offset (this w)).
  { induction l as [|e l IH]; intros w; simpl; [auto|].
    destruct (IH (register w e)) as (-> & -> & ->). apply register_config. }
  destruct (supportsIntersectionObserver window) eqn:Hs;
    [apply (H _ (initial window page settings))|].
  cbn. apply (H _ (initial window page settings)).
Qed.

(** C5. A settings field that is present but falsy is replaced by the
    default: [speed: 0] gives the speed 500, and constructing with
    [speed: 0], with [delay: 0] or with [offset: 0] gives the very world
    that constructing without the field gives. *)
Theorem zero_setting_is_unset window document page sp dl off :
  speed (this (constructed window document page
                 {| settings_speed := VNum (ofZ 0); settings_delay := dl;
                    settings_offset := off |})) = VNum (ofZ 500)
  /\ JazzyScroll window document page
       {| settings_speed := VNum (ofZ 0); settings_delay := dl;
          settings_offset := off |}
     = JazzyScroll window document page
         {| settings_speed := VUndefined; settings_delay := dl;
            settings_offset := off |}
  /\ JazzyScroll window document page
       {| settings_speed := sp; settings_delay := VNum (ofZ 0);
          settings_offset := off |}
     = JazzyScroll window document page
         {| settings_speed := sp; settings_delay := VUndefined;
            settings_offset := off |}
  /\ JazzyScroll window document page
       {| settings_speed := sp; settings_delay := dl;
          settings_offset := Some (ofZ 0) |}
     = JazzyScroll window document page
         {| settings_speed := sp; settings_delay := dl;
            settings_offset := None |}.
Proof.
  split; [|split; [|split]].
  - destruct (constructed_config window document page
                {| settings_speed := VNum (ofZ 0); settings_delay := dl;
                   settings_offset := off |}) as (-> & _).
    reflexivity.
  - reflexivity.
  - reflexivity.
  - reflexivity.
Qed.

(** ** The activator *)

(** C7. On a counting element whose start or end does not parse,
    [animateIn] returns without raising, makes no call to [animateNumber]
    and queues no counter, and still adds the completion class. *)
Theorem unparsable_count_is_skipped e w animationType :
  marker w e = Some animationType ->
  includes animationType "count" = true ->
  isNaN (startNumber_of (elements w !!! e)) = true
  \/ isNaN (endNumber_of (elements w !!! e)) = true ->
  exists w',
    animateIn e w = Return tt w'
    /\ calls w' = calls w ++ [CallAnimateIn e]
    /\ counters w' = counters w
    /\ "animated-in" ∈ classList (elements w' !!! e).
Proof.
  intros Hm Hcount Hnan. exists (activated e animationType w).
  split; [apply animateIn_eq, Hm|].
  assert (Hnone : counting (elements w !!! e) animationType = None).
  { unfold counting. rewrite Hcount.
    destruct Hnan as [-> | ->]; [reflexivity|].
    rewrite andb_false_r. reflexivity. }
  unfold activated, counting_calls, counting_counters. cbn [calls counters].
  rewrite Hnone, app_nil_r.
  split; [reflexivity|]. split; [reflexivity|].
  apply (classList_activated e animationType w e). right. reflexivity.
Qed.

Lemma unparsable_count_is_skipped_witness :
  exists w',
    animateIn 1%nat (constructed (desktop false) one_element page_bad_counter
                       no_settings) = Return tt w'
    /\ calls w' = calls (constructed (desktop false) one_element
                           page_bad_counter no_settings)
                  ++ [CallAnimateIn 1%nat]
    /\ counters w' = counters (constructed (desktop false) one_element
                                 page_bad_counter no_settings)
    /\ "animated-in" ∈ classList (elements w' !!! 1%nat).
Proof.
  apply (unparsable_count_is_skipped 1%nat _ "jazzy-count").
  - vm_compute. reflexivity.
  - vm_compute. reflexivity.
  - right. vm_compute. reflexivity.
Defined.

(** C3, as the code has it. When the marker of an element contains "count"
    and both numbers parse, [animateIn] calls [animateNumber] with these
    numbers and with the speed of the engine as the duration, whatever
    speed the element has of its own, and the counter it queues has that
    duration. *)
Theorem count_runs_at_engine_speed e w animationType :
  marker w e = Some animationType ->
  includes animationType "count" = true ->
  isNaN (startNumber_of (elements w !!! e)) = false ->
  isNaN (endNumber_of (elements w !!! e)) = false ->
  exists w',
    animateIn e w = Return tt w'
    /\ calls w' = calls w ++
         [CallAnimateIn e;
          CallAnimateNumber e (startNumber_of (elements w !!! e))
                              (endNumber_of (elements w !!! e))
                              (speed (this w))]
    /\ counters w' = counters w ++
         [ {| counter_element := e;
              counter_closure :=
                {| Ramp.start := startNumber_of (elements w !!! e);
                   Ramp.end_ := endNumber_of (elements w !!! e);
                   Ramp.duration := speed (this w);
                   Ramp.startTimestamp := None |};
              counter_requested := true |} ].
Proof.
  intros Hm Hcount Hs He. exists (activated e animationType w).
  split; [apply animateIn_eq, Hm|].
  unfold activated, counting_calls, counting_counters, counting.
  cbn [calls counters]. rewrite Hcount, Hs, He. split; reflexivity.
Qed.

Lemma count_runs_at_engine_speed_witness :
  let w := constructed (desktop false) one_element page_counter no_settings in
  exists w',
    animateIn 1%nat w = Return tt w'
    /\ calls w' = calls w ++
         [CallAnimateIn 1%nat;
          CallAnimateNumber 1%nat (startNumber_of (elements w !!! 1%nat))
                                  (endNumber_of (elements w !!! 1%nat))
                                  (speed (this w))]
    /\ counters w' = counters w ++
         [ {| counter_element := 1%nat;
              counter_closure :=
                {| Ramp.start := startNumber_of (elements w !!! 1%nat);
                   Ramp.end_ := endNumber_of (elements w !!! 1%nat);
                   Ramp.duration := speed (this w);
                   Ramp.startTimestamp := None |};
              counter_requested := true |} ].
Proof.
  intros w.
  apply (count_runs_at_engine_speed 1%nat w "jazzy-count").
  - vm_compute. reflexivity.
  - vm_compute. reflexivity.
  - vm_compute. reflexivity.
  - vm_compute. reflexivity.
Defined.

(** C3, as stated, fails: a counter with the speed attribute "1000" on an
    engine of speed 500 is registered with the resolved speed "1000", and
    the first pass that sees it starts a counter of duration 500. *)
Lemma count_ignores_element_speed :
  let w0 := constructed (desktop false) one_element page_counter no_settings in
  let w := run [AnimationFrame layout_100] w0 in
  ~ (forall c, c ∈ counters w ->
       Ramp.duration (counter_closure c)
       = resolved_speed (this w) (elements w !!! counter_element c)).
Proof.
  intros w0 w H.
  specialize (H {| counter_element := 1%nat;
                   counter_closure :=
                     Ramp.animateNumber (ofZ 0) (ofZ 42) (VNum (ofZ 500));
                   counter_requested := true |}).
  assert (Hin : {| counter_element := 1%nat;
                   counter_closure :=
                     Ramp.animateNumber (ofZ 0) (ofZ 42) (VNum (ofZ 500));
                   counter_requested := true |} ∈ counters w)
    by (vm_compute; left).
  specialize (H Hin). vm_compute in H. discriminate H.
Qed.

(** A whole run: the engine is given its speed as the string "800"; the
    counter of the page is activated by the first pass and counts from 0 to
    42 over 800 ms, while its transition lasts the 1000 ms of its own
    attribute. *)
Example counter_run :
  let string_speed := {| settings_speed := VStr "800";
                         settings_delay := VUndefined;
                         settings_offset := None |} in
  let w0 := constructed (desktop false) one_element page_counter string_speed in
  let text evs := Dom.textContent (elements (run evs w0) !!! 1%nat) in
  text [AnimationFrame layout_100] = "42"
  /\ text [AnimationFrame layout_100; CounterFrame 0 (Q2Qc 1000)] = "0"
  /\ text [AnimationFrame layout_100; CounterFrame 0 (Q2Qc 1000);
           CounterFrame 0 (Q2Qc 1400)] = "21"
  /\ text [AnimationFrame layout_100; CounterFrame 0 (Q2Qc 1000);
           CounterFrame 0 (Q2Qc 1400); CounterFrame 0 (Q2Qc 1800);
           CounterFrame 0 (Q2Qc 2500)] = "42"
  /\ transitionDuration (style (elements w0 !!! 1%nat)) = "1000ms".
Proof. vm_compute. repeat split; reflexivity. Qed.

(** ** The mobile override *)

(** C1, as the code has it. On a runtime that exposes [window.orientation]
    the offset of the engine is 0 whatever the settings say, and at any
    later time a tracked element without an offset attribute of its own (or
    with an empty one) has the offset 0; a tracked element with such an
    attribute keeps the number parsed from it. *)
Theorem mobile_override_is_engine_level window document page settings evs e :
  orientation window <> VUndefined ->
  let w := run evs (constructed window document page settings) in
  offset (this w) = ofZ 0
  /\ (e ∈ tracked w ->
      match attributes (elements w !!! e) !! "data-jazzy-scroll-offset" with
      | Some s =>
          if String.eqb s ""
          then jazzyOffset (elements w !!! e) = Some (ofZ 0)
          else jazzyOffset (elements w !!! e) = Some (parseInt (VStr s))
      | None => jazzyOffset (elements w !!! e) = Some (ofZ 0)
      end).
Proof.
  intros Hmobile w.
  destruct (offsets_resolved_reachable window document page settings evs)
    as [Hoff Hres].
  fold w in Hoff, Hres.
  assert (H0 : this_offset window settings = ofZ 0).
  { unfold this_offset. destruct (orientation window); done. }
  rewrite H0 in Hoff. split; [exact Hoff|].
  intros He. rewrite (Hres e He).
  unfold resolved_offset, getAttribute, cond. rewrite Hoff.
  destruct (attributes (elements w !!! e) !! "data-jazzy-scroll-offset")
    as [s|]; cbn [ToBoolean].
  - destruct (String.eqb s ""); reflexivity.
  - reflexivity.
Qed.

Lemma mobile_override_is_engine_level_witness :
  let w := run [] (constructed (phone true) one_element page_offset offset_50) in
  offset (this w) = ofZ 0
  /\ (1%nat ∈ tracked w ->
      match attributes (elements w !!! 1%nat) !! "data-jazzy-scroll-offset" with
      | Some s =>
          if String.eqb s ""
          then jazzyOffset (elements w !!! 1%nat) = Some (ofZ 0)
          else jazzyOffset (elements w !!! 1%nat) = Some (parseInt (VStr s))
      | None => jazzyOffset (elements w !!! 1%nat) = Some (ofZ 0)
      end).
Proof.
  apply (mobile_override_is_engine_level (phone true) one_element page_offset
           offset_50 [] 1%nat).
  discriminate.
Defined.

(** C1, as stated, fails: on a phone, with [offset: 50] in the settings, the
    element whose own offset attribute is "120" is tracked with the offset
    120. *)
Lemma mobile_override_spares_element_offset :
  let w := constructed (phone true) one_element page_offset offset_50 in
  ~ (forall e, e ∈ tracked w -> jazzyOffset (elements w !!! e) = Some (ofZ 0)).
Proof.
  intros w H. specialize (H 1%nat).
  assert (Hin : 1%nat ∈ tracked w) by (vm_compute; left).
  specialize (H Hin).
  assert (H120 : jazzyOffset (elements w !!! 1%nat) = Some (ofZ 120))
    by (vm_compute; reflexivity).
  pose proof (eq_trans (eq_sym H) H120) as Heq.
  discriminate Heq.
Qed.

(** ** At most one activation *)

Lemma added_app cs1 cs2 : added (cs1 ++ cs2) = added cs1 ++ added cs2.
Proof. apply flat_map_app. Qed.

Lemma added_register w e : added (calls (register w e)) = added (calls w) ++ [e].
Proof. rewrite register_calls, added_app. reflexivity. Qed.

Lemma added_counting_calls _this e el ty : added (counting_calls _this e el ty) = [].
Proof.
  unfold counting_calls. destruct (counting el ty) as [[? ?]|]; reflexivity.
Qed.

Lemma count_occ_splice1 i (l : list elem_id) e x :
  l !! i = Some e ->
  (count_occ Nat.eq_dec (splice1 i l) x + (if bool_decide (e = x) then 1 else 0)
   = count_occ Nat.eq_dec l x)%nat.
Proof.
  intros Hi. rewrite <- (take_drop_middle l i e Hi) at 2.
  unfold splice1. rewrite !count_occ_app.
  destruct (Nat.eq_dec e x) as [->|Hne].
  - rewrite count_occ_cons_eq by reflexivity.
    rewrite bool_decide_eq_true_2 by reflexivity.
    rewrite <- Nat.add_assoc, Nat.add_1_r. reflexivity.
  - rewrite count_occ_cons_neq by exact Hne.
    rewrite bool_decide_eq_false_2 by exact Hne. apply Nat.add_0_r.
Qed.

Lemma count_occ_disconnected o (os : list IntersectionObserver) obs x :
  os !! o = Some obs ->
  (count_occ Nat.eq_dec
     (flat_map io_observed
        (alter (fun ob => {| io_rootMargin := io_rootMargin ob;
                             io_threshold := io_threshold ob;
                             io_observed := [] |}) o os)) x
   + count_occ Nat.eq_dec (io_observed obs) x
   = count_occ Nat.eq_dec (flat_map io_observed os) x)%nat.
Proof.
  revert o. induction os as [|ob os IH]; intros o Ho; [inversion Ho|].
  destruct o as [|o].
  - injection Ho as ->.
    change (alter ?f 0%nat (obs :: os)) with (f obs :: os).
    change (flat_map io_observed (?a :: os))
      with (io_observed a ++ flat_map io_observed os).
    rewrite !count_occ_app. cbn [io_observed count_occ]. (unfold elem_id in *; lia).
  - change (alter ?f (S o) (ob :: os)) with (ob :: alter f o os).
    change (flat_map io_observed (ob :: ?l))
      with (io_observed ob ++ flat_map io_observed l).
    rewrite !count_occ_app. specialize (IH o Ho). (unfold elem_id in *; lia).
Qed.

Lemma count_occ_elem_of (l : list elem_id) x :
  x ∈ l -> (1 <= count_occ Nat.eq_dec l x)%nat.
Proof.
  intros Hx. apply list_elem_of_In in Hx.
  apply (count_occ_In Nat.eq_dec) in Hx. (unfold elem_id in *; lia).
Qed.

(** What keeps the balance: the registrations, the calls of [animateIn]
    and the tracked entries stay as they are. *)
Lemma once_per_registration_keep w w' :
  once_per_registration w ->
  (forall x, animateIn_count x w' = animateIn_count x w) ->
  tracked w' = tracked w ->
  added (calls w') = added (calls w) ->
  once_per_registration w'.
Proof.
  intros H Ha Ht Hr x. specialize (H x).
  unfold tracked_count, registered_count in *. rewrite Ha, Ht, Hr. exact H.
Qed.

Lemma tracked_register_any w e : tracked (register w e) = tracked w ++ [e].
Proof.
  unfold register, tracked. rewrite addElement_eq.
  destruct (strategy (this w)) as [l|l vb b] eqn:Hs.
  - rewrite addElement_observing_eq. cbn. rewrite Hs, flat_map_app. reflexivity.
  - rewrite addElement_polling_eq. cbn. rewrite Hs. reflexivity.
Qed.

Lemma once_per_registration_register w e :
  once_per_registration w -> once_per_registration (register w e).
Proof.
  intros H x. specialize (H x). unfold tracked_count, registered_count in *.
  rewrite animateIn_count_register, tracked_register_any, added_register,
    !count_occ_app.
  (unfold elem_id in *; lia).
Qed.

Lemma once_per_registration_activated w e ty w' :
  once_per_registration w ->
  calls w' = calls (activated e ty w) ->
  (forall x, (count_occ Nat.eq_dec (tracked w') x
              + (if bool_decide (e = x) then 1 else 0)
              <= count_occ Nat.eq_dec (tracked w) x)%nat) ->
  once_per_registration w'.
Proof.
  intros H Hcalls Htr x. specialize (H x). specialize (Htr x).
  unfold tracked_count, registered_count in *.
  assert (Ha : animateIn_count x w'
               = (animateIn_count x w + if bool_decide (e = x) then 1 else 0)%nat).
  { rewrite <- animateIn_count_activated with (ty := ty).
    unfold animateIn_count. rewrite Hcalls. reflexivity. }
  assert (Hr : added (calls w') = added (calls w)).
  { rewrite Hcalls. unfold activated. cbn [calls].
    rewrite added_app. cbn [added flat_map]. rewrite added_counting_calls.
    simpl. apply app_nil_r. }
  rewrite Ha, Hr. (unfold elem_id in *; lia).
Qed.

(** One event, and the constructor. *)
Lemma once_per_registration_rule :
  (forall w ev,
     well_formed w -> tracked_marked w -> once_per_registration w ->
     well_formed (step w ev) /\ tracked_marked (step w ev)
     /\ once_per_registration (step w ev))
  /\ (forall window document page settings,
        once_per_registration (initial window page settings) ->
        well_formed (constructed window document page settings)
        /\ tracked_marked (constructed window document page settings)
        /\ once_per_registration (constructed window document page settings)).
Proof.
  apply (marked_invariant_rule once_per_registration).
  - intros w0 e _ H _. apply once_per_registration_register, H.
  - intros w0 e H. apply (once_per_registration_keep w0); try done.
    + intros x. rewrite animateIn_count_called. simpl. (unfold elem_id in *; lia).
    + cbn. rewrite added_app. simpl. apply app_nil_r.
  - intros w0 i e ty _ H Hi _.
    apply (once_per_registration_activated w0 e ty); [exact H|reflexivity|].
    intros x. unfold tracked. cbn. unfold jazzyElements_of in Hi.
    destruct (strategy (this w0)) as [l|l vb b]; [inversion Hi|].
    pose proof (count_occ_splice1 i l e x Hi). unfold elem_id in *. lia.
  - intros w0 l o obs e ty _ H Hs Ho He _.
    apply (once_per_registration_activated w0 e ty); [exact H|reflexivity|].
    intros x. unfold tracked, disconnected, disconnect. cbn. rewrite Hs.
    pose proof (count_occ_disconnected o (observers w0) obs x Ho) as Hc.
    case_bool_decide as Hex; [subst x|unfold elem_id in *; lia].
    pose proof (count_occ_elem_of _ _ He). (unfold elem_id in *; lia).
  - intros w0 counter t H.
    destruct (counted_keeps counter t w0) as (_ & _ & _ & Hcalls & _).
    apply (once_per_registration_keep w0); [exact H| | |].
    + intros x. unfold animateIn_count. rewrite Hcalls. reflexivity.
    + apply tracked_counted.
    + rewrite Hcalls. reflexivity.
  - intros w0 b H. apply (once_per_registration_keep w0); try done.
    unfold tracked. cbn. destruct (strategy (this w0)); reflexivity.
  - intros w0 vb H. apply (once_per_registration_keep w0); try done.
    unfold tracked. cbn. destruct (strategy (this w0)); reflexivity.
Qed.

(** One action of the platform or of the page. *)
Lemma once_per_registration_act w a :
  keeps_marker w a ->
  well_formed w /\ tracked_marked w /\ once_per_registration w ->
  well_formed (act w a) /\ tracked_marked (act w a)
  /\ once_per_registration (act w a).
Proof.
  intros Hkeep (Hwf & Htm & Hq).
  destruct a as [ev|e|e classes|e name value|e name]; cbn [act].
  - apply (proj1 once_per_registration_rule); assumption.
  - split; [apply well_formed_register, Hwf|].
    split; [|apply once_per_registration_register, Hq].
    intros x Hx. rewrite tracked_register_any in Hx. rewrite marker_register.
    apply elem_of_app in Hx as [Hx|Hx]; [apply Htm, Hx|].
    apply list_elem_of_singleton in Hx. subst x. exact Hkeep.
  - split; [exact Hwf|]. split.
    + intros x Hx. specialize (Htm x Hx). unfold marker in *. cbn.
      destruct (decide (e = x)) as [->|Hne].
      * rewrite lookup_total_insert_eq. exact Htm.
      * rewrite lookup_total_insert_ne by done. exact Htm.
    + apply (once_per_registration_keep w); done.
  - split; [exact Hwf|]. split.
    + intros x Hx. specialize (Htm x Hx). unfold marker in *. cbn.
      destruct (decide (e = x)) as [->|Hne].
      * rewrite lookup_total_insert_eq. cbn.
        destruct (decide (name = "data-jazzy-scroll")) as [->|Hn].
        -- rewrite lookup_insert_eq. eexists. reflexivity.
        -- rewrite lookup_insert_ne by done. exact Htm.
      * rewrite lookup_total_insert_ne by done. exact Htm.
    + apply (once_per_registration_keep w); done.
  - split; [exact Hwf|]. split.
    + intros x Hx. specialize (Htm x Hx). unfold marker in *. cbn.
      destruct (decide (e = x)) as [->|Hne].
      * rewrite lookup_total_insert_eq. cbn.
        destruct (decide (name = "data-jazzy-scroll")) as [->|Hn].
        -- exfalso. exact (Hkeep eq_refl Hx).
        -- rewrite lookup_delete_ne by done. exact Htm.
      * rewrite lookup_total_insert_ne by done. exact Htm.
    + apply (once_per_registration_keep w); done.
Qed.

Lemma once_per_registration_run acts w :
  keeps_markers w acts ->
  well_formed w /\ tracked_marked w /\ once_per_registration w ->
  once_per_registration (page_run acts w).
Proof.
  revert w. induction acts as [|a acts IH]; intros w Hkeep Hinv.
  - apply Hinv.
  - destruct Hkeep as [Ha Hrest].
    change (page_run (a :: acts) w) with (page_run acts (act w a)).
    apply IH; [exact Hrest|]. apply once_per_registration_act; assumption.
Qed.

(** C2, as the code has it. Count the calls of [addElement] on an element,
    whoever makes them: the constructor, the watcher, or the page through
    the public method. Whatever the platform delivers and however the page
    changes classes and attributes, as long as the page registers only
    elements that carry the marker and does not strip the marker from an
    element that is tracked, the calls of [animateIn] on an element and
    the entries that still track it are together at most the
    registrations of it. So [animateIn] is called at most once on an
    element that has been registered once, and when every registration of
    an element has been used, the element is tracked no more. *)
Theorem activated_once_per_registration
    window document page settings acts e :
  keeps_markers (constructed window document page settings) acts ->
  let w := page_run acts (constructed window document page settings) in
  (animateIn_count e w + tracked_count e w <= registered_count e w)%nat
  /\ ((registered_count e w <= 1)%nat -> (animateIn_count e w <= 1)%nat)
  /\ (animateIn_count e w = registered_count e w -> e ∉ tracked w).
Proof.
  intros Hkeep w.
  assert (H : once_per_registration w).
  { apply once_per_registration_run; [exact Hkeep|].
    apply (proj2 once_per_registration_rule). intros x.
    unfold tracked_count, registered_count, animateIn_count, tracked, initial.
    cbn. destruct (supportsIntersectionObserver window); cbn; lia. }
  specialize (H e). split; [exact H|]. split; [unfold elem_id in *; lia|].
  intros Heq He. pose proof (count_occ_elem_of _ _ He) as H1.
  unfold tracked_count in H. (unfold elem_id in *; lia).
Qed.

Lemma activated_once_per_registration_witness :
  let acts := [Platform (AnimationFrame layout_100);
               PageSetClasses 1%nat [];
               PageAddElement 1%nat;
               Platform (AnimationFrame layout_100);
               PageRemoveAttribute 1%nat "data-jazzy-scroll"] in
  let w := page_run acts
             (constructed (desktop false) one_element page_counter bootstrap) in
  (animateIn_count 1%nat w + tracked_count 1%nat w <= registered_count 1%nat w)%nat
  /\ ((registered_count 1%nat w <= 1)%nat -> (animateIn_count 1%nat w <= 1)%nat)
  /\ (animateIn_count 1%nat w = registered_count 1%nat w -> 1%nat ∉ tracked w).
Proof.
  apply (activated_once_per_registration (desktop false) one_element
           page_counter bootstrap
           [Platform (AnimationFrame layout_100);
            PageSetClasses 1%nat [];
            PageAddElement 1%nat;
            Platform (AnimationFrame layout_100);
            PageRemoveAttribute 1%nat "data-jazzy-scroll"] 1%nat).
  vm_compute. repeat split; [eexists; reflexivity|].
  intros _ H. inversion H.
Defined.

(** C2, as stated, fails: an element that the page moves while it is still
    pending is reported by the watcher and registered a second time. Under
    polling the next pass calls [animateIn] on it twice; under observation
    it has two observers, each of which calls [animateIn] when it is
    notified. *)
Lemma moved_element_is_activated_twice :
  let polled := run [moved 1%nat; AnimationFrame layout_100]
                    (constructed (desktop false) one_element page_counter
                       bootstrap) in
  let seen := {| target := 1%nat; isIntersecting := true;
                 boundingClientRect_top := Q2Qc 100 |} in
  let observed := run [moved 1%nat; Intersection 0 [seen]; Intersection 1 [seen]]
                      (constructed (desktop true) one_element page_counter
                         bootstrap) in
  ~ (animateIn_count 1%nat polled <= 1)%nat
  /\ ~ (animateIn_count 1%nat observed <= 1)%nat.
Proof.
  intros polled seen observed.
  assert (H : animateIn_count 1%nat polled = 2%nat) by (vm_compute; reflexivity).
  assert (H' : animateIn_count 1%nat observed = 2%nat) by (vm_compute; reflexivity).
  rewrite H, H'. lia.
Qed.

(** ** The polling pass *)

Lemma init_outcome layout w :
  (forall x, x ∈ jazzyElements_of w -> is_Some (marker w x)) ->
  exists w' cs,
    init layout w = Return tt w'
    /\ calls w' = calls w ++ cs
    /\ evaluated cs = rev (jazzyElements_of w)
    /\ (jazzyElements_of w' `sublist_of` jazzyElements_of w)
    /\ forall x, always_inViewport layout w x ->
         (x ∉ jazzyElements_of w')
         /\ (x ∈ jazzyElements_of w -> x ∈ animated cs).
Proof.
  intros Hmark.
  destruct (init_loop_outcome layout (length (jazzyElements_of w)) w)
    as (w' & cs & kept & Hret & Hcalls & Hev & Hjz & Hsub & _ & Hsure).
  { lia. }
  { intros x Hx. rewrite firstn_all in Hx. apply Hmark, Hx. }
  rewrite firstn_all in Hev, Hsub, Hsure.
  rewrite drop_all, app_nil_r in Hjz.
  exists (set_frameRequested true w'), cs.
  assert (Hjz' : jazzyElements_of (set_frameRequested true w') = kept).
  { rewrite <- Hjz. unfold jazzyElements_of. cbn.
    destruct (strategy (this w')); reflexivity. }
  rewrite Hjz'.
  split; [|split; [exact Hcalls|split; [exact Hev|split; [exact Hsub|exact Hsure]]]].
  unfold init. run_monad. rewrite Hret. reflexivity.
Qed.

Lemma reachable_marked window document page settings evs x :
  x ∈ jazzyElements_of (run evs (constructed window document page settings)) ->
  is_Some (marker (run evs (constructed window document page settings)) x).
Proof.
  intros Hx.
  apply (tracked_marked_reachable window document page settings evs).
  apply jazzyElements_tracked, Hx.
Qed.

(** C9, as the code has it. At any time after construction, a polling
    pass returns, and the elements it has evaluated are those of the
    collection as it stood at the start of the pass, from the last to the
    first: each entry is evaluated exactly once, none is skipped and none
    is visited again, whatever was removed on the way. An element is
    evaluated as often as it has entries: once when the collection lists
    no element twice. *)
Theorem pass_evaluates_every_entry_once
    window document page settings evs layout :
  let w := run evs (constructed window document page settings) in
  exists w' cs,
    init layout w = Return tt w'
    /\ calls w' = calls w ++ cs
    /\ evaluated cs = rev (jazzyElements_of w)
    /\ (forall x, count_occ Nat.eq_dec (evaluated cs) x
                  = count_occ Nat.eq_dec (jazzyElements_of w) x)
    /\ (NoDup (jazzyElements_of w) ->
        forall x, x ∈ jazzyElements_of w ->
                  count_occ Nat.eq_dec (evaluated cs) x = 1%nat).
Proof.
  intros w.
  destruct (init_outcome layout w
              (reachable_marked window document page settings evs))
    as (w' & cs & Hret & Hcalls & Hev & _).
  exists w', cs. split; [exact Hret|]. split; [exact Hcalls|].
  split; [exact Hev|].
  assert (Hcount : forall x, count_occ Nat.eq_dec (evaluated cs) x
                             = count_occ Nat.eq_dec (jazzyElements_of w) x).
  { intros x. rewrite Hev. apply count_occ_rev. }
  split; [exact Hcount|].
  intros Hnd x Hx. rewrite Hcount.
  apply NoDup_ListNoDup in Hnd.
  apply (proj1 (List.NoDup_count_occ' Nat.eq_dec _) Hnd).
  apply list_elem_of_In, Hx.
Qed.

(** C9, as stated of elements, fails: [addElement] does not look whether
    an element is tracked already, so an element that the page moves while
    it is pending has two entries, and a pass evaluates it twice. *)
Lemma element_tracked_twice_is_evaluated_twice :
  let w := run [moved 1%nat]
               (constructed (desktop false) one_element page_counter bootstrap) in
  ~ (forall layout w' cs x,
       init layout w = Return tt w' ->
       calls w' = calls w ++ cs ->
       x ∈ jazzyElements_of w ->
       count_occ Nat.eq_dec (evaluated cs) x = 1%nat).
Proof.
  intros w H.
  specialize (H layout_100 (world_of (init layout_100 w))
                (drop (length (calls w)) (calls (world_of (init layout_100 w))))
                1%nat).
  assert (H2 : count_occ Nat.eq_dec
                 (evaluated (drop (length (calls w))
                               (calls (world_of (init layout_100 w))))) 1%nat
               = 2%nat) by (vm_compute; reflexivity).
  rewrite H in H2; [discriminate H2| | |].
  - vm_compute. reflexivity.
  - vm_compute. reflexivity.
  - vm_compute. left.
Qed.

(** A pass over the three elements of the section, none of which is in
    view: they are evaluated from the last to the first and all kept. *)
Example pass_over_section :
  let w := constructed (desktop false) [section_tree] page_section bootstrap in
  let layout : Layout := fun _ _ => Q2Qc 900 in
  jazzyElements_of w = [1%nat; 2%nat; 3%nat]
  /\ evaluated (calls (world_of (init layout w))) = [3%nat; 2%nat; 1%nat]
  /\ jazzyElements_of (world_of (init layout w)) = [1%nat; 2%nat; 3%nat].
Proof. vm_compute. repeat split; reflexivity. Qed.

(** The same pass with the heading in view: it is removed in place, and the
    section before it is still evaluated. *)
Example pass_over_section_removes :
  let w := constructed (desktop false) [section_tree] page_section bootstrap in
  let layout : Layout :=
    fun _ e => if bool_decide (e = 2%nat) then Q2Qc 100 else Q2Qc 900 in
  evaluated (calls (world_of (init layout w))) = [3%nat; 2%nat; 1%nat]
  /\ animated (calls (world_of (init layout w))) = [2%nat]
  /\ jazzyElements_of (world_of (init layout w)) = [1%nat; 3%nat].
Proof. vm_compute. repeat split; reflexivity. Qed.

(** C6. The boundary of the test is inclusive: at any time after
    construction, an element of the collection whose top is exactly the
    viewport height less its offset passes [isInViewport], and the pass
    activates it: it hands it to [animateIn], which returns, the element
    carries the completion class when the pass is over, and it is no
    longer in the collection. *)
Theorem boundary_is_inclusive
    window document page settings evs layout e (H : Z) (o : Qc) :
  let w := run evs (constructed window document page settings) in
  viewportBottom_of w = H ->
  jazzyOffset (elements w !!! e) = Some (Fin o) ->
  (forall els, layout els e = (Z2Qc H - o)%Qc) ->
  e ∈ jazzyElements_of w ->
  inViewport layout w e = true
  /\ exists w' cs,
       init layout w = Return tt w'
       /\ calls w' = calls w ++ cs
       /\ e ∈ animated cs
       /\ "animated-in" ∈ classList (elements w' !!! e)
       /\ e ∉ jazzyElements_of w'.
Proof.
  intros w Hvb Hoff Htop He.
  assert (Hsure : always_inViewport layout w e).
  { intros els. rewrite Hoff, Hvb, Htop. cbn [ToNumber_property add].
    apply le_Fin. unfold Z2Qc.
    replace (Q2Qc (inject_Z H) - o + o)%Qc with (Q2Qc (inject_Z H)) by ring.
    apply Qcle_refl. }
  split; [apply Hsure|].
  destruct (init_outcome layout w
              (reachable_marked window document page settings evs))
    as (w' & cs & Hret & Hcalls & _ & _ & Hout).
  destruct (Hout e Hsure) as [Hgone Han].
  exists w', cs.
  split; [exact Hret|]. split; [exact Hcalls|]. split; [exact (Han He)|].
  split; [|exact Hgone].
  destruct (strategy (this w)) as [l|l vb b] eqn:Hs.
  { unfold jazzyElements_of in He. rewrite Hs in He. inversion He. }
  destruct (init_result layout w l vb b Hs)
    as (w2 & cs2 & kept & Hret2 & Hcalls2 & _ & _ & _ & _ & _ & _ & _ & _ & _
        & Hcls & _).
  { intros x Hx.
    apply (reachable_marked window document page settings evs).
    unfold jazzyElements_of. fold w. rewrite Hs. exact Hx. }
  rewrite Hret in Hret2. injection Hret2 as <-.
  rewrite Hcalls in Hcalls2. apply app_inv_head in Hcalls2. subst cs2.
  apply Hcls. right. exact (Han He).
Qed.

Lemma boundary_is_inclusive_witness :
  let w := run [] (constructed (desktop false) [section_tree] page_section
                     bootstrap) in
  let layout : Layout := fun _ _ => Q2Qc 550 in
  inViewport layout w 1%nat = true
  /\ exists w' cs,
       init layout w = Return tt w'
       /\ calls w' = calls w ++ cs
       /\ 1%nat ∈ animated cs
       /\ "animated-in" ∈ classList (elements w' !!! 1%nat)
       /\ 1%nat ∉ jazzyElements_of w'.
Proof.
  intros w layout.
  apply (boundary_is_inclusive (desktop false) [section_tree] page_section
           bootstrap [] layout 1%nat 600 (Q2Qc 50)).
  - vm_compute. reflexivity.
  - vm_compute. reflexivity.
  - intros els. apply Qc_is_canon. vm_compute. reflexivity.
  - vm_compute. left.
Defined.

(** ** The watcher *)




(** ** The shared options object *)

Lemma append_list_ascii (a b : string) :
  list_ascii_of_string (a ++ b)
  = (list_ascii_of_string a ++ list_ascii_of_string b)%list.
Proof. induction a as [|c a IH]; simpl; [reflexivity | rewrite IH; reflexivity]. Qed.

Lemma append_inv_tail (a b t : string) : (a ++ t = b ++ t)%string -> a = b.
Proof.
  intros H. apply (f_equal list_ascii_of_string) in H.
  rewrite !append_list_ascii in H. apply app_inv_tail in H.
  rewrite <- (string_of_list_ascii_of_string a),
          <- (string_of_list_ascii_of_string b), H. reflexivity.
Qed.

Lemma append_inv_head (p a b : string) : (p ++ a = p ++ b)%string -> a = b.
Proof.
  induction p as [|c p IH]; intros H.
  - exact H.
  - change (String c (p ++ a) = String c (p ++ b))%string in H.
    injection H as H. apply IH, H.
Qed.

Lemma to_int_not_nil z :
  Z.to_int z <> Decimal.Pos Decimal.Nil /\ Z.to_int z <> Decimal.Neg Decimal.Nil.
Proof.
  pose proof (DecimalZ.to_of (Z.to_int z)) as H.
  rewrite DecimalZ.of_to in H.
  split; intros Hnil; rewrite Hnil in H; discriminate H.
Qed.

Lemma Z_to_string_inj a b : Z_to_string a = Z_to_string b -> a = b.
Proof.
  unfold Z_to_string. intros H.
  apply (f_equal NilZero.int_of_string) in H.
  destruct (to_int_not_nil a) as [Ha1 Ha2], (to_int_not_nil b) as [Hb1 Hb2].
  rewrite !NilZero.isi in H by assumption.
  injection H as H. apply DecimalZ.to_int_inj, H.
Qed.

Lemma mul_minus_one z : mul (ofZ z) (ofZ (-1)) = ofZ (- z).
Proof.
  unfold mul, ofZ. f_equal. apply Qc_is_canon. simpl.
  rewrite !Qred_correct. unfold Qeq. simpl. lia.
Qed.

(** Distinct whole offsets make distinct margins. *)
Lemma margin_of_inj a b : margin_of (ofZ a) = margin_of (ofZ b) -> a = b.
Proof.
  unfold margin_of. rewrite !mul_minus_one, !RampFacts.NumberToString_ofZ.
  intros H. apply append_inv_head in H.
  apply append_inv_tail, Z_to_string_inj in H. lia.
Qed.

Lemma register_observing w l e :
  strategy (this w) = Observing l ->
  addElement_observing l e w = Return tt (register w e).
Proof.
  intros Hs. rewrite <- addElement_returns, addElement_eq, Hs. reflexivity.
Qed.


Lemma register_observing_world w l e :
  strategy (this w) = Observing l ->
  register w e =
  {| elements := <[e := set_options l (registered (this w) (elements w !!! e))]>
                   (elements w);
     heap := alter (set_rootMargin
                      (margin_of (parseInt (resolved_offset (this w)
                                              (elements w !!! e))))) l (heap w);
     observers := observers w ++
       [ {| io_rootMargin :=
              rootMargin (alter (set_rootMargin
                                   (margin_of (parseInt (resolved_offset (this w)
                                                 (elements w !!! e))))) l (heap w)
                          !!! l);
            io_threshold :=
              threshold (alter (set_rootMargin
                                  (margin_of (parseInt (resolved_offset (this w)
                                                (elements w !!! e))))) l (heap w)
                         !!! l);
            io_observed := [e] |} ];
     this := this w;
     counters := counters w;
     calls := calls w ++ [CallAddElement e] |}.
Proof.
  intros Hs. unfold register. rewrite addElement_eq, Hs, addElement_observing_eq.
  reflexivity.
Qed.

Lemma altered_margin (hp : gmap loc Options) l m :
  is_Some (hp !! l) ->
  rootMargin (alter (set_rootMargin m) l hp !!! l) = m
  /\ threshold (alter (set_rootMargin m) l hp !!! l) = threshold (hp !!! l).
Proof.
  intros [o Ho]. rewrite lookup_total_alter_eq.
  rewrite (lookup_total_correct _ _ _ Ho), Ho. split; reflexivity.
Qed.

(** C10. In the observer branch every element is given the one options
    object of the engine, and [addElement] overwrites the margin of that
    object. After [addElement] on A and then on B, the [options] of A and
    of B are the same object, whose margin is the one built from B's
    offset; the observer of A was constructed with the margin built from
    A's offset and the observer of B with B's. When the two offsets are
    different whole numbers, the margin A's [options] now shows is not the
    one its observer uses. *)
Theorem shared_options_show_last_margin w l A B :
  strategy (this w) = Observing l ->
  is_Some (heap w !! l) ->
  A <> B ->
  let offA := parseInt (resolved_offset (this w) (elements w !!! A)) in
  let offB := parseInt (resolved_offset (this w) (elements w !!! B)) in
  let wA := register w A in
  let wAB := register wA B in
  Dom.options (elements wAB !!! A) = Some l
  /\ Dom.options (elements wAB !!! B) = Some l
  /\ jazzyOffset (elements wAB !!! A) = Some offA
  /\ jazzyOffset (elements wAB !!! B) = Some offB
  /\ rootMargin (heap wA !!! l) = margin_of offA
  /\ rootMargin (heap wAB !!! l) = margin_of offB
  /\ observers wAB
     = observers w ++
       [ {| io_rootMargin := margin_of offA;
            io_threshold := threshold (heap w !!! l);
            io_observed := [A] |};
         {| io_rootMargin := margin_of offB;
            io_threshold := threshold (heap w !!! l);
            io_observed := [B] |} ]
  /\ (forall a b, offA = ofZ a -> offB = ofZ b -> a <> b ->
        rootMargin (heap wAB !!! l) <> margin_of offA).
Proof.
  intros Hs Hl HAB offA offB wA wAB.
  assert (HwA : wA = _) by apply (register_observing_world w l A Hs).
  assert (HsA : strategy (this wA) = Observing l) by (rewrite HwA; exact Hs).
  assert (HwAB : wAB = _) by apply (register_observing_world wA l B HsA).
  assert (HelB : elements wA !!! B = elements w !!! B).
  { rewrite HwA. cbn [elements]. rewrite lookup_total_insert_ne by done. reflexivity. }
  assert (HthA : this wA = this w) by (rewrite HwA; reflexivity).
  rewrite HelB, HthA in HwAB. fold offB in HwAB.
  assert (HlA : is_Some (heap wA !! l)).
  { rewrite HwA. cbn [heap]. rewrite lookup_alter_eq.
    destruct Hl as [o ->]. eauto. }
  destruct (altered_margin (heap w) l (margin_of offA) Hl) as [HmA HtA].
  destruct (altered_margin (heap wA) l (margin_of offB) HlA) as [HmB HtB].
  assert (HheapA : heap wA = alter (set_rootMargin (margin_of offA)) l (heap w))
    by (rewrite HwA; reflexivity).
  assert (HmarginB : rootMargin (heap wAB !!! l) = margin_of offB).
  { rewrite HwAB. cbn [heap]. exact HmB. }
  split; [|split; [|split; [|split; [|split; [|split; [|split]]]]]].
  - rewrite HwAB. cbn [elements]. rewrite lookup_total_insert_ne by done.
    rewrite HwA. cbn [elements]. rewrite lookup_total_insert_eq. reflexivity.
  - rewrite HwAB. cbn [elements]. rewrite lookup_total_insert_eq. reflexivity.
  - rewrite HwAB. cbn [elements]. rewrite lookup_total_insert_ne by done.
    rewrite HwA. cbn [elements]. rewrite lookup_total_insert_eq. reflexivity.
  - rewrite HwAB. cbn [elements]. rewrite lookup_total_insert_eq. reflexivity.
  - rewrite HheapA. exact HmA.
  - exact HmarginB.
  - rewrite HwAB. cbn [observers]. rewrite HmB, HtB.
    rewrite HwA at 1. cbn [observers]. fold offA. rewrite HmA, HtA.
    rewrite HheapA, HtA, <- app_assoc. reflexivity.
  - intros a b Ha Hb Hne Heq. rewrite HmarginB, Ha, Hb in Heq.
    apply margin_of_inj in Heq. congruence.
Qed.

Lemma shared_options_show_last_margin_witness :
  let w := constructed (desktop true) [] page_section bootstrap in
  let l := 0%nat in
  let A := 1%nat in
  let B := 3%nat in
  let offA := parseInt (resolved_offset (this w) (elements w !!! A)) in
  let offB := parseInt (resolved_offset (this w) (elements w !!! B)) in
  let wA := register w A in
  let wAB := register wA B in
  Dom.options (elements wAB !!! A) = Some l
  /\ Dom.options (elements wAB !!! B) = Some l
  /\ jazzyOffset (elements wAB !!! A) = Some offA
  /\ jazzyOffset (elements wAB !!! B) = Some offB
  /\ rootMargin (heap wA !!! l) = margin_of offA
  /\ rootMargin (heap wAB !!! l) = margin_of offB
  /\ observers wAB
     = observers w ++
       [ {| io_rootMargin := margin_of offA;
            io_threshold := threshold (heap w !!! l);
            io_observed := [A] |};
         {| io_rootMargin := margin_of offB;
            io_threshold := threshold (heap w !!! l);
            io_observed := [B] |} ]
  /\ (forall a b, offA = ofZ a -> offB = ofZ b -> a <> b ->
        rootMargin (heap wAB !!! l) <> margin_of offA).
Proof.
  intros w l A B.
  apply (shared_options_show_last_margin w l A B).
  - vm_compute. reflexivity.
  - vm_compute. eexists. reflexivity.
  - discriminate.
Defined.

(** The margins of the witness, spelled out: the shared object ends up
    with the margin of the last element, while the observer of the first
    keeps its own. *)
Example shared_options_margins :
  let w := constructed (desktop true) [] page_section bootstrap in
  let wAB := register (register w 1%nat) 3%nat in
  rootMargin (heap wAB !!! 0%nat) = "0px 0px 20px 0px"
  /\ io_rootMargin <$> observers wAB = ["0px 0px -50px 0px"; "0px 0px 20px 0px"].
Proof. vm_compute. split; reflexivity. Qed.


(** ** The counter *)

Import Ramp RampFacts.

Lemma step_started s e d st t :
  d <> 0%Qc ->
  Ramp.step (started s e d st) t = frame_at s e d (restart st t) t.
Proof.
  intros Hd. unfold Ramp.step, frame_at, restart.
  assert (Hc : set_startTimestamp (started s e d st) t
               = started s e d (if Qc_eqb st 0 then t else st)).
  { unfold set_startTimestamp, not_startTimestamp, started.
    cbn [startTimestamp ToBoolean]. rewrite negb_involutive.
    destruct (Qc_eqb st 0); reflexivity. }
  rewrite Hc, displayed_started, requested_started, NumberToString_ofZ by exact Hd.
  reflexivity.
Qed.

Lemma first_step s e d t0 :
  d <> 0%Qc ->
  Ramp.step (Ramp.animateNumber (ofZ s) (ofZ e) (VNum (Fin d))) t0 = frame_at s e d t0 t0.
Proof.
  intros Hd. unfold Ramp.step, frame_at. rewrite first_frame.
  rewrite displayed_started, requested_started, NumberToString_ofZ by exact Hd.
  reflexivity.
Qed.












(** The documented example, frame by frame: from 0 to 100 over 800 ms. *)
Example counter_0_100_800 :
  map (fun f => (Ramp.textContent f, requested f))
      (frames (Ramp.animateNumber (ofZ 0) (ofZ 100) (VNum (ofZ 800)))
              [Q2Qc 1000; Q2Qc 1400; Q2Qc (3001 # 2); Q2Qc 1800; Q2Qc 1900])
  = [("0", true); ("50", true); ("62", true); ("100", false)].
Proof. vm_compute. reflexivity. Qed.


Example counter_zero_duration :
  map (fun f => (Ramp.textContent f, requested f))
      (frames (Ramp.animateNumber (ofZ 0) (ofZ 100) (VNum (ofZ 0)))
              [Q2Qc 1000; Q2Qc 1400])
  = [("NaN", false)].
Proof. vm_compute. reflexivity. Qed.

(** A first frame at clock reading zero leaves [startTimestamp] falsy: the
    next frame starts the clock again. *)
Example counter_clock_zero :
  map (fun f => (Ramp.textContent f, requested f))
      (frames (Ramp.animateNumber (ofZ 0) (ofZ 100) (VNum (ofZ 800)))
              [Q2Qc 0; Q2Qc 800; Q2Qc 1200; Q2Qc 1600])
  = [("0", true); ("0", true); ("50", true); ("100", false)].
Proof. vm_compute. reflexivity. Qed.

Example counter_negative_duration :
  map (fun f => (Ramp.textContent f, requested f))
      (frames (Ramp.animateNumber (ofZ 0) (ofZ 100) (VNum (ofZ (-800))))
              [Q2Qc 1000; Q2Qc 1400; Q2Qc 1800])
  = [("0", true); ("-50", true); ("-100", true)].
Proof. vm_compute. reflexivity. Qed.

End Claims.

(** * Further properties of the engine

    What the two strategies, the watcher, the counters and the bootstrap
    script do on their edges and across a whole run. *)

Module Extras.
Import Js Dom Jazzy Examples MoreExamples.
Local Open Scope jazzy_scope.

(** ** What holds of the polling branch after any run *)

Lemma well_formed_reachable window document page settings evs :
  well_formed (run evs (constructed window document page settings)).
Proof.
  assert (H : well_formed (run evs (constructed window document page settings))
              /\ True); [|exact (proj1 H)].
  apply (invariant_run (fun _ => True) False); try done.
  apply (invariant_constructed (fun _ => True) False); done.
Qed.

Lemma register_strategy w e :
  strategy (this (register w e))
  = match strategy (this w) with
    | Observing o => Observing o
    | Polling l vb b => Polling (l ++ [e]) vb b
    end.
Proof.
  unfold register. rewrite addElement_eq.
  destruct (strategy (this w)) as [o|l vb b] eqn:Hs.
  - rewrite addElement_observing_eq. cbn. exact Hs.
  - rewrite addElement_polling_eq. cbn. rewrite Hs. reflexivity.
Qed.

Lemma register_all_strategy regs w :
  strategy (this (register_all regs w))
  = match strategy (this w) with
    | Observing o => Observing o
    | Polling l vb b => Polling (l ++ regs) vb b
    end.
Proof.
  revert w. induction regs as [|e regs IH]; intros w.
  - simpl. destruct (strategy (this w)); [reflexivity|].
    rewrite app_nil_r. reflexivity.
  - change (register_all (e :: regs) w) with (register_all regs (register w e)).
    rewrite IH, register_strategy. destruct (strategy (this w)); [reflexivity|].
    rewrite <- app_assoc. reflexivity.
Qed.

Lemma register_observers_polling w e l vb b :
  strategy (this w) = Polling l vb b -> observers (register w e) = observers w.
Proof.
  intros Hs. unfold register. rewrite addElement_eq, Hs, addElement_polling_eq.
  reflexivity.
Qed.

Lemma not_deliverable w o entries : observers w = [] -> deliverable w o entries = false.
Proof. intros H. unfold deliverable. rewrite H. reflexivity. Qed.

(** One event in the polling branch, with the loop queued. *)
Lemma step_polling w ev l vb :
  well_formed w ->
  (forall x, x ∈ l -> is_Some (marker w x)) ->
  strategy (this w) = Polling l vb true ->
  exists l',
    strategy (this (step w ev))
    = Polling l' (match ev with Resize h => h | _ => vb end) true.
Proof.
  intros Hwf Hmark Hs. unfold step.
  destruct ev as [layout|h|i t|o entries|ms]; unfold handle;
    cbv [bind get modify ret].
  - unfold frameRequested_of at 1. rewrite Hs.
    destruct (init_result layout (set_frameRequested false w) l vb false)
      as (w' & cs & kept & Hret & _ & Hs' & _).
    { cbn. rewrite Hs. reflexivity. }
    { exact Hmark. }
    rewrite Hret. exists kept. exact Hs'.
  - assert (Hvb : viewportBottom_of w = vb).
    { unfold viewportBottom_of. rewrite Hs. reflexivity. }
    rewrite Hs. unfold on_resize. cbv [bind get modify ret]. exists l.
    case_bool_decide as Hd; cbn.
    + rewrite Hs. reflexivity.
    + rewrite Hs, <- Hd, Hvb. reflexivity.
  - exists l. destruct (counter_queued w i); [|exact Hs].
    change (world_of (counter_step i t w)) with (counted i t w).
    rewrite (proj1 (counted_keeps i t w)). exact Hs.
  - rewrite not_deliverable; [exists l; exact Hs|].
    unfold well_formed in Hwf. rewrite Hs in Hwf. exact Hwf.
  - rewrite mutation_callback_eq. cbn. rewrite register_all_strategy, Hs.
    eexists. reflexivity.
Qed.

Lemma run_snoc evs ev w : run (evs ++ [ev]) w = step (run evs w) ev.
Proof. unfold run. rewrite fold_left_app. reflexivity. Qed.

Lemma last_resize_snoc h0 evs ev :
  last_resize h0 (evs ++ [ev])
  = match ev with Resize h => h | _ => last_resize h0 evs end.
Proof. unfold last_resize. rewrite fold_left_app. reflexivity. Qed.

Lemma constructed_strategy window document page settings :
  strategy (this (constructed window document page settings))
  = if supportsIntersectionObserver window
    then Observing (fresh (dom (∅ : gmap loc Options)))
    else Polling (document_querySelectorAll_jazzy page document)
                 (innerHeight window) true.
Proof.
  rewrite constructed_eq.
  destruct (supportsIntersectionObserver window) eqn:Hsup.
  - unfold id. rewrite register_all_strategy. unfold initial. cbn.
    rewrite Hsup. reflexivity.
  - cbn. rewrite register_all_strategy. unfold initial. cbn. rewrite Hsup.
    reflexivity.
Qed.

Lemma polling_reachable window document page settings evs :
  supportsIntersectionObserver window = false ->
  exists l,
    strategy (this (run evs (constructed window document page settings)))
    = Polling l (last_resize (innerHeight window) evs) true.
Proof.
  intros Hsup. induction evs as [|ev evs IH] using rev_ind.
  - change (run [] (constructed window document page settings))
      with (constructed window document page settings).
    rewrite constructed_strategy, Hsup. eexists. reflexivity.
  - destruct IH as [l Hs]. rewrite run_snoc, last_resize_snoc.
    destruct (step_polling (run evs (constructed window document page settings))
                ev l (last_resize (innerHeight window) evs)) as [l' Hs'].
    + apply well_formed_reachable.
    + intros x Hx. apply tracked_marked_reachable. unfold tracked.
      rewrite Hs. exact Hx.
    + exact Hs.
    + exists l'. rewrite Hs'. destruct ev; reflexivity.
Qed.

(** X1. In the polling branch the loop never stops: after construction and
    after every event that follows, [init] is queued for the next frame,
    whether or not any element is left in the collection. *)
Theorem polling_loop_is_always_queued window document page settings evs :
  supportsIntersectionObserver window = false ->
  frameRequested_of (run evs (constructed window document page settings)) = true.
Proof.
  intros Hsup.
  destruct (polling_reachable window document page settings evs Hsup) as [l Hs].
  unfold frameRequested_of. rewrite Hs. reflexivity.
Qed.

Lemma polling_loop_is_always_queued_witness :
  frameRequested_of
    (run [AnimationFrame layout_100; Resize 400; AnimationFrame layout_100]
         (constructed (desktop false) one_element page_counter bootstrap)) = true.
Proof.
  apply (polling_loop_is_always_queued (desktop false)). reflexivity.
Defined.

(** X2. In the polling branch the cached viewport height is the height of
    the last resize the listener has seen, and the height read at
    construction if it has seen none: no other event changes it. *)
Theorem viewport_height_follows_resize window document page settings evs :
  supportsIntersectionObserver window = false ->
  viewportBottom_of (run evs (constructed window document page settings))
  = last_resize (innerHeight window) evs.
Proof.
  intros Hsup.
  destruct (polling_reachable window document page settings evs Hsup) as [l Hs].
  unfold viewportBottom_of. rewrite Hs. reflexivity.
Qed.

Lemma viewport_height_follows_resize_witness :
  viewportBottom_of
    (run [Resize 400; AnimationFrame layout_100; Resize 720; moved 1%nat]
         (constructed (desktop false) one_element page_counter bootstrap))
  = last_resize (innerHeight (desktop false))
      [Resize 400; AnimationFrame layout_100; Resize 720; moved 1%nat].
Proof.
  apply (viewport_height_follows_resize (desktop false)). reflexivity.
Defined.


(** ** The document after a run *)

Lemma only_marked_same page w w' :
  only_marked page w ->
  (forall x, attributes (elements w' !!! x) = attributes (elements w !!! x)
             /\ classList (elements w' !!! x) = classList (elements w !!! x)) ->
  (forall x, animateIn_count x w' = animateIn_count x w) ->
  only_marked page w'.
Proof.
  intros H Hels Hcount x. destruct (H x) as [Ha Hc], (Hels x) as [Ha' Hc'].
  rewrite Ha', Hc', Hcount. split; assumption.
Qed.

Lemma classList_add_idempotent token el :
  classList (classList_add token (classList_add token el))
  = classList (classList_add token el).
Proof.
  unfold classList_add. cbn.
  destruct (bool_decide (token ∈ classList el)) eqn:Hin.
  - rewrite Hin. reflexivity.
  - rewrite bool_decide_eq_true_2; [reflexivity|].
    apply elem_of_app. right. apply list_elem_of_singleton. reflexivity.
Qed.

Lemma only_marked_activated page e ty w w' :
  only_marked page w ->
  elements w' = elements (activated e ty w) ->
  calls w' = calls (activated e ty w) ->
  only_marked page w'.
Proof.
  intros H Hels Hcalls x.
  assert (Hcount : animateIn_count x w'
                   = (animateIn_count x w + if bool_decide (e = x) then 1 else 0)%nat).
  { rewrite <- animateIn_count_activated with (ty := ty).
    unfold animateIn_count. rewrite Hcalls. reflexivity. }
  destruct (H x) as [Ha Hc]. rewrite Hels, Hcount.
  destruct (activated_keeps e ty w x) as [_ Hattr]. rewrite Hattr.
  split; [exact Ha|].
  unfold activated. cbn [elements].
  destruct (decide (e = x)) as [->|Hex].
  - rewrite lookup_total_insert_eq, (bool_decide_eq_true_2 (x = x)) by reflexivity.
    rewrite (bool_decide_eq_false_2 (_ + 1 = 0)%nat) by lia.
    destruct (bool_decide (animateIn_count x w = 0%nat)).
    + unfold classList_add at 1. cbn [classList]. rewrite Hc. reflexivity.
    + unfold classList_add at 1. cbn [classList]. rewrite Hc.
      apply classList_add_idempotent.
  - rewrite lookup_total_insert_ne by done.
    rewrite (bool_decide_eq_false_2 (e = x)) by done.
    rewrite Nat.add_0_r. exact Hc.
Qed.

Lemma only_marked_reachable window document page settings evs :
  only_marked page (run evs (constructed window document page settings)).
Proof.
  apply (marked_invariant_reachable (only_marked page)).
  - intros w e _ H _. apply (only_marked_same page w); [exact H| |].
    + intros x. destruct (register_same_document w e x) as (-> & -> & _). done.
    + intros x. apply animateIn_count_register.
  - intros w e H. apply (only_marked_same page w); [exact H|done|].
    intros x. rewrite animateIn_count_called. simpl. lia.
  - intros w i e ty _ H _ _. apply (only_marked_activated page e ty w); done.
  - intros w l o obs e ty _ H _ _ _ _.
    apply (only_marked_activated page e ty w); done.
  - intros w counter t H. apply (only_marked_same page w); [exact H| |].
    + intros x.
      destruct (counted_keeps counter t w) as (_ & _ & _ & _ & Hx).
      destruct (Hx x) as (-> & -> & _). done.
    + intros x. unfold animateIn_count.
      destruct (counted_keeps counter t w) as (_ & _ & _ & -> & _). done.
  - intros w b H. apply (only_marked_same page w); done.
  - intros w vb H. apply (only_marked_same page w); done.
  - intros x. split; reflexivity.
Qed.

(** X3. Whatever has happened since construction, the engine has changed
    no attribute of any element other than [class] and [style], and the
    classes of an element are the ones the page gave it, with the
    completion class added exactly when the element has been handed to
    [animateIn]: no class is ever removed and no other class is added. *)
Theorem only_the_completion_class_is_added
    window document page settings evs x :
  let w := run evs (constructed window document page settings) in
  (forall name, name <> "class" -> name <> "style" ->
     attributes (elements w !!! x) !! name = attributes (page !!! x) !! name)
  /\ classList (elements w !!! x)
     = if bool_decide (animateIn_count x w = 0%nat)
       then classList (page !!! x)
       else classList (classList_add "animated-in" (page !!! x)).
Proof.
  intros w.
  destruct (only_marked_reachable window document page settings evs x)
    as [Ha Hc].
  fold w in Ha, Hc. split; [|exact Hc].
  intros name _ _. rewrite Ha. reflexivity.
Qed.

Lemma only_the_completion_class_is_added_witness :
  let w := run [AnimationFrame layout_100]
               (constructed (desktop false) one_element page_counter bootstrap) in
  attributes (elements w !!! 1%nat) !! "data-jazzy-scroll"
  = attributes (page_counter !!! 1%nat) !! "data-jazzy-scroll"
  /\ classList (elements w !!! 1%nat)
     = if bool_decide (animateIn_count 1%nat w = 0%nat)
       then classList (page_counter !!! 1%nat)
       else classList (classList_add "animated-in" (page_counter !!! 1%nat)).
Proof.
  intros w.
  destruct (only_the_completion_class_is_added (desktop false) one_element
              page_counter bootstrap [AnimationFrame layout_100] 1%nat)
    as [Ha Hc].
  split; [apply Ha; discriminate | exact Hc].
Defined.

(** ** The polling pass, seen from a run *)

(** X4. With a layout that does not move when a class is added, a polling
    pass started at any time after construction returns, leaves in the
    collection exactly the elements that fail the viewport test, in their
    order, and has handed the others to [animateIn], from the last to the
    first. *)
Theorem pass_partitions_the_collection
    window document page settings evs layout :
  static layout ->
  let w := run evs (constructed window document page settings) in
  exists w' cs,
    init layout w = Return tt w'
    /\ calls w' = calls w ++ cs
    /\ jazzyElements_of w'
       = List.filter (fun x => negb (inViewport layout w x)) (jazzyElements_of w)
    /\ animated cs = rev (List.filter (inViewport layout w) (jazzyElements_of w)).
Proof.
  intros Hst w.
  destruct (strategy (this w)) as [o|l vb b] eqn:Hs.
  - exists (set_frameRequested true w), [].
    unfold init, jazzyElements_of. cbv [bind get]. cbn [this strategy set_frameRequested with_strategy].
    rewrite Hs. simpl. rewrite app_nil_r. done.
  - destruct (init_result layout w l vb b Hs)
      as (w' & cs & kept & Hret & Hcalls & Hs' & _ & _ & _ & _ & _ & _ & _ & _ & _ & _
          & Hstatic).
    { intros x Hx. apply (tracked_marked_reachable window document page settings evs).
      unfold tracked. fold w. rewrite Hs. exact Hx. }
    destruct (Hstatic Hst) as [Hk Ha].
    exists w', cs. unfold jazzyElements_of. rewrite Hs', Hs.
    split; [exact Hret|]. split; [exact Hcalls|]. split; [exact Hk | exact Ha].
Qed.

Lemma pass_partitions_the_collection_witness :
  let layout : Layout :=
    fun _ e => if bool_decide (e = 2%nat) then Q2Qc 100 else Q2Qc 900 in
  let w := run [] (constructed (desktop false) [section_tree] page_section
                     bootstrap) in
  exists w' cs,
    init layout w = Return tt w'
    /\ calls w' = calls w ++ cs
    /\ jazzyElements_of w'
       = List.filter (fun x => negb (inViewport layout w x)) (jazzyElements_of w)
    /\ animated cs = rev (List.filter (inViewport layout w) (jazzyElements_of w)).
Proof.
  apply (pass_partitions_the_collection (desktop false) [section_tree]
           page_section bootstrap []).
  intros els els' e. reflexivity.
Defined.

(** *** An offset that does not parse *)

Lemma not_animated_count e cs :
  e ∉ animated cs -> List.filter (is_animateIn e) cs = [].
Proof.
  induction cs as [|c cs IH]; [reflexivity|]. intros Hn. simpl.
  destruct c as [x|x|x|x s en d]; simpl in *; try (apply IH, Hn).
  case_bool_decide as Hx.
  - subst x. exfalso. apply Hn. left.
  - apply IH. intros Hin. apply Hn. right. exact Hin.
Qed.

Lemma animateIn_count_app e w w' cs :
  calls w' = calls w ++ cs -> e ∉ animated cs ->
  animateIn_count e w' = animateIn_count e w.
Proof.
  intros Hc Hn. unfold animateIn_count.
  rewrite Hc, List.filter_app, (not_animated_count e cs Hn), app_nil_r.
  reflexivity.
Qed.

Lemma animateIn_count_register_all e regs w :
  animateIn_count e (register_all regs w) = animateIn_count e w.
Proof.
  revert w. induction regs as [|x regs IH]; intros w; [reflexivity|].
  change (register_all (x :: regs) w) with (register_all regs (register w x)).
  rewrite IH. apply animateIn_count_register.
Qed.

Lemma on_resize_calls h w : calls (world_of (on_resize h w)) = calls w.
Proof.
  unfold on_resize. cbv [bind get modify ret].
  destruct (bool_decide (viewportBottom_of w ≠ h)); reflexivity.
Qed.

(** Outside the frames of the loop, no event of the polling branch calls
    [animateIn]. *)
Lemma step_polling_quiet w ev l vb b e :
  strategy (this w) = Polling l vb b -> observers w = [] ->
  match ev with AnimationFrame _ => False | _ => True end ->
  animateIn_count e (step w ev) = animateIn_count e w.
Proof.
  intros Hs Hobs Hev. unfold step, animateIn_count.
  destruct ev as [layout|h|i t|o entries|ms]; [done| | | |];
    unfold handle; cbv [bind get].
  - rewrite Hs, on_resize_calls. reflexivity.
  - destruct (counter_queued w i); [|reflexivity].
    change (world_of (counter_step i t w)) with (counted i t w).
    destruct (counted_keeps i t w) as (_ & _ & _ & -> & _). reflexivity.
  - rewrite (not_deliverable w o entries Hobs). reflexivity.
  - rewrite mutation_callback_eq. apply animateIn_count_register_all.
Qed.

Lemma constructed_count window document page settings e :
  animateIn_count e (constructed window document page settings) = 0%nat.
Proof.
  rewrite constructed_eq.
  transitivity (animateIn_count e
                  (register_all (document_querySelectorAll_jazzy page document)
                                (initial window page settings))).
  - destruct (supportsIntersectionObserver window); reflexivity.
  - rewrite animateIn_count_register_all. reflexivity.
Qed.

(** X5. In the polling branch an element whose offset attribute does not
    start with a number is never activated: its offset is NaN, and the
    viewport test is false on NaN wherever the element is. *)
Theorem unparsable_offset_is_never_activated
    window document page settings evs e s :
  supportsIntersectionObserver window = false ->
  attributes (page !!! e) !! "data-jazzy-scroll-offset" = Some s ->
  s <> "" ->
  parseInt (VStr s) = NaN ->
  animateIn_count e (run evs (constructed window document page settings)) = 0%nat.
Proof.
  intros Hsup Hattr Hne Hnan. induction evs as [|ev evs IH] using rev_ind.
  - apply constructed_count.
  - rewrite run_snoc.
    set (w := run evs (constructed window document page settings)) in *.
    destruct (polling_reachable window document page settings evs Hsup)
      as [l Hs]. fold w in Hs.
    pose proof (well_formed_reachable window document page settings evs) as Hwf.
    fold w in Hwf. unfold well_formed in Hwf. rewrite Hs in Hwf.
    destruct ev as [layout|h|i t|o entries|ms];
      try (rewrite (step_polling_quiet w _ _ _ _ e Hs Hwf) by exact I; exact IH).
    unfold step, handle. cbv [bind get modify]. unfold frameRequested_of at 1.
    rewrite Hs.
    destruct (init_result layout (set_frameRequested false w) l
                (last_resize (innerHeight window) evs) false)
      as (w' & cs & kept & Hret & Hcalls & _ & _ & _ & _ & _ & _ & _ & _ & Hsub
          & _ & Hnever & _).
    { cbn. rewrite Hs. reflexivity. }
    { intros x Hx. apply (tracked_marked_reachable window document page settings evs).
      unfold tracked. fold w. rewrite Hs. exact Hx. }
    rewrite Hret. cbn [world_of].
    rewrite (animateIn_count_app e (set_frameRequested false w) w' cs Hcalls);
      [exact IH|].
    destruct (decide (e ∈ l)) as [Hin|Hout].
    + apply Hnever. intros els.
      change (elements (set_frameRequested false w)) with (elements w).
      destruct (offsets_resolved_reachable window document page settings evs)
        as [_ Hoff]. fold w in Hoff.
      rewrite Hoff by (unfold tracked; rewrite Hs; exact Hin).
      destruct (only_marked_reachable window document page settings evs e)
        as [Hat _]. fold w in Hat.
      unfold resolved_offset, getAttribute. rewrite Hat, Hattr.
      unfold cond, ToBoolean.
      rewrite (proj2 (String.eqb_neq s "") Hne). simpl negb. cbn iota.
      rewrite Hnan. reflexivity.
    + intros Han. apply Hout, Hsub, Han.
Qed.

Lemma unparsable_offset_is_never_activated_witness :
  animateIn_count 1%nat
    (run [AnimationFrame layout_100; Resize 2000; AnimationFrame layout_100]
         (constructed (desktop false) one_element page_unparsable_offset
            bootstrap)) = 0%nat.
Proof.
  apply (unparsable_offset_is_never_activated (desktop false) one_element
           page_unparsable_offset bootstrap _ 1%nat "auto");
    [reflexivity | reflexivity | discriminate | reflexivity].
Defined.

(** *** A polled element that has lost its marker *)

Lemma init_loop_throws layout k w l vb b e :
  strategy (this w) = Polling l vb b ->
  (k <= length l)%nat ->
  e ∈ take k l -> marker w e = None -> always_inViewport layout w e ->
  exists w' l',
    init_loop layout k w = Throw w'
    /\ strategy (this w') = Polling l' vb b
    /\ observers w' = observers w.
Proof.
  revert w l. induction k as [|i IH]; intros w l Hs Hk Hin Hnone Hsure.
  - rewrite take_0 in Hin. inversion Hin.
  - destruct (lookup_lt_is_Some_2 l i Hk) as [x Hx].
    set (w1 := called (CallIsInViewport x) w).
    assert (Hjz : jazzyElements_of w = l).
    { unfold jazzyElements_of. rewrite Hs. reflexivity. }
    simpl. unfold bind at 1. unfold init_body. run_monad.
    rewrite Hjz, Hx, isInViewport_eq. fold w1.
    rewrite (take_S_r _ _ _ Hx) in Hin.
    destruct (inViewport layout w x) eqn:Hview.
    + destruct (marker w x) as [ty|] eqn:Hty.
      * rewrite (animateIn_eq x w1 ty Hty). run_monad.
        set (w2 := with_jazzyElements (splice1 i) (activated x ty w1)).
        assert (Hs2 : strategy (this w2) = Polling (splice1 i l) vb b).
        { unfold w2. cbn. rewrite Hs. reflexivity. }
        assert (Hf2 : pass_frame w w2).
        { apply (pass_frame_trans w w1); [apply pass_frame_called|].
          apply pass_frame_splice_activated. }
        destruct (IH w2 (splice1 i l) Hs2) as (w' & l' & Hret & Hs' & Hob).
        { rewrite length_splice1 by lia. lia. }
        { rewrite take_splice1.
          apply elem_of_app in Hin as [Hin|Hin]; [exact Hin|].
          apply list_elem_of_singleton in Hin. congruence. }
        { destruct Hf2 as [_ Hf2]. destruct (Hf2 e) as [_ ->]. exact Hnone. }
        { apply (always_inViewport_frame layout w); assumption. }
        exists w', l'. split; [exact Hret|]. split; [exact Hs'|].
        rewrite Hob. reflexivity.
      * rewrite (animateIn_throws x w1 Hty).
        exists (called (CallAnimateIn x) w1), l. split; [reflexivity|].
        split; [exact Hs | reflexivity].
    + run_monad.
      destruct (IH w1 l Hs) as (w' & l' & Hret & Hs' & Hob).
      { lia. }
      { apply elem_of_app in Hin as [Hin|Hin]; [exact Hin|].
        apply list_elem_of_singleton in Hin. subst x.
        unfold inViewport in Hview. rewrite (Hsure (elements w)) in Hview.
        discriminate. }
      { exact Hnone. }
      { apply (always_inViewport_frame layout w);
          [apply pass_frame_called | exact Hsure]. }
      exists w', l'. split; [exact Hret|]. split; [exact Hs' | exact Hob].
Qed.

Lemma animated_register_all regs w :
  animated (calls (register_all regs w)) = animated (calls w).
Proof.
  revert w. induction regs as [|x regs IH]; intros w; [reflexivity|].
  change (register_all (x :: regs) w) with (register_all regs (register w x)).
  rewrite IH, register_calls, animated_app. simpl. apply app_nil_r.
Qed.

Lemma register_all_observers_polling regs w l vb b :
  strategy (this w) = Polling l vb b ->
  observers (register_all regs w) = observers w.
Proof.
  revert w l. induction regs as [|x regs IH]; intros w l Hs; [reflexivity|].
  change (register_all (x :: regs) w) with (register_all regs (register w x)).
  rewrite (IH (register w x) (l ++ [x])).
  - apply (register_observers_polling w x l vb b Hs).
  - rewrite register_strategy, Hs. reflexivity.
Qed.

(** Once the loop is not queued, nothing queues it again. *)
Lemma step_stopped w ev l vb :
  strategy (this w) = Polling l vb false -> observers w = [] ->
  (exists l' vb', strategy (this (step w ev)) = Polling l' vb' false)
  /\ observers (step w ev) = []
  /\ animated (calls (step w ev)) = animated (calls w).
Proof.
  intros Hs Hobs. unfold step.
  destruct ev as [layout|h|i t|o entries|ms]; unfold handle; cbv [bind get].
  - unfold frameRequested_of. rewrite Hs. cbn. eauto.
  - rewrite Hs. unfold on_resize. cbv [bind get modify ret].
    destruct (bool_decide (viewportBottom_of w ≠ h)); cbn; rewrite ?Hs; eauto.
  - destruct (counter_queued w i); [|cbn; eauto].
    change (world_of (counter_step i t w)) with (counted i t w).
    destruct (counted_keeps i t w) as (-> & -> & _ & -> & _). eauto.
  - rewrite (not_deliverable w o entries Hobs). cbn. eauto.
  - rewrite mutation_callback_eq. cbn [world_of].
    rewrite register_all_strategy, Hs,
      (register_all_observers_polling _ w l vb false Hs), animated_register_all.
    eauto.
Qed.

Lemma run_stopped evs w l vb :
  strategy (this w) = Polling l vb false -> observers w = [] ->
  frameRequested_of (run evs w) = false
  /\ animated (calls (run evs w)) = animated (calls w).
Proof.
  revert w l vb. induction evs as [|ev evs IH]; intros w l vb Hs Hobs.
  - unfold frameRequested_of. simpl. rewrite Hs. done.
  - destruct (step_stopped w ev l vb Hs Hobs) as ((l' & vb' & Hs') & Hobs' & Han).
    destruct (IH (step w ev) l' vb' Hs' Hobs') as [Hf Ha].
    change (run (ev :: evs) w) with (run evs (step w ev)).
    split; [exact Hf | congruence].
Qed.

(** X6. In the polling branch, a frame that meets an element which has
    lost its marker attribute and passes the viewport test throws out of
    the pass before [init] is queued again: from then on the loop is never
    queued and no element is activated, whatever events follow. *)
Theorem unmarked_element_stops_the_loop layout w l vb e :
  strategy (this w) = Polling l vb true ->
  observers w = [] ->
  e ∈ l -> marker w e = None -> always_inViewport layout w e ->
  let w1 := step w (AnimationFrame layout) in
  forall evs,
    frameRequested_of (run evs w1) = false
    /\ animated (calls (run evs w1)) = animated (calls w1).
Proof.
  intros Hs Hobs Hin Hnone Hsure w1 evs.
  destruct (init_loop_throws layout (length l) (set_frameRequested false w)
              l vb false e) as (w' & l' & Hret & Hs' & Hob').
  { cbn. rewrite Hs. reflexivity. }
  { lia. }
  { rewrite firstn_all. exact Hin. }
  { exact Hnone. }
  { intros els. unfold viewportBottom_of. cbn. rewrite Hs.
    specialize (Hsure els). unfold viewportBottom_of in Hsure.
    rewrite Hs in Hsure. exact Hsure. }
  assert (Hw1 : w1 = w').
  { unfold w1, step, handle. cbv [bind get modify]. unfold frameRequested_of at 1.
    rewrite Hs. unfold init. cbv [bind get]. unfold jazzyElements_of at 1.
    cbn [this strategy set_frameRequested with_strategy]. rewrite Hs, Hret.
    reflexivity. }
  rewrite Hw1. apply (run_stopped evs w' l' vb Hs'). rewrite Hob'. exact Hobs.
Qed.

Lemma unmarked_element_stops_the_loop_witness :
  let w := stripped 1%nat
             (constructed (desktop false) one_element page_counter bootstrap) in
  let w1 := step w (AnimationFrame layout_100) in
  frameRequested_of (run [moved 1%nat; AnimationFrame layout_100] w1) = false
  /\ animated (calls (run [moved 1%nat; AnimationFrame layout_100] w1))
     = animated (calls w1).
Proof.
  apply (unmarked_element_stops_the_loop layout_100 _ [1%nat] 600 1%nat).
  - reflexivity.
  - reflexivity.
  - apply list_elem_of_singleton. reflexivity.
  - reflexivity.
  - intros els. vm_compute. reflexivity.
Defined.

(** ** [parseInt] on the decimal form of an integer *)

Lemma trim_start_uint d :
  trim_start (NilEmpty.string_of_uint d) = NilEmpty.string_of_uint d.
Proof. destruct d; reflexivity. Qed.

Lemma strip_sign_uint d :
  strip_sign (NilEmpty.string_of_uint d) = (1, NilEmpty.string_of_uint d).
Proof. destruct d; reflexivity. Qed.

Lemma strip_radix_uint d :
  strip_radix (NilEmpty.string_of_uint d) = (10, NilEmpty.string_of_uint d).
Proof.
  destruct d as [|d|d|d|d|d|d|d|d|d|d]; try reflexivity; destruct d; reflexivity.
Qed.

Lemma parse_digits_step c r a d :
  digit_value c = Some d -> (d <? 10) = true ->
  parse_digits 10 (String c r) a = parse_digits 10 r (Some (10 * default 0 a + d)).
Proof. intros H1 H2. simpl. rewrite H1, H2. reflexivity. Qed.

Lemma parse_digits_uint_acc d p :
  parse_digits 10 (NilEmpty.string_of_uint d) (Some (Z.pos p))
  = Some (Z.pos (Pos.of_uint_acc d p)).
Proof.
  revert p.
  induction d; intros p; cbn [NilEmpty.string_of_uint Pos.of_uint_acc];
    [reflexivity|..];
    (erewrite parse_digits_step; [|reflexivity|reflexivity]);
    rewrite <- IHd; f_equal; f_equal; cbn [default]; unfold id;
    match goal with
    | |- context [Z.of_N (N_of_ascii ?c) - 48] =>
        let v := eval vm_compute in (Z.of_N (N_of_ascii c) - 48) in
        change (Z.of_N (N_of_ascii c) - 48) with v
    end; lia.
Qed.

Lemma parse_digits_uint d :
  parse_digits 10 (NilEmpty.string_of_uint d) (Some 0)
  = Some (Z.of_N (Pos.of_uint d)).
Proof.
  induction d; cbn [NilEmpty.string_of_uint Pos.of_uint];
    [reflexivity|..];
    (erewrite parse_digits_step; [|reflexivity|reflexivity]);
    cbn [default]; unfold id;
    match goal with
    | |- context [Z.of_N (N_of_ascii ?c) - 48] =>
        let v := eval vm_compute in (10 * 0 + (Z.of_N (N_of_ascii c) - 48)) in
        change (10 * 0 + (Z.of_N (N_of_ascii c) - 48)) with v
    end; first [exact IHd | apply parse_digits_uint_acc].
Qed.

Lemma parse_digits_uint_None d :
  d <> Decimal.Nil ->
  parse_digits 10 (NilEmpty.string_of_uint d) None
  = Some (Z.of_N (Pos.of_uint d)).
Proof.
  intros Hd. rewrite <- parse_digits_uint.
  destruct d; [done|..]; reflexivity.
Qed.

Lemma parseInt_string_uint d :
  d <> Decimal.Nil ->
  parseInt_string (NilEmpty.string_of_uint d) = ofZ (Z.of_uint d)
  /\ parseInt_string (String "-" (NilEmpty.string_of_uint d))
     = ofZ (- Z.of_uint d).
Proof.
  intros Hd. unfold parseInt_string. split.
  - rewrite trim_start_uint, strip_sign_uint, strip_radix_uint,
      (parse_digits_uint_None d Hd).
    unfold Z.of_uint. f_equal. lia.
  - change (trim_start (String "-" (NilEmpty.string_of_uint d)))
      with (String "-" (NilEmpty.string_of_uint d)).
    change (strip_sign (String "-" (NilEmpty.string_of_uint d)))
      with (-1, NilEmpty.string_of_uint d).
    cbv beta iota.
    rewrite strip_radix_uint, (parse_digits_uint_None d Hd).
    unfold Z.of_uint. f_equal.
Qed.

Lemma parseInt_Z_to_string z : parseInt_string (Z_to_string z) = ofZ z.
Proof.
  unfold Z_to_string.
  pose proof (DecimalZ.of_to z) as Hz.
  destruct (Claims.to_int_not_nil z) as [Hp Hn].
  destruct (Z.to_int z) as [d|d]; cbn [Z.of_int] in Hz.
  - assert (Hd : d <> Decimal.Nil) by congruence.
    destruct (parseInt_string_uint d Hd) as [H _].
    rewrite <- Hz, <- H. destruct d; [done|..]; reflexivity.
  - assert (Hd : d <> Decimal.Nil) by congruence.
    destruct (parseInt_string_uint d Hd) as [_ H].
    rewrite <- Hz, <- H. destruct d; [done|..]; reflexivity.
Qed.

Lemma parseInt_ofZ z : parseInt (VNum (ofZ z)) = ofZ z.
Proof.
  unfold parseInt. cbn [ToString].
  rewrite RampFacts.NumberToString_ofZ. apply parseInt_Z_to_string.
Qed.

(** ** Construction *)

Lemma register_counters w e : counters (register w e) = counters w.
Proof.
  unfold register. rewrite addElement_eq.
  destruct (strategy (this w)) as [o|l vb b].
  - rewrite addElement_observing_eq. reflexivity.
  - rewrite addElement_polling_eq. reflexivity.
Qed.

Lemma register_others w e x :
  x <> e -> elements (register w e) !! x = elements w !! x.
Proof.
  intros Hx. rewrite register_elements. apply lookup_insert_ne. done.
Qed.

Lemma register_all_world regs w :
  well_formed w ->
  well_formed (register_all regs w)
  /\ tracked (register_all regs w) = tracked w ++ regs
  /\ calls (register_all regs w) = calls w ++ map CallAddElement regs
  /\ counters (register_all regs w) = counters w
  /\ forall x, x ∉ regs -> elements (register_all regs w) !! x = elements w !! x.
Proof.
  revert w. induction regs as [|e regs IH]; intros w Hwf.
  - simpl. rewrite !app_nil_r. done.
  - change (register_all (e :: regs) w) with (register_all regs (register w e)).
    destruct (IH (register w e) (well_formed_register w e Hwf))
      as (Hwf' & Htr & Hcalls & Hcnt & Hels).
    split; [exact Hwf'|].
    split; [rewrite Htr, (tracked_register w e Hwf), <- app_assoc; reflexivity|].
    split; [rewrite Hcalls, register_calls, <- app_assoc; reflexivity|].
    split; [rewrite Hcnt; apply register_counters|].
    intros x Hx. apply not_elem_of_cons in Hx as [Hxe Hx].
    rewrite (Hels x Hx). apply register_others, Hxe.
Qed.

Lemma well_formed_initial window page settings :
  well_formed (initial window page settings).
Proof.
  unfold well_formed, initial. cbn.
  destruct (supportsIntersectionObserver window); done.
Qed.

(** X7. When the platform accepts the margin of every element that the
    constructor finds, the constructor returns. It hands to [addElement]
    exactly the elements of the document that carry the marker and not the
    completion class, in document order, and makes no other call; these
    are the tracked elements when it returns. It activates nothing and
    starts no counter itself, and it leaves every other element of the
    page as it found it. *)
Theorem constructor_registers_the_matches window document page settings :
  let w := constructed window document page settings in
  let found := document_querySelectorAll_jazzy page document in
  (forall x, x ∈ found -> margin_accepted (initial window page settings) x) ->
  JazzyScroll window document page settings = Return tt w
  /\ tracked w = found
  /\ calls w = map CallAddElement found
  /\ counters w = []
  /\ forall x, x ∉ found -> elements w !! x = page !! x.
Proof.
  intros w found _. split; [apply JazzyScroll_returns|].
  destruct (register_all_world found (initial window page settings)
              (well_formed_initial window page settings))
    as (_ & Htr & Hcalls & Hcnt & Hels).
  assert (Hw : w = (if supportsIntersectionObserver window then id
                    else set_frameRequested true)
                     (register_all found (initial window page settings)))
    by apply constructed_eq.
  assert (Htr0 : tracked (initial window page settings) = []).
  { unfold tracked, initial. cbn.
    destruct (supportsIntersectionObserver window); reflexivity. }
  rewrite Htr0 in Htr. simpl in Htr, Hcalls, Hcnt.
  rewrite Hw.
  destruct (supportsIntersectionObserver window); unfold id.
  - split; [exact Htr|]. split; [exact Hcalls|]. split; [exact Hcnt | exact Hels].
  - split.
    { etransitivity; [|exact Htr]. unfold tracked. cbn.
      destruct (strategy (this (register_all found (initial window page settings))));
        reflexivity. }
    split; [exact Hcalls|]. split; [exact Hcnt | exact Hels].
Qed.

Lemma constructor_registers_the_matches_witness :
  let w := constructed (desktop true) one_element page_counter bootstrap in
  let found := document_querySelectorAll_jazzy page_counter one_element in
  JazzyScroll (desktop true) one_element page_counter bootstrap = Return tt w
  /\ tracked w = found
  /\ calls w = map CallAddElement found
  /\ counters w = []
  /\ forall x, x ∉ found -> elements w !! x = page_counter !! x.
Proof.
  apply (constructor_registers_the_matches (desktop true) one_element
           page_counter bootstrap).
  intros x Hx.
  assert (Hf : document_querySelectorAll_jazzy page_counter one_element
               = [1%nat]) by (vm_compute; reflexivity).
  rewrite Hf in Hx. apply list_elem_of_singleton in Hx. subst x.
  intros _. vm_compute. split; discriminate.
Defined.

(** ** The engine's configuration *)

Lemma observing_with_strategy f w :
  (forall s, match s, f s with
             | Observing _, Observing _ | Polling _ _ _, Polling _ _ _ => True
             | _, _ => False
             end) ->
  observing (with_strategy f w) = observing w.
Proof.
  intros Hf. unfold observing. cbn. specialize (Hf (strategy (this w))).
  destruct (strategy (this w)), (f _); done.
Qed.

Lemma engine_reachable window document page settings evs :
  let w := run evs (constructed window document page settings) in
  speed (this w) = this_speed settings
  /\ delay (this w) = this_delay settings
  /\ offset (this w) = this_offset window settings
  /\ observing w = supportsIntersectionObserver window.
Proof.
  apply (marked_invariant_reachable
           (fun w => speed (this w) = this_speed settings
                     /\ delay (this w) = this_delay settings
                     /\ offset (this w) = this_offset window settings
                     /\ observing w = supportsIntersectionObserver window)).
  - intros w e _ (Hs & Hd & Ho & Hk) _.
    destruct (register_config w e) as (-> & -> & ->).
    repeat (split; [assumption|]).
    unfold observing. rewrite register_strategy. unfold observing in Hk.
    destruct (strategy (this w)); exact Hk.
  - intros w e H. exact H.
  - intros w i e ty _ (Hs & Hd & Ho & Hk) _ _.
    repeat (split; [assumption|]).
    unfold with_jazzyElements. rewrite observing_with_strategy; [exact Hk|].
    intros []; done.
  - intros w l o obs e ty _ H _ _ _ _. exact H.
  - intros w counter t H.
    unfold observing. rewrite (proj1 (counted_keeps counter t w)). exact H.
  - intros w b (Hs & Hd & Ho & Hk). repeat (split; [assumption|]).
    unfold set_frameRequested. rewrite observing_with_strategy; [exact Hk|].
    intros []; done.
  - intros w vb (Hs & Hd & Ho & Hk). repeat (split; [assumption|]).
    unfold set_viewportBottom. rewrite observing_with_strategy; [exact Hk|].
    intros []; done.
  - unfold initial, observing. cbn.
    destruct (supportsIntersectionObserver window); done.
Qed.

(** X8. The three settings resolved by the constructor and the detection
    strategy it chose are fixed for the life of the engine: after any run
    they are what the constructor computed, and the engine observes if and
    only if the three capability tests passed at construction. *)
Theorem configuration_is_fixed window document page settings evs :
  let w := run evs (constructed window document page settings) in
  speed (this w) = this_speed settings
  /\ delay (this w) = this_delay settings
  /\ offset (this w) = this_offset window settings
  /\ observing w = supportsIntersectionObserver window.
Proof. apply engine_reachable. Qed.

(** ** Registration *)

Lemma cond_attribute el name fallback :
  cond (getAttribute el name) (getAttribute el name) fallback
  = attribute_or el name fallback.
Proof.
  unfold cond, getAttribute, attribute_or.
  destruct (attributes el !! name) as [s|]; [|reflexivity].
  cbn. destruct (String.eqb s ""); reflexivity.
Qed.

(** X9. When the platform accepts the margin of the element,
    [addElement] returns. It resolves each of the three settings from the
    element's own attribute, or from the engine when the attribute is
    absent or empty: the element's [jazzySpeed] and [jazzyDelay] are the
    resolved values followed by "ms", its [jazzyOffset] is the resolved
    value read by [parseInt], and its transition duration and delay are
    these strings when they are a whole number of milliseconds. Its
    classes and text, and its attributes other than [style], are
    untouched, and so is every other element. *)
Theorem registration_resolves_settings w e :
  let el := elements w !!! e in
  let el' := elements (register w e) !!! e in
  let speed_used := attribute_or el "data-jazzy-scroll-speed" (speed (this w)) in
  let delay_used := attribute_or el "data-jazzy-scroll-delay" (delay (this w)) in
  let offset_used :=
    attribute_or el "data-jazzy-scroll-offset" (VNum (offset (this w))) in
  margin_accepted w e ->
  addElement e w = Return tt (register w e)
  /\ (printable speed_used -> jazzySpeed el' = Some (concat speed_used "ms"))
  /\ (printable delay_used -> jazzyDelay el' = Some (concat delay_used "ms"))
  /\ (printable offset_used -> in_safe_range (parseInt offset_used) ->
      jazzyOffset el' = Some (parseInt offset_used))
  /\ (forall z, milliseconds speed_used z ->
        transitionDuration (style el') = concat speed_used "ms")
  /\ (forall z, milliseconds delay_used z ->
        transitionDelay (style el') = concat delay_used "ms")
  /\ (forall name, name <> "style" ->
        attributes el' !! name = attributes el !! name)
  /\ classList el' = classList el
  /\ Dom.textContent el' = Dom.textContent el
  /\ forall x, x <> e -> elements (register w e) !! x = elements w !! x.
Proof.
  intros el el' speed_used delay_used offset_used _.
  split; [apply addElement_returns|].
  unfold el'. rewrite register_elements, lookup_total_insert_eq.
  unfold speed_used, delay_used, offset_used.
  rewrite <- !cond_attribute. fold el.
  destruct (strategy (this w));
    (repeat (split; [intros; reflexivity|]));
    intros x Hx; apply lookup_insert_ne; done.
Qed.

Lemma registration_resolves_settings_witness :
  let w := initial (desktop true) page_counter bootstrap in
  let e := 1%nat in
  let el := elements w !!! e in
  let el' := elements (register w e) !!! e in
  let speed_used := attribute_or el "data-jazzy-scroll-speed" (speed (this w)) in
  let delay_used := attribute_or el "data-jazzy-scroll-delay" (delay (this w)) in
  let offset_used :=
    attribute_or el "data-jazzy-scroll-offset" (VNum (offset (this w))) in
  addElement e w = Return tt (register w e)
  /\ (printable speed_used -> jazzySpeed el' = Some (concat speed_used "ms"))
  /\ (printable delay_used -> jazzyDelay el' = Some (concat delay_used "ms"))
  /\ (printable offset_used -> in_safe_range (parseInt offset_used) ->
      jazzyOffset el' = Some (parseInt offset_used))
  /\ (forall z, milliseconds speed_used z ->
        transitionDuration (style el') = concat speed_used "ms")
  /\ (forall z, milliseconds delay_used z ->
        transitionDelay (style el') = concat delay_used "ms")
  /\ (forall name, name <> "style" ->
        attributes el' !! name = attributes el !! name)
  /\ classList el' = classList el
  /\ Dom.textContent el' = Dom.textContent el
  /\ forall x, x <> e -> elements (register w e) !! x = elements w !! x.
Proof.
  intros w e.
  apply (registration_resolves_settings w e).
  intros _. vm_compute. split; discriminate.
Defined.

(** X10. [addElement] does not look whether an element is tracked already:
    a second call on the same element resolves the same settings again,
    so no element changes, and the strategy gains a second tracking entry
    for the same element. *)
Theorem registering_again_adds_a_second_entry w e :
  well_formed w ->
  elements (register (register w e) e) = elements (register w e)
  /\ tracked (register (register w e) e) = tracked w ++ [e; e].
Proof.
  intros Hwf. split.
  - rewrite (register_elements (register w e)), register_strategy.
    destruct (register_config w e) as (Hs & Hd & Ho).
    rewrite register_elements, lookup_total_insert_eq.
    assert (Hreg : forall el, registered (this (register w e)) el
                              = registered (this w) el).
    { intros el. unfold registered, resolved_speed, resolved_delay,
        resolved_offset. rewrite Hs, Hd, Ho. reflexivity. }
    destruct (strategy (this w)); rewrite Hreg; cbn; apply insert_insert_eq.
  - rewrite (tracked_register _ e (well_formed_register w e Hwf)),
      (tracked_register w e Hwf), <- app_assoc. reflexivity.
Qed.

Lemma registering_again_adds_a_second_entry_witness :
  let w := constructed (desktop false) one_element page_counter bootstrap in
  elements (register (register w 1%nat) 1%nat) = elements (register w 1%nat)
  /\ tracked (register (register w 1%nat) 1%nat) = tracked w ++ [1%nat; 1%nat].
Proof.
  apply (registering_again_adds_a_second_entry
           (constructed (desktop false) one_element page_counter bootstrap)).
  reflexivity.
Defined.

(** X11. On a device without [window.orientation], an engine constructed
    with an offset that is a whole number of magnitude at most 2^52 hands
    exactly that offset to every tracked element that has no offset
    attribute of its own: the conversion to a string and back by
    [parseInt] loses nothing. *)
Theorem integer_engine_offset_is_inherited
    window document page sp dl z evs e :
  safe_integer z ->
  orientation window = VUndefined ->
  let settings := {| settings_speed := sp; settings_delay := dl;
                     settings_offset := Some (ofZ z) |} in
  let w := run evs (constructed window document page settings) in
  e ∈ tracked w ->
  attributes (page !!! e) !! "data-jazzy-scroll-offset" = None ->
  jazzyOffset (elements w !!! e) = Some (ofZ z).
Proof.
  intros _ Hor settings w He Hattr.
  destruct (offsets_resolved_reachable window document page settings evs)
    as [Hoff Hres].
  fold w in Hoff, Hres. rewrite (Hres e He).
  destruct (only_marked_reachable window document page settings evs e)
    as [Hat _]. fold w in Hat.
  unfold resolved_offset, getAttribute. rewrite Hat, Hattr. cbn [cond ToBoolean].
  rewrite Hoff. unfold this_offset. rewrite Hor. cbn [settings_offset settings or_number].
  destruct (ToBoolean (VNum (ofZ z))) eqn:Hz.
  - rewrite parseInt_ofZ. reflexivity.
  - unfold _defaultOffset. rewrite parseInt_ofZ.
    cbn [ToBoolean ofZ] in Hz. apply negb_false_iff, Qc_eqb_spec in Hz.
    do 2 f_equal. change 0%Qc with (Z2Qc 0) in Hz.
    symmetry. apply ofZ_inj. unfold ofZ. rewrite Hz. reflexivity.
Qed.

Lemma integer_engine_offset_is_inherited_witness :
  jazzyOffset
    (elements (run [] (constructed (desktop true) one_element page_counter
                         {| settings_speed := VUndefined;
                            settings_delay := VUndefined;
                            settings_offset := Some (ofZ (-75)) |}))
     !!! 1%nat) = Some (ofZ (-75)).
Proof.
  apply (integer_engine_offset_is_inherited (desktop true) one_element
           page_counter VUndefined VUndefined (-75) [] 1%nat).
  - unfold safe_integer. vm_compute. discriminate.
  - reflexivity.
  - vm_compute. apply list_elem_of_singleton. reflexivity.
  - reflexivity.
Defined.

(** ** Counters *)

(** X12. A duration that converts to NaN or to zero, as the strings "fast"
    and "0" do, gives a counter that writes NaN on its first frame and
    asks for no other frame, whatever its start, its end and the clock. *)
Theorem counter_with_bad_duration_shows_NaN (s e : Z) duration (t0 : Qc) :
  ToNumber duration = NaN \/ ToNumber duration = Fin 0%Qc ->
  let f := Ramp.step (Ramp.animateNumber (ofZ s) (ofZ e) duration) t0 in
  Ramp.assigned f = NaN
  /\ Ramp.textContent f = "NaN"
  /\ Ramp.requested f = false.
Proof.
  intros Hd.
  assert (Hp : Ramp.progress
                 (Ramp.set_startTimestamp
                    (Ramp.animateNumber (ofZ s) (ofZ e) duration) t0) t0 = NaN).
  { unfold Ramp.progress, Ramp.set_startTimestamp, Ramp.animateNumber,
      Ramp.not_startTimestamp, Ramp.startTimestamp_value.
    cbn [Ramp.startTimestamp Ramp.duration sub neg add].
    replace (t0 + - t0)%Qc with 0%Qc by ring.
    destruct Hd as [-> | ->]; reflexivity. }
  unfold Ramp.step. cbn [Ramp.assigned Ramp.textContent Ramp.requested].
  unfold Ramp.displayed. rewrite Hp. done.
Qed.

Lemma counter_with_bad_duration_shows_NaN_witness :
  let f := Ramp.step (Ramp.animateNumber (ofZ 0) (ofZ 100) (VStr "0"))
                     (Q2Qc 1000) in
  Ramp.assigned f = NaN
  /\ Ramp.textContent f = "NaN"
  /\ Ramp.requested f = false.
Proof.
  apply (counter_with_bad_duration_shows_NaN 0 100 (VStr "0") (Q2Qc 1000)).
  right. reflexivity.
Defined.

Lemma counter_step_eq i t w c :
  counters w !! i = Some c ->
  counted i t w
  = {| elements :=
         <[counter_element c :=
             set_textContent (Ramp.textContent (Ramp.step (counter_closure c) t))
                             (elements w !!! counter_element c)]> (elements w);
       heap := heap w;
       observers := observers w;
       this := this w;
       counters :=
         <[i := {| counter_element := counter_element c;
                   counter_closure := Ramp.closure (Ramp.step (counter_closure c) t);
                   counter_requested :=
                     Ramp.requested (Ramp.step (counter_closure c) t) |}]>
           (counters w);
       calls := calls w |}.
Proof.
  intros Hc. unfold counted, counter_step. run_monad. rewrite Hc. reflexivity.
Qed.

Lemma step_counter_queued i t w c :
  counters w !! i = Some c -> counter_requested c = true ->
  step w (CounterFrame i t) = counted i t w.
Proof.
  intros Hc Hreq. unfold step, handle, counter_queued. cbv [bind get].
  rewrite Hc, Hreq. reflexivity.
Qed.

Lemma step_counter_idle i t w c :
  counters w !! i = Some c -> counter_requested c = false ->
  step w (CounterFrame i t) = w.
Proof.
  intros Hc Hreq. unfold step, handle, counter_queued. cbv [bind get].
  rewrite Hc, Hreq. reflexivity.
Qed.

(** X13. A counting element without start and end attributes, whose text
    is the decimal form of an integer of magnitude at most 2^52, counts
    from 0 to that integer: with
    a positive engine speed [d], its first frame shows 0, a frame [d] or
    more after the first shows the original text again, and from then on
    the counter is not queued: further frames leave the world as it is. *)
Theorem default_counter_ends_on_its_text w e ty z (d t0 t : Qc) :
  marker w e = Some ty ->
  includes ty "count" = true ->
  attributes (elements w !!! e) !! "data-jazzy-scroll-count-start" = None ->
  attributes (elements w !!! e) !! "data-jazzy-scroll-count-end" = None ->
  Dom.textContent (elements w !!! e) = Z_to_string z ->
  safe_integer z ->
  speed (this w) = VNum (Fin d) ->
  (0 < d)%Qc -> t0 <> 0%Qc -> (d <= t + - t0)%Qc ->
  let i := length (counters w) in
  let w1 := world_of (animateIn e w) in
  let w2 := step w1 (CounterFrame i t0) in
  let w3 := step w2 (CounterFrame i t) in
  Dom.textContent (elements w2 !!! e) = "0"
  /\ Dom.textContent (elements w3 !!! e) = Z_to_string z
  /\ forall t', step w3 (CounterFrame i t') = w3.
Proof.
  intros Hty Hinc Hstart Hend Htext _ Hspeed Hd Ht0 Ht i w1 w2 w3.
  assert (Hd0 : d <> 0%Qc) by (apply RampFacts.Qc_pos_neq, Hd).
  assert (Hsn : startNumber_of (elements w !!! e) = ofZ 0).
  { unfold startNumber_of, getAttribute. rewrite Hstart. reflexivity. }
  assert (Hen : endNumber_of (elements w !!! e) = ofZ z).
  { unfold endNumber_of, getAttribute. rewrite Hend, Htext.
    apply parseInt_Z_to_string. }
  assert (Hw1 : counters w1
                = counters w ++
                  [ {| counter_element := e;
                       counter_closure :=
                         Ramp.animateNumber (ofZ 0) (ofZ z) (VNum (Fin d));
                       counter_requested := true |} ]).
  { unfold w1. rewrite (animateIn_eq e w ty Hty). cbn [world_of].
    unfold activated. cbn [counters].
    unfold counting_counters, counting. rewrite Hinc, Hsn, Hen, Hspeed.
    reflexivity. }
  assert (Hl1 : counters w1 !! i
                = Some {| counter_element := e;
                          counter_closure :=
                            Ramp.animateNumber (ofZ 0) (ofZ z) (VNum (Fin d));
                          counter_requested := true |}).
  { rewrite Hw1. apply list_lookup_middle. reflexivity. }
  assert (Hw2 : w2 = counted i t0 w1).
  { apply (step_counter_queued i t0 w1 _ Hl1). reflexivity. }
  rewrite (counter_step_eq i t0 w1 _ Hl1) in Hw2.
  cbn [counter_element counter_closure] in Hw2.
  rewrite (Claims.first_step 0 z d t0 Hd0) in Hw2.
  cbn [Ramp.textContent Ramp.closure Ramp.requested Ramp.frame_at] in Hw2.
  rewrite RampFacts.value_at_first in Hw2.
  assert (Hreq : Qc_ltb (Ramp.progress_at d t0 t0) 1 = true).
  { apply Qc_ltb_spec, RampFacts.clamp_lt_1.
    replace (t0 + - t0)%Qc with 0%Qc by ring.
    unfold Qcdiv. rewrite Qcmult_0_l. done. }
  rewrite Hreq in Hw2.
  assert (Hi : (i < length (counters w1))%nat).
  { rewrite Hw1, length_app. simpl. unfold i. lia. }
  assert (Hl2 : counters w2 !! i
                = Some {| counter_element := e;
                          counter_closure := Ramp.started 0 z d t0;
                          counter_requested := true |}).
  { rewrite Hw2. cbn [counters]. apply list_lookup_insert_eq. exact Hi. }
  assert (Hw3 : w3 = counted i t w2).
  { apply (step_counter_queued i t w2 _ Hl2). reflexivity. }
  rewrite (counter_step_eq i t w2 _ Hl2) in Hw3.
  cbn [counter_element counter_closure] in Hw3.
  rewrite (Claims.step_started 0 z d t0 t Hd0) in Hw3.
  assert (Hrs : Ramp.restart t0 t = t0).
  { unfold Ramp.restart. rewrite (RampFacts.Qc_eqb_false t0 0 Ht0). reflexivity. }
  rewrite Hrs in Hw3.
  cbn [Ramp.textContent Ramp.closure Ramp.requested Ramp.frame_at] in Hw3.
  rewrite (RampFacts.value_at_last 0 z d t0 t Hd Ht) in Hw3.
  assert (Hreq3 : Qc_ltb (Ramp.progress_at d t0 t) 1 = false).
  { apply bool_decide_eq_false. intros Hlt.
    apply RampFacts.clamp_lt_1, (RampFacts.div_lt_1 d _ Hd) in Hlt.
    exact (Qclt_not_le _ _ Hlt Ht). }
  rewrite Hreq3 in Hw3.
  split; [rewrite Hw2; cbn [elements]; rewrite lookup_total_insert_eq; reflexivity|].
  split; [rewrite Hw3; cbn [elements]; rewrite lookup_total_insert_eq; reflexivity|].
  intros t'.
  apply (step_counter_idle i t' w3
           {| counter_element := e;
              counter_closure := Ramp.started 0 z d t0;
              counter_requested := false |}); [|reflexivity].
  rewrite Hw3. cbn [counters]. apply list_lookup_insert_eq.
  rewrite Hw2. cbn [counters]. rewrite length_insert. exact Hi.
Qed.

Lemma default_counter_ends_on_its_text_witness :
  let w := constructed (desktop false) one_element page_counter bootstrap in
  let w1 := world_of (animateIn 1%nat w) in
  let w2 := step w1 (CounterFrame 0%nat (Q2Qc 1000)) in
  let w3 := step w2 (CounterFrame 0%nat (Q2Qc 1900)) in
  Dom.textContent (elements w2 !!! 1%nat) = "0"
  /\ Dom.textContent (elements w3 !!! 1%nat) = Z_to_string 42
  /\ forall t', step w3 (CounterFrame 0%nat t') = w3.
Proof.
  apply (default_counter_ends_on_its_text
           (constructed (desktop false) one_element page_counter bootstrap)
           1%nat "jazzy-count" 42 (Q2Qc 800) (Q2Qc 1000) (Q2Qc 1900));
    try reflexivity; try discriminate.
Defined.

(** ** The observer branch *)

Lemma deliverable_disconnected w o obs entries :
  observers w !! o = Some obs -> io_observed obs = [] ->
  deliverable w o entries = false.
Proof.
  intros Ho Hobs. unfold deliverable. rewrite Ho, Hobs.
  destruct entries as [|en entries]; [reflexivity|].
  cbn. rewrite bool_decide_eq_false_2; [reflexivity|]. apply not_elem_of_nil.
Qed.

(** X14. The callback of an observer looks at the first entry only. If the
    entry intersects, or if the top of its rectangle is at or above the top
    of the viewport, the target is handed to [animateIn] and the observer
    is disconnected: it observes nothing afterwards, and no later
    notification in its name has any effect. Otherwise the callback
    changes nothing. *)
Theorem observer_fires_once w o obs en ty :
  observers w !! o = Some obs ->
  target en ∈ io_observed obs ->
  marker w (target en) = Some ty ->
  let fires := isIntersecting en
               || le (Fin (boundingClientRect_top en)) (ofZ 0) in
  let w' := step w (Intersection o [en]) in
  (fires = false -> w' = w)
  /\ (fires = true ->
        w' = disconnected o (activated (target en) ty w)
        /\ (exists obs', observers w' !! o = Some obs' /\ io_observed obs' = [])
        /\ forall entries, step w' (Intersection o entries) = w').
Proof.
  intros Ho Hin Hty fires w'.
  assert (Hdel : deliverable w o [en] = true).
  { unfold deliverable. rewrite Ho. cbn.
    rewrite (bool_decide_eq_true_2 _ Hin). reflexivity. }
  assert (Hw' : w' = if fires then disconnected o (activated (target en) ty w)
                     else w).
  { unfold w', step, handle. cbv [bind get]. rewrite Hdel.
    unfold intersection_callback. cbn [lookup list_lookup]. fold fires.
    destruct fires; [|reflexivity].
    cbv [bind]. rewrite (animateIn_eq _ w ty Hty). reflexivity. }
  split; intros Hf; rewrite Hf in Hw'; [exact Hw'|].
  split; [exact Hw'|].
  assert (Hobs' : observers w' !! o
                  = Some {| io_rootMargin := io_rootMargin obs;
                            io_threshold := io_threshold obs;
                            io_observed := [] |}).
  { rewrite Hw'. unfold disconnected, disconnect. cbn.
    rewrite list_lookup_alter_eq, Ho. reflexivity. }
  split; [eexists; split; [exact Hobs' | reflexivity]|].
  intros entries. unfold step, handle. cbv [bind get].
  rewrite (deliverable_disconnected w' o _ entries Hobs'); reflexivity.
Qed.

Lemma observer_fires_once_witness :
  let w := constructed (desktop true) one_element page_counter bootstrap in
  let en := {| target := 1%nat; isIntersecting := false;
               boundingClientRect_top := Q2Qc (-30) |} in
  let fires := isIntersecting en
               || le (Fin (boundingClientRect_top en)) (ofZ 0) in
  let w' := step w (Intersection 0%nat [en]) in
  (fires = false -> w' = w)
  /\ (fires = true ->
        w' = disconnected 0%nat (activated (target en) "jazzy-count" w)
        /\ (exists obs', observers w' !! 0%nat = Some obs' /\ io_observed obs' = [])
        /\ forall entries, step w' (Intersection 0%nat entries) = w').
Proof.
  apply (observer_fires_once
           (constructed (desktop true) one_element page_counter bootstrap)
           0%nat
           {| io_rootMargin := "0px 0px 0px 0px";
              io_threshold := [ofZ 0; ofZ 1];
              io_observed := [1%nat] |}).
  - reflexivity.
  - apply list_elem_of_singleton. reflexivity.
  - reflexivity.
Defined.

(** ** The watcher *)

Lemma added_map_CallAddElement l : added (map CallAddElement l) = l.
Proof. induction l as [|x l IH]; [reflexivity|]. simpl. rewrite IH. reflexivity. Qed.

(** X15. When the platform accepts the margin of every element it
    registers, the watcher's callback returns. For every record of the
    batch and every added node that is an element, it registers the node
    itself if it matches the selector and then each matching descendant,
    in document order, as the document stood when the callback began: that
    the code queries the subtree again at every iteration makes no
    difference, since registering changes neither a marker nor a class,
    so the selector matches the same elements afterwards. Nodes that are
    not elements contribute nothing. *)
Theorem watcher_registers_every_candidate mutationsList w :
  let regs := registrations (elements w) mutationsList in
  (forall e, e ∈ regs -> margin_accepted w e) ->
  mutation_callback mutationsList w = Return tt (register_all regs w)
  /\ added (calls (register_all regs w)) = added (calls w) ++ regs
  /\ (forall e, e ∈ regs -> matches_jazzy (elements w !!! e) = true)
  /\ (forall x, matches_jazzy (elements (register_all regs w) !!! x)
                = matches_jazzy (elements w !!! x))
  /\ (forall els node, nodeType node <> ELEMENT_NODE -> candidates els node = []).
Proof.
  intros regs _. split; [apply mutation_callback_eq|].
  split.
  { assert (Hc : forall l w0, calls (register_all l w0)
                              = calls w0 ++ map CallAddElement l).
    { induction l as [|x l IH]; intros w0.
      - simpl. rewrite app_nil_r. reflexivity.
      - change (register_all (x :: l) w0) with (register_all l (register w0 x)).
        rewrite IH, register_calls, <- app_assoc. reflexivity. }
    rewrite Hc, Claims.added_app, added_map_CallAddElement. reflexivity. }
  split; [intros e He; exact (registrations_match _ _ _ He)|].
  split; [intros x; apply same_document_matches, register_all_same_document|].
  intros els [x children|text|text] Hn; [|reflexivity|reflexivity].
  exfalso. apply Hn. reflexivity.
Qed.

Lemma watcher_registers_every_candidate_witness :
  let w := constructed (desktop true) [] page_section bootstrap in
  let mutationsList := [ {| addedNodes := [section_tree] |} ] in
  let regs := registrations (elements w) mutationsList in
  mutation_callback mutationsList w = Return tt (register_all regs w)
  /\ added (calls (register_all regs w)) = added (calls w) ++ regs
  /\ (forall e, e ∈ regs -> matches_jazzy (elements w !!! e) = true)
  /\ (forall x, matches_jazzy (elements (register_all regs w) !!! x)
                = matches_jazzy (elements w !!! x))
  /\ (forall els node, nodeType node <> ELEMENT_NODE -> candidates els node = []).
Proof.
  intros w mutationsList.
  apply (watcher_registers_every_candidate mutationsList w).
  intros e He.
  assert (Hr : registrations (elements w) mutationsList
               = [1%nat; 2%nat; 3%nat]) by (vm_compute; reflexivity).
  rewrite Hr in He.
  repeat (apply elem_of_cons in He as [->|He];
          [intros _; vm_compute; split; discriminate|]).
  inversion He.
Defined.


(** ** Observers and the shared options object *)

Lemma observers_configured_keep w w' :
  observers_configured w ->
  heap w' = heap w ->
  (forall l, strategy (this w') = Observing l -> strategy (this w) = Observing l) ->
  offset (this w') = offset (this w) ->
  (forall x, attributes (elements w' !!! x) = attributes (elements w !!! x)) ->
  (forall o obs e, observers w' !! o = Some obs -> e ∈ io_observed obs ->
                   observers w !! o = Some obs) ->
  observers_configured w'.
Proof.
  intros [Hheap Hobs] Hh Hs Hoff Hattr Hsame. split.
  - intros l Hl. rewrite Hh. apply Hheap, Hs, Hl.
  - intros o obs e Ho He.
    destruct (Hobs o obs e (Hsame o obs e Ho He) He) as (H1 & H2 & H3).
    split; [exact H1|]. split; [exact H2|].
    rewrite H3. do 2 f_equal. symmetry.
    apply resolved_offset_ext; [exact Hoff | apply Hattr].
Qed.

Lemma observers_configured_register w e :
  well_formed w -> observers_configured w -> observers_configured (register w e).
Proof.
  intros Hwf Hc.
  assert (Hattr : forall x, attributes (elements (register w e) !!! x)
                            = attributes (elements w !!! x)).
  { intros x. destruct (register_same_document w e x) as (-> & _). done. }
  destruct (register_config w e) as (_ & _ & Hoff).
  destruct (strategy (this w)) as [l|l vb b] eqn:Hs.
  - destruct Hc as [Hheap Hobs]. destruct (Hheap l Hs) as [Hsome Hth].
    rewrite (Claims.register_observing_world w l e Hs) in *.
    cbn [elements heap observers this] in *.
    destruct (Claims.altered_margin (heap w) l
                (margin_of (parseInt (resolved_offset (this w) (elements w !!! e))))
                Hsome) as [Hm Ht].
    split.
    + intros l' Hl'. cbn [elements heap observers this] in *.
      rewrite Hs in Hl'. injection Hl' as <-.
      split; [|rewrite Ht; exact Hth].
      rewrite lookup_alter_eq. destruct Hsome as [v ->]. eexists. reflexivity.
    + intros o obs x Ho Hx. cbn [elements heap observers this] in *.
      assert (Hres : resolved_offset (this w)
                       (<[e:=set_options l (registered (this w) (elements w !!! e))]>
                          (elements w) !!! x)
                     = resolved_offset (this w) (elements w !!! x)).
      { apply resolved_offset_ext; [reflexivity | apply Hattr]. }
      rewrite Hres.
      apply lookup_app_Some in Ho as [Ho|[Hlen Ho]].
      * apply (Hobs o obs x Ho Hx).
      * destruct (o - length (observers w))%nat; [|discriminate Ho].
        injection Ho as <-. cbn [io_observed] in Hx.
        apply list_elem_of_singleton in Hx. subst x.
        cbn [io_observed io_threshold io_rootMargin].
        rewrite Hm, Ht. done.
  - apply (observers_configured_keep w); [exact Hc| | | exact Hoff | exact Hattr |].
    + unfold register. rewrite addElement_eq, Hs, addElement_polling_eq. reflexivity.
    + intros l'. rewrite register_strategy, Hs. discriminate.
    + intros o obs x. rewrite (register_observers_polling w e l vb b Hs). done.
Qed.

Lemma observers_configured_reachable window document page settings evs :
  observers_configured (run evs (constructed window document page settings)).
Proof.
  apply (marked_invariant_reachable observers_configured).
  - intros w e Hwf H _. apply observers_configured_register; assumption.
  - intros w e H. apply (observers_configured_keep w); done.
  - intros w i e ty _ H _ _. apply (observers_configured_keep w); try done.
    + intros l. cbn. destruct (strategy (this w)); done.
    + intros x. exact (proj2 (activated_keeps e ty w x)).
  - intros w l o obs e ty _ H _ _ _ _.
    apply (observers_configured_keep w); try done.
    + intros x. exact (proj2 (activated_keeps e ty w x)).
    + intros o' obs' x Ho' Hx. unfold disconnected, disconnect in Ho'.
      cbn in Ho'. destruct (decide (o' = o)) as [->|Hne].
      * rewrite list_lookup_alter_eq in Ho'.
        destruct (observers w !! o); [|discriminate Ho'].
        injection Ho' as <-. inversion Hx.
      * rewrite list_lookup_alter_ne in Ho' by done. exact Ho'.
  - intros w counter t H.
    destruct (counted_keeps counter t w) as (Hthis & Hobs & Hheap & _ & Hels).
    apply (observers_configured_keep w); try done.
    + rewrite Hthis. done.
    + rewrite Hthis. done.
    + intros x. destruct (Hels x) as (-> & _). done.
    + intros o obs x. rewrite Hobs. done.
  - intros w b H. apply (observers_configured_keep w); try done.
    intros l. cbn. destruct (strategy (this w)); done.
  - intros w vb H. apply (observers_configured_keep w); try done.
    intros l. cbn. destruct (strategy (this w)); done.
  - unfold initial. split; cbn.
    + intros l. destruct (supportsIntersectionObserver window); [|discriminate].
      intros [= <-]. rewrite lookup_singleton_eq, lookup_total_singleton.
      split; [eexists; reflexivity | reflexivity].
    + intros o obs e Ho. inversion Ho.
Qed.

(** X16. In the observer branch every element gets an observer of its own,
    and although all elements share one options object whose margin is
    overwritten at each registration, an observer that still observes
    watches exactly one element, with the thresholds 0 and 1 and with the
    bottom margin computed from the offset of that very element: its own
    attribute if it has a non-empty one, else the engine's offset. *)
Theorem observer_has_the_margin_of_its_element
    window document page settings evs o obs e :
  let w := run evs (constructed window document page settings) in
  observers w !! o = Some obs ->
  e ∈ io_observed obs ->
  io_observed obs = [e]
  /\ io_threshold obs = [ofZ 0; ofZ 1]
  /\ io_rootMargin obs
     = margin_of (parseInt (attribute_or (page !!! e) "data-jazzy-scroll-offset"
                              (VNum (this_offset window settings)))).
Proof.
  intros w Ho He.
  destruct (observers_configured_reachable window document page settings evs)
    as [_ Hobs].
  destruct (Hobs o obs e Ho He) as (H1 & H2 & H3).
  split; [exact H1|]. split; [exact H2|]. rewrite H3.
  destruct (offsets_resolved_reachable window document page settings evs)
    as [Hoff _].
  destruct (only_marked_reachable window document page settings evs e)
    as [Hat _].
  unfold resolved_offset. rewrite cond_attribute. unfold attribute_or.
  rewrite Hat, Hoff. reflexivity.
Qed.

Lemma observer_has_the_margin_of_its_element_witness :
  let w := run [] (constructed (desktop true) [section_tree] page_section
                     bootstrap) in
  let obs := {| io_rootMargin := "0px 0px 20px 0px";
                io_threshold := [ofZ 0; ofZ 1];
                io_observed := [3%nat] |} in
  io_observed obs = [3%nat]
  /\ io_threshold obs = [ofZ 0; ofZ 1]
  /\ io_rootMargin obs
     = margin_of (parseInt (attribute_or (page_section !!! 3%nat)
                              "data-jazzy-scroll-offset"
                              (VNum (this_offset (desktop true) bootstrap)))).
Proof.
  apply (observer_has_the_margin_of_its_element (desktop true) [section_tree]
           page_section bootstrap [] 2%nat).
  - reflexivity.
  - apply list_elem_of_singleton. reflexivity.
Defined.

(** ** The settings of a registered element *)

Lemma registered_ext _this _this' el el' :
  speed _this' = speed _this -> delay _this' = delay _this ->
  offset _this' = offset _this -> attributes el' = attributes el ->
  style (registered _this' el') = style (registered _this el)
  /\ jazzySpeed (registered _this' el') = jazzySpeed (registered _this el)
  /\ jazzyDelay (registered _this' el') = jazzyDelay (registered _this el)
  /\ jazzyOffset (registered _this' el') = jazzyOffset (registered _this el).
Proof.
  intros Hs Hd Ho Ha.
  unfold registered, resolved_speed, resolved_delay, resolved_offset,
    getAttribute. cbn. rewrite Hs, Hd, Ho, Ha. done.
Qed.

Lemma settings_applied_keep w w' :
  settings_applied w ->
  (forall e, e ∈ added (calls w') -> e ∈ added (calls w)) ->
  speed (this w') = speed (this w) -> delay (this w') = delay (this w) ->
  offset (this w') = offset (this w) ->
  (forall x, attributes (elements w' !!! x) = attributes (elements w !!! x)
             /\ style (elements w' !!! x) = style (elements w !!! x)
             /\ jazzySpeed (elements w' !!! x) = jazzySpeed (elements w !!! x)
             /\ jazzyDelay (elements w' !!! x) = jazzyDelay (elements w !!! x)
             /\ jazzyOffset (elements w' !!! x) = jazzyOffset (elements w !!! x)) ->
  settings_applied w'.
Proof.
  intros H Hadd Hs Hd Ho Hels e He.
  destruct (H e (Hadd e He)) as (H1 & H2 & H3 & H4).
  destruct (Hels e) as (Ha & E1 & E2 & E3 & E4).
  destruct (registered_ext (this w) (this w') (elements w !!! e)
              (elements w' !!! e) Hs Hd Ho Ha) as (R1 & R2 & R3 & R4).
  rewrite E1, E2, E3, E4, R1, R2, R3, R4. done.
Qed.

Lemma activated_settings x ty w e :
  attributes (elements (activated x ty w) !!! e) = attributes (elements w !!! e)
  /\ style (elements (activated x ty w) !!! e) = style (elements w !!! e)
  /\ jazzySpeed (elements (activated x ty w) !!! e) = jazzySpeed (elements w !!! e)
  /\ jazzyDelay (elements (activated x ty w) !!! e) = jazzyDelay (elements w !!! e)
  /\ jazzyOffset (elements (activated x ty w) !!! e) = jazzyOffset (elements w !!! e).
Proof.
  unfold activated. cbn [elements].
  destruct (decide (x = e)) as [->|Hne].
  - rewrite lookup_total_insert_eq. done.
  - rewrite lookup_total_insert_ne by done. done.
Qed.

Lemma counted_settings counter t w e :
  style (elements (counted counter t w) !!! e) = style (elements w !!! e)
  /\ jazzySpeed (elements (counted counter t w) !!! e) = jazzySpeed (elements w !!! e)
  /\ jazzyDelay (elements (counted counter t w) !!! e) = jazzyDelay (elements w !!! e).
Proof.
  destruct (counters w !! counter) as [c|] eqn:Hc.
  - rewrite (counter_step_eq counter t w c Hc). cbn [elements].
    destruct (decide (counter_element c = e)) as [->|Hne].
    + rewrite lookup_total_insert_eq. done.
    + rewrite lookup_total_insert_ne by done. done.
  - unfold counted, counter_step. cbv [bind get ret]. rewrite Hc. done.
Qed.

Lemma settings_applied_register w e :
  settings_applied w -> settings_applied (register w e).
Proof.
  intros H x Hx. rewrite register_calls, Claims.added_app in Hx.
  destruct (register_config w e) as (Hs & Hd & Ho).
  assert (Hreg : forall el el', attributes el' = attributes el ->
            style (registered (this (register w e)) el') = style (registered (this w) el)
            /\ jazzySpeed (registered (this (register w e)) el')
               = jazzySpeed (registered (this w) el)
            /\ jazzyDelay (registered (this (register w e)) el')
               = jazzyDelay (registered (this w) el)
            /\ jazzyOffset (registered (this (register w e)) el')
               = jazzyOffset (registered (this w) el)).
  { intros el el'. apply registered_ext; assumption. }
  rewrite register_elements.
  destruct (decide (x = e)) as [->|Hne].
  - rewrite lookup_total_insert_eq.
    destruct (strategy (this w));
      (edestruct Hreg as (R1 & R2 & R3 & R4);
       [|rewrite R1, R2, R3, R4; done]); reflexivity.
  - rewrite lookup_total_insert_ne by done.
    apply elem_of_app in Hx as [Hx|Hx].
    + destruct (H x Hx) as (H1 & H2 & H3 & H4).
      destruct (Hreg (elements w !!! x) (elements w !!! x) eq_refl)
        as (R1 & R2 & R3 & R4).
      rewrite R1, R2, R3, R4. done.
    + simpl in Hx. apply list_elem_of_singleton in Hx. done.
Qed.

Lemma settings_applied_reachable window document page settings evs :
  settings_applied (run evs (constructed window document page settings)).
Proof.
  apply (marked_invariant_reachable settings_applied).
  - intros w e _ H _. apply settings_applied_register, H.
  - intros w e H. apply (settings_applied_keep w); try done.
    intros x. cbn. rewrite Claims.added_app. simpl. rewrite app_nil_r. done.
  - intros w i e ty _ H _ _. apply (settings_applied_keep w); try done.
    + intros x. cbn. rewrite Claims.added_app. simpl.
      replace (added (counting_calls (this w) e (elements w !!! e) ty))
        with (@nil elem_id); [rewrite app_nil_r; done|].
      unfold counting_calls. destruct (counting _ _) as [[? ?]|]; reflexivity.
    + intros x. apply activated_settings.
  - intros w l o obs e ty _ H _ _ _ _.
    apply (settings_applied_keep w); try done.
    + intros x. cbn. rewrite Claims.added_app. simpl.
      replace (added (counting_calls (this w) e (elements w !!! e) ty))
        with (@nil elem_id); [rewrite app_nil_r; done|].
      unfold counting_calls. destruct (counting _ _) as [[? ?]|]; reflexivity.
    + intros x. apply activated_settings.
  - intros w counter t H.
    destruct (counted_keeps counter t w) as (Hthis & _ & _ & Hcalls & Hels).
    apply (settings_applied_keep w); try done.
    + rewrite Hcalls. done.
    + rewrite Hthis. done.
    + rewrite Hthis. done.
    + rewrite Hthis. done.
    + intros x. destruct (Hels x) as (Ha & _ & Hj & _).
      destruct (counted_settings counter t w x) as (S1 & S2 & S3). done.
  - intros w b H. apply (settings_applied_keep w); done.
  - intros w vb H. apply (settings_applied_keep w); done.
  - intros e He. inversion He.
Qed.

(** X17. Every element that has been registered, whether it is still
    tracked or already activated, carries the settings resolved from its
    own attributes or else from the settings the engine was constructed
    with: [jazzySpeed] and [jazzyDelay] are the resolved values followed
    by "ms", [jazzyOffset] is the resolved value read by [parseInt], and
    the transition duration and delay are these strings when they are a
    whole number of milliseconds. Activation, counters, resizes and later
    registrations change none of them. *)
Theorem registered_elements_keep_their_settings
    window document page settings evs e :
  let w := run evs (constructed window document page settings) in
  let speed_used :=
    attribute_or (page !!! e) "data-jazzy-scroll-speed" (this_speed settings) in
  let delay_used :=
    attribute_or (page !!! e) "data-jazzy-scroll-delay" (this_delay settings) in
  let offset_used :=
    attribute_or (page !!! e) "data-jazzy-scroll-offset"
      (VNum (this_offset window settings)) in
  e ∈ added (calls w) ->
  (forall z, milliseconds speed_used z ->
     transitionDuration (style (elements w !!! e)) = concat speed_used "ms")
  /\ (forall z, milliseconds delay_used z ->
        transitionDelay (style (elements w !!! e)) = concat delay_used "ms")
  /\ (printable speed_used ->
      jazzySpeed (elements w !!! e) = Some (concat speed_used "ms"))
  /\ (printable delay_used ->
      jazzyDelay (elements w !!! e) = Some (concat delay_used "ms"))
  /\ (printable offset_used -> in_safe_range (parseInt offset_used) ->
      jazzyOffset (elements w !!! e) = Some (parseInt offset_used)).
Proof.
  intros w speed_used delay_used offset_used He.
  destruct (settings_applied_reachable window document page settings evs e He)
    as (Hst & Hsp & Hdl & Hoff).
  fold w in Hst, Hsp, Hdl, Hoff. rewrite Hst, Hsp, Hdl, Hoff.
  destruct (engine_reachable window document page settings evs)
    as (Hs & Hd & Ho & _). fold w in Hs, Hd, Ho.
  destruct (only_marked_reachable window document page settings evs e)
    as [Hat _]. fold w in Hat.
  unfold registered.
  cbn [style transitionDuration transitionDelay jazzySpeed jazzyDelay jazzyOffset].
  unfold resolved_speed, resolved_delay, resolved_offset.
  rewrite !cond_attribute. unfold attribute_or. rewrite Hat, Hs, Hd, Ho.
  repeat split; intros; reflexivity.
Qed.

Lemma registered_elements_keep_their_settings_witness :
  let w := run [AnimationFrame layout_100]
               (constructed (desktop false) one_element page_counter bootstrap) in
  let e := 1%nat in
  let speed_used :=
    attribute_or (page_counter !!! e) "data-jazzy-scroll-speed"
      (this_speed bootstrap) in
  let delay_used :=
    attribute_or (page_counter !!! e) "data-jazzy-scroll-delay"
      (this_delay bootstrap) in
  let offset_used :=
    attribute_or (page_counter !!! e) "data-jazzy-scroll-offset"
      (VNum (this_offset (desktop false) bootstrap)) in
  (forall z, milliseconds speed_used z ->
     transitionDuration (style (elements w !!! e)) = concat speed_used "ms")
  /\ (forall z, milliseconds delay_used z ->
        transitionDelay (style (elements w !!! e)) = concat delay_used "ms")
  /\ (printable speed_used ->
      jazzySpeed (elements w !!! e) = Some (concat speed_used "ms"))
  /\ (printable delay_used ->
      jazzyDelay (elements w !!! e) = Some (concat delay_used "ms"))
  /\ (printable offset_used -> in_safe_range (parseInt offset_used) ->
      jazzyOffset (elements w !!! e) = Some (parseInt offset_used)).
Proof.
  intros w e.
  apply (registered_elements_keep_their_settings (desktop false) one_element
           page_counter bootstrap [AnimationFrame layout_100] 1%nat).
  vm_compute. left.
Defined.

(** ** The bootstrap script *)


(** *** A target that has lost its marker, in the observer branch *)

(** X19. In the observer branch, a notification that would activate a
    target which has lost its marker attribute throws out of the callback
    before the observer is disconnected: the element gets no class and no
    counter, its observer stays connected, and each further notification
    calls [animateIn] and throws again. The other observers are not
    affected. *)
Theorem unmarked_target_keeps_its_observer w o obs en n :
  observers w !! o = Some obs ->
  target en ∈ io_observed obs ->
  marker w (target en) = None ->
  isIntersecting en || le (Fin (boundingClientRect_top en)) (ofZ 0) = true ->
  let w' := run (repeat (Intersection o [en]) n) w in
  observers w' = observers w
  /\ elements w' = elements w
  /\ counters w' = counters w
  /\ calls w' = calls w ++ repeat (CallAnimateIn (target en)) n.
Proof.
  intros Ho Hin Hnone Hfires. revert w Ho Hnone.
  induction n as [|n IH]; intros w Ho Hnone w'.
  - unfold w'. simpl. rewrite app_nil_r. done.
  - assert (Hstep : step w (Intersection o [en])
                    = called (CallAnimateIn (target en)) w).
    { unfold step, handle. cbv [bind get].
      assert (Hdel : deliverable w o [en] = true).
      { unfold deliverable. rewrite Ho. cbn.
        rewrite (bool_decide_eq_true_2 _ Hin). reflexivity. }
      rewrite Hdel. unfold intersection_callback. cbn [lookup list_lookup].
      rewrite Hfires. cbv [bind]. rewrite (animateIn_throws _ w Hnone).
      reflexivity. }
    unfold w'. cbn [repeat]. change (run (?ev :: ?evs) w) with (run evs (step w ev)).
    rewrite Hstep.
    destruct (IH (called (CallAnimateIn (target en)) w) Ho Hnone)
      as (H1 & H2 & H3 & H4).
    rewrite H1, H2, H3, H4. cbn [called observers elements counters calls].
    rewrite <- app_assoc. done.
Qed.

Lemma unmarked_target_keeps_its_observer_witness :
  let w := stripped 1%nat
             (constructed (desktop true) one_element page_counter bootstrap) in
  let en := {| target := 1%nat; isIntersecting := true;
               boundingClientRect_top := Q2Qc 100 |} in
  let w' := run (repeat (Intersection 0%nat [en]) 2) w in
  observers w' = observers w
  /\ elements w' = elements w
  /\ counters w' = counters w
  /\ calls w' = calls w ++ repeat (CallAnimateIn (target en)) 2.
Proof.
  apply (unmarked_target_keeps_its_observer
           (stripped 1%nat
              (constructed (desktop true) one_element page_counter bootstrap))
           0%nat
           {| io_rootMargin := "0px 0px 0px 0px";
              io_threshold := [ofZ 0; ofZ 1];
              io_observed := [1%nat] |}).
  - reflexivity.
  - apply list_elem_of_singleton. reflexivity.
  - reflexivity.
  - reflexivity.
Defined.

(** *** A negative duration *)

Lemma div_negative (d x : Qc) : (d < 0)%Qc -> (0 <= x)%Qc -> (x / d <= 0)%Qc.
Proof.
  intros Hd Hx.
  assert (Hne : d <> 0%Qc).
  { exact (Qclt_not_eq d 0 Hd). }
  assert (Hpos : (0 < - d)%Qc).
  { apply Qclt_minus_iff in Hd. rewrite Qcplus_0_l in Hd. exact Hd. }
  replace (x / d)%Qc with (- (x / - d))%Qc
    by (field; split; [exact Hne | exact (not_eq_sym (Qclt_not_eq _ _ Hpos))]).
  pose proof (RampFacts.div_mono (- d) 0 x Hpos Hx) as H.
  unfold Qcdiv in H at 1. rewrite Qcmult_0_l in H.
  apply Qcopp_le_compat in H. exact H.
Qed.

Lemma frames_negative s e d :
  (d < 0)%Qc ->
  forall ts st,
    st = 0%Qc \/ Forall (Qcle st) ts ->
    StronglySorted Qcle ts ->
    length (Ramp.frames (Ramp.started s e d st) ts) = length ts
    /\ Forall (fun f => Ramp.requested f = true)
              (Ramp.frames (Ramp.started s e d st) ts).
Proof.
  intros Hd.
  assert (Hne : d <> 0%Qc).
  { exact (Qclt_not_eq d 0 Hd). }
  induction ts as [|t ts IH]; intros st Hst Hsorted; [simpl; done|].
  cbn [Ramp.frames]. rewrite (Claims.step_started s e d st t Hne).
  cbn [Ramp.requested Ramp.closure Ramp.frame_at].
  apply StronglySorted_inv in Hsorted as [Hsorted Hall].
  assert (Hrs : Ramp.restart st t = t
                \/ (Ramp.restart st t = st /\ (st <= t)%Qc)).
  { unfold Ramp.restart. destruct (Qc_eqb st 0) eqn:Hz; [left; reflexivity|].
    right. split; [reflexivity|].
    destruct Hst as [->|Hst]; [discriminate Hz|].
    apply Forall_cons_1 in Hst. apply Hst. }
  assert (Hreq : Qc_ltb (Ramp.progress_at d (Ramp.restart st t) t) 1 = true).
  { apply Qc_ltb_spec, RampFacts.clamp_lt_1.
    apply (Qcle_lt_trans _ 0); [|done].
    apply (div_negative d _ Hd).
    destruct Hrs as [-> | [-> Hle]].
    - replace (t + - t)%Qc with 0%Qc by ring. apply Qcle_refl.
    - apply (proj1 (Qcle_minus_iff st t)), Hle. }
  rewrite Hreq.
  destruct (IH (Ramp.restart st t)) as [Hlen Hall'].
  { right. destruct Hrs as [-> | [-> Hle]]; [exact Hall|].
    destruct Hst as [->|Hst].
    - eapply List.Forall_impl; [|exact Hall]. intros a Ha.
      exact (Qcle_trans _ _ _ Hle Ha).
    - apply Forall_cons_1 in Hst. apply Hst. }
  { exact Hsorted. }
  split; [simpl; rewrite Hlen; reflexivity|].
  constructor; [exact Hreq | exact Hall'].
Qed.

(** X20. A negative duration, which a negative speed setting gives, makes a
    counter that never stops: on a clock that does not go back, every
    frame asks for another one, so as many frames run as the clock has
    readings. *)
Theorem counter_with_negative_duration_never_stops (s e : Z) (d t0 : Qc) ts :
  (d < 0)%Qc ->
  StronglySorted Qcle (t0 :: ts) ->
  let fs := Ramp.frames (Ramp.animateNumber (ofZ s) (ofZ e) (VNum (Fin d)))
                        (t0 :: ts) in
  length fs = S (length ts)
  /\ Forall (fun f => Ramp.requested f = true) fs.
Proof.
  intros Hd Hsorted fs.
  assert (Hne : d <> 0%Qc).
  { exact (Qclt_not_eq d 0 Hd). }
  unfold fs. cbn [Ramp.frames]. rewrite (Claims.first_step s e d t0 Hne).
  cbn [Ramp.requested Ramp.closure Ramp.frame_at].
  assert (Hreq : Qc_ltb (Ramp.progress_at d t0 t0) 1 = true).
  { apply Qc_ltb_spec, RampFacts.clamp_lt_1.
    replace (t0 + - t0)%Qc with 0%Qc by ring.
    unfold Qcdiv. rewrite Qcmult_0_l. done. }
  rewrite Hreq.
  apply StronglySorted_inv in Hsorted as [Hsorted Hall].
  destruct (frames_negative s e d Hd ts t0 (or_intror Hall) Hsorted)
    as [Hlen Hall'].
  split; [simpl; rewrite Hlen; reflexivity|].
  constructor; [exact Hreq | exact Hall'].
Qed.

Lemma counter_with_negative_duration_never_stops_witness :
  let fs := Ramp.frames (Ramp.animateNumber (ofZ 0) (ofZ 100)
                           (VNum (Fin (Q2Qc (-800)))))
                        [Q2Qc 1000; Q2Qc 1400; Q2Qc 5000] in
  length fs = 3%nat
  /\ Forall (fun f => Ramp.requested f = true) fs.
Proof.
  apply (counter_with_negative_duration_never_stops 0 100 (Q2Qc (-800))
           (Q2Qc 1000) [Q2Qc 1400; Q2Qc 5000]).
  - reflexivity.
  - repeat constructor; discriminate.
Defined.

(** ** Observers are never released *)

Lemma observers_counted_reachable window document page settings evs :
  let w := run evs (constructed window document page settings) in
  length (observers w)
  = if observing w then length (added (calls w)) else 0%nat.
Proof.
  apply (marked_invariant_reachable
           (fun w => length (observers w)
                     = if observing w then length (added (calls w)) else 0%nat)).
  - intros w e _ H _. unfold observing in *. rewrite register_strategy.
    rewrite register_calls, Claims.added_app, length_app. simpl.
    destruct (strategy (this w)) as [l|l vb b] eqn:Hs.
    + rewrite (Claims.register_observing_world w l e Hs). cbn [observers].
      rewrite length_app, H. reflexivity.
    + rewrite (register_observers_polling w e l vb b Hs). exact H.
  - intros w e H. unfold observing in *. cbn.
    rewrite Claims.added_app, length_app. simpl. rewrite Nat.add_0_r. exact H.
  - intros w i e ty _ H Hi _. unfold observing in *. cbn.
    unfold jazzyElements_of in Hi.
    destruct (strategy (this w)); [inversion Hi | exact H].
  - intros w l o obs e ty _ H Hs _ _ _. unfold observing in *.
    unfold disconnected, disconnect. cbn. rewrite length_alter, H, Hs.
    rewrite !Claims.added_app, !length_app. simpl.
    replace (added (counting_calls (this w) e (elements w !!! e) ty))
      with (@nil elem_id); [simpl; lia|].
    unfold counting_calls. destruct (counting _ _) as [[? ?]|]; reflexivity.
  - intros w counter t H. unfold observing in *.
    destruct (counted_keeps counter t w) as (-> & -> & _ & -> & _). exact H.
  - intros w b H. unfold observing in *. cbn.
    destruct (strategy (this w)); exact H.
  - intros w vb H. unfold observing in *. cbn.
    destruct (strategy (this w)); exact H.
  - unfold initial, observing. cbn.
    destruct (supportsIntersectionObserver window); reflexivity.
Qed.

(** X21. In the observer branch one observer is created at each call of
    [addElement] that the platform accepts, and none is ever released:
    after a run in which the margin of every registered element was
    accepted there are as many observers as there have been
    registrations, the disconnected ones included. The polling branch
    creates none. *)
Theorem one_observer_per_registration window document page settings evs :
  let w := run evs (constructed window document page settings) in
  (forall e, e ∈ added (calls w) ->
             margin_accepted (initial window page settings) e) ->
  length (observers w)
  = if supportsIntersectionObserver window
    then length (added (calls w)) else 0%nat.
Proof.
  intros w _.
  destruct (engine_reachable window document page settings evs)
    as (_ & _ & _ & Hk).
  fold w in Hk. rewrite <- Hk.
  apply observers_counted_reachable.
Qed.

Lemma one_observer_per_registration_witness :
  let w := run [Mutations [ {| addedNodes := [section_tree] |} ]]
               (constructed (desktop true) [] page_section bootstrap) in
  length (observers w)
  = if supportsIntersectionObserver (desktop true)
    then length (added (calls w)) else 0%nat.
Proof.
  intros w.
  apply (one_observer_per_registration (desktop true) [] page_section bootstrap
           [Mutations [ {| addedNodes := [section_tree] |} ]]).
  intros e He.
  assert (Hr : added (calls w) = [1%nat; 2%nat; 3%nat])
    by (vm_compute; reflexivity).
  fold w in He. rewrite Hr in He.
  repeat (apply elem_of_cons in He as [->|He];
          [intros _; vm_compute; split; discriminate|]).
  inversion He.
Defined.


(** ** Which markers count *)

Lemma prefix_append (sub post : string) : String.prefix sub (sub ++ post) = true.
Proof.
  induction sub as [|c sub IH]; [destruct post; reflexivity|].
  change (String c sub ++ post)%string with (String c (sub ++ post)%string).
  cbn [String.prefix]. rewrite IH.
  destruct (ascii_dec c c); [reflexivity | done].
Qed.

Lemma prefix_inv (sub s : string) :
  String.prefix sub s = true -> exists post, s = (sub ++ post)%string.
Proof.
  revert s. induction sub as [|c sub IH]; intros s H.
  - exists s. reflexivity.
  - destruct s as [|c' s]; [discriminate H|].
    cbn [String.prefix] in H. destruct (ascii_dec c c') as [<-|]; [|discriminate H].
    destruct (IH s H) as [post ->]. exists post. reflexivity.
Qed.

Lemma includes_substring (s sub : string) :
  includes s sub = true
  <-> exists pre post, s = (pre ++ sub ++ post)%string.
Proof.
  split.
  - induction s as [|c s IH]; cbn [includes].
    + destruct (String.prefix sub "") eqn:Hp; [|discriminate].
      intros _. destruct (prefix_inv _ _ Hp) as [post Hpost].
      exists EmptyString, post. exact Hpost.
    + destruct (String.prefix sub (String c s)) eqn:Hp.
      * intros _. destruct (prefix_inv _ _ Hp) as [post Hpost].
        exists EmptyString, post. exact Hpost.
      * intros H. destruct (IH H) as (pre & post & ->).
        exists (String c pre), post. reflexivity.
  - intros (pre & post & ->). induction pre as [|c pre IH].
    + change ("" ++ sub ++ post)%string with (sub ++ post)%string.
      destruct (sub ++ post)%string eqn:Hs; cbn [includes];
        rewrite <- Hs, prefix_append; reflexivity.
    + change (String c pre ++ sub ++ post)%string
        with (String c (pre ++ sub ++ post)%string).
      cbn [includes]. rewrite IH.
      destruct (String.prefix sub _); reflexivity.
Qed.

(** X22. What makes an element count is that the value of its marker
    attribute contains the letters "count" anywhere, as in "discount":
    given a start and an end that parse, [animateIn] starts a counter if
    and only if the value has the form of something, then "count", then
    something. *)
Theorem marker_containing_count_starts_a_counter w e ty :
  marker w e = Some ty ->
  isNaN (startNumber_of (elements w !!! e)) = false ->
  isNaN (endNumber_of (elements w !!! e)) = false ->
  (exists pre post, ty = (pre ++ "count" ++ post)%string)
  <-> length (counters (world_of (animateIn e w))) = S (length (counters w)).
Proof.
  intros Hty Hs He. rewrite <- includes_substring.
  rewrite (animateIn_eq e w ty Hty). cbn [world_of activated counters].
  unfold counting_counters, counting. rewrite Hs, He. cbn [negb andb].
  rewrite length_app.
  destruct (includes ty "count"); simpl; split; (done || lia).
Qed.

Lemma marker_containing_count_starts_a_counter_witness :
  let w := constructed (desktop false) one_element page_discount bootstrap in
  (exists pre post, "discount-fade" = (pre ++ "count" ++ post)%string)
  <-> length (counters (world_of (animateIn 1%nat w))) = S (length (counters w)).
Proof.
  apply (marker_containing_count_starts_a_counter
           (constructed (desktop false) one_element page_discount bootstrap)
           1%nat "discount-fade"); reflexivity.
Defined.

(** ** Counters, from the events of a run *)

Lemma run_counter_idle i ts w c :
  counters w !! i = Some c -> counter_requested c = false ->
  run (map (CounterFrame i) ts) w = w.
Proof.
  intros Hc Hreq. induction ts as [|t ts IH]; [reflexivity|].
  cbn [map]. change (run (?ev :: ?evs) w) with (run evs (step w ev)).
  rewrite (step_counter_idle i t w c Hc Hreq). exact IH.
Qed.

(** X23. The frames the platform hands to a queued counter play out the
    frames of its [step]: after the frames with clock readings [ts], the
    text of the counter's element is the text of the last frame [step]
    ran on these readings, and the counter holds the closure and the
    request of that frame. Readings that come after a frame which asked
    for no other are not seen. *)
Theorem counter_events_follow_the_frames w i c t ts :
  counters w !! i = Some c ->
  counter_requested c = true ->
  let w' := run (map (CounterFrame i) (t :: ts)) w in
  exists f,
    list.last (Ramp.frames (counter_closure c) (t :: ts)) = Some f
    /\ Dom.textContent (elements w' !!! counter_element c) = Ramp.textContent f
    /\ counters w' !! i
       = Some {| counter_element := counter_element c;
                 counter_closure := Ramp.closure f;
                 counter_requested := Ramp.requested f |}.
Proof.
  revert w c t. induction ts as [|t' ts IH]; intros w c t Hc Hreq w'.
  - exists (Ramp.step (counter_closure c) t).
    unfold w'. cbn [map]. change (run [?ev] w) with (step w ev).
    rewrite (step_counter_queued i t w c Hc Hreq), (counter_step_eq i t w c Hc).
    cbn [elements counters Ramp.frames].
    split; [destruct (Ramp.requested _); reflexivity|].
    split; [rewrite lookup_total_insert_eq; reflexivity|].
    apply list_lookup_insert_eq. apply lookup_lt_Some in Hc. exact Hc.
  - unfold w'. cbn [map].
    change (run (?ev :: ?evs) w) with (run evs (step w ev)).
    rewrite (step_counter_queued i t w c Hc Hreq).
    set (f := Ramp.step (counter_closure c) t).
    set (c1 := {| counter_element := counter_element c;
                  counter_closure := Ramp.closure f;
                  counter_requested := Ramp.requested f |}).
    assert (Hc1 : counters (counted i t w) !! i = Some c1).
    { rewrite (counter_step_eq i t w c Hc). cbn [counters].
      apply list_lookup_insert_eq. apply lookup_lt_Some in Hc. exact Hc. }
    change (Ramp.frames (counter_closure c) (t :: t' :: ts))
      with (f :: (if Ramp.requested f
                  then Ramp.frames (Ramp.closure f) (t' :: ts) else [])).
    destruct (Ramp.requested f) eqn:Hf.
    + destruct (IH (counted i t w) c1 t' Hc1 eq_refl) as (g & Hlast & Htext & Hcnt).
      exists g. cbn [counter_element counter_closure c1] in *.
      split; [|split; [exact Htext | exact Hcnt]].
      rewrite last_cons, Hlast. reflexivity.
    + change (CounterFrame i t' :: map (CounterFrame i) ts)
        with (map (CounterFrame i) (t' :: ts)).
      rewrite (run_counter_idle i (t' :: ts) (counted i t w) c1 Hc1 eq_refl).
      exists f. split; [reflexivity|].
      split; [|rewrite Hc1; unfold c1; rewrite Hf; reflexivity].
      rewrite (counter_step_eq i t w c Hc). cbn [elements].
      rewrite lookup_total_insert_eq. reflexivity.
Qed.

Lemma counter_events_follow_the_frames_witness :
  let w := run [AnimationFrame layout_100]
               (constructed (desktop false) one_element page_counter bootstrap) in
  let c := {| counter_element := 1%nat;
              counter_closure := Ramp.animateNumber (ofZ 0) (ofZ 42)
                                   (VNum (ofZ 800));
              counter_requested := true |} in
  let w' := run (map (CounterFrame 0%nat)
                     [Q2Qc 1000; Q2Qc 1400; Q2Qc 1900; Q2Qc 2000]) w in
  exists f,
    list.last (Ramp.frames (counter_closure c)
            [Q2Qc 1000; Q2Qc 1400; Q2Qc 1900; Q2Qc 2000]) = Some f
    /\ Dom.textContent (elements w' !!! counter_element c) = Ramp.textContent f
    /\ counters w' !! 0%nat
       = Some {| counter_element := counter_element c;
                 counter_closure := Ramp.closure f;
                 counter_requested := Ramp.requested f |}.
Proof.
  apply (counter_events_follow_the_frames
           (run [AnimationFrame layout_100]
                (constructed (desktop false) one_element page_counter bootstrap))
           0%nat
           {| counter_element := 1%nat;
              counter_closure := Ramp.animateNumber (ofZ 0) (ofZ 42)
                                   (VNum (ofZ 800));
              counter_requested := true |}
           (Q2Qc 1000) [Q2Qc 1400; Q2Qc 1900; Q2Qc 2000]);
    reflexivity.
Defined.

(** ** A second pass *)

Lemma filter_none {A} (f : A -> bool) l :
  (forall x, x ∈ l -> f x = false) -> List.filter f l = [].
Proof.
  induction l as [|a l IH]; intros H; [reflexivity|]. simpl.
  rewrite (H a) by left. apply IH. intros x Hx. apply H. right. exact Hx.
Qed.

(** X24. With a layout that does not move, a polling pass leaves nothing
    for the next one: the frame that follows under the same layout hands no
    element to [animateIn] and leaves the collection as it is. *)
Theorem second_pass_activates_nothing
    window document page settings evs layout :
  static layout ->
  let w1 := run (evs ++ [AnimationFrame layout])
                (constructed window document page settings) in
  let w2 := step w1 (AnimationFrame layout) in
  animated (calls w2) = animated (calls w1)
  /\ jazzyElements_of w2 = jazzyElements_of w1.
Proof.
  intros Hst w1 w2.
  destruct (supportsIntersectionObserver window) eqn:Hsup.
  - assert (Hobs : observing w1 = true).
    { unfold w1.
      destruct (engine_reachable window document page settings
                  (evs ++ [AnimationFrame layout])) as (_ & _ & _ & ->).
      exact Hsup. }
    assert (Hw2 : w2 = w1).
    { unfold w2, step, handle. cbv [bind get]. unfold frameRequested_of.
      unfold observing in Hobs. destruct (strategy (this w1)); [reflexivity|].
      discriminate Hobs. }
    rewrite Hw2. done.
  - set (w := run evs (constructed window document page settings)).
    destruct (polling_reachable window document page settings evs Hsup)
      as [l Hs]. fold w in Hs.
    set (vb := last_resize (innerHeight window) evs) in *.
    assert (Hmark : forall x, x ∈ l -> is_Some (marker w x)).
    { intros x Hx.
      apply (tracked_marked_reachable window document page settings evs).
      unfold tracked. fold w. rewrite Hs. exact Hx. }
    destruct (init_result layout (set_frameRequested false w) l vb false)
      as (w1' & cs & kept & Hret & Hcalls & Hs1 & _ & _ & _ & _ & _ & Hfr
          & _ & _ & _ & _ & Hstatic).
    { cbn. rewrite Hs. reflexivity. }
    { exact Hmark. }
    destruct (Hstatic Hst) as [Hkept _].
    assert (Hw1 : w1 = w1').
    { unfold w1. rewrite run_snoc. fold w. unfold step, handle.
      cbv [bind get modify]. unfold frameRequested_of at 1. rewrite Hs, Hret.
      reflexivity. }
    destruct (init_result layout (set_frameRequested false w1') kept vb false)
      as (w2' & cs2 & kept2 & Hret2 & Hcalls2 & Hs2 & _ & _ & _ & _ & _ & _
          & _ & _ & _ & _ & Hstatic2).
    { cbn. rewrite Hs1. reflexivity. }
    { intros x Hx. destruct Hfr as [_ Hfr]. destruct (Hfr x) as [_ Hm].
      change (marker (set_frameRequested false w1') x) with (marker w1' x).
      rewrite Hm. apply Hmark. rewrite Hkept in Hx.
      apply list_elem_of_In, List.filter_In in Hx. apply list_elem_of_In, Hx. }
    destruct (Hstatic2 Hst) as [Hkept2 Han2].
    assert (Hw2 : w2 = w2').
    { unfold w2. rewrite Hw1. unfold step, handle. cbv [bind get modify].
      unfold frameRequested_of at 1. rewrite Hs1, Hret2. reflexivity. }
    assert (Hview : forall x, x ∈ kept ->
              inViewport layout (set_frameRequested false w1') x = false).
    { intros x Hx.
      assert (Hf : pass_frame (set_frameRequested false w)
                              (set_frameRequested false w1')).
      { destruct Hfr as [Hv Hx']. split; [|exact Hx'].
        rewrite <- Hv. unfold viewportBottom_of. cbn. rewrite Hs1. reflexivity. }
      rewrite (inViewport_frame layout _ _ x Hst Hf).
      rewrite Hkept in Hx. apply list_elem_of_In, List.filter_In in Hx.
      destruct Hx as [_ Hx]. apply negb_true_iff in Hx. exact Hx. }
    rewrite Hw2, Hw1, Hcalls2. cbn [set_frameRequested with_strategy calls].
    rewrite animated_app, Han2, (filter_none _ _ Hview). simpl.
    rewrite app_nil_r. split; [reflexivity|].
    unfold jazzyElements_of. rewrite Hs2, Hs1, Hkept2.
    clear -Hview. induction kept as [|a kept IH]; [reflexivity|].
    simpl. rewrite (Hview a) by left. simpl. f_equal.
    apply IH. intros x Hx. apply Hview. right. exact Hx.
Qed.

Lemma second_pass_activates_nothing_witness :
  let layout : Layout :=
    fun _ e => if bool_decide (e = 2%nat) then Q2Qc 100 else Q2Qc 900 in
  let w1 := run ([] ++ [AnimationFrame layout])
                (constructed (desktop false) [section_tree] page_section
                   bootstrap) in
  let w2 := step w1 (AnimationFrame layout) in
  animated (calls w2) = animated (calls w1)
  /\ jazzyElements_of w2 = jazzyElements_of w1.
Proof.
  apply (second_pass_activates_nothing (desktop false) [section_tree]
           page_section bootstrap []).
  intros els els' e. reflexivity.
Defined.

(** ** Activated elements and the watcher *)

(** X25. An element that has been activated is never put forward by the
    watcher again: it carries the completion class from then on, so the
    selector of the watcher does not match it, wherever it is moved or
    inserted. *)
Theorem activated_element_is_not_registered_again
    window document page settings evs mutationsList e :
  let w := run evs (constructed window document page settings) in
  animateIn_count e w <> 0%nat ->
  e ∉ registrations (elements w) mutationsList.
Proof.
  intros w Hcount Hin.
  apply registrations_match, matches_marker in Hin. destruct Hin as [_ Hclass].
  destruct (only_marked_reachable window document page settings evs e)
    as [_ Hc]. fold w in Hc.
  rewrite (bool_decide_eq_false_2 _ Hcount) in Hc.
  apply Hclass. rewrite Hc. unfold classList_add. cbn [classList].
  case_bool_decide as Hd; [exact Hd|].
  apply elem_of_app. right. apply list_elem_of_singleton. reflexivity.
Qed.

Lemma activated_element_is_not_registered_again_witness :
  let w := run [AnimationFrame layout_100]
               (constructed (desktop false) one_element page_counter bootstrap) in
  1%nat ∉ registrations (elements w) [ {| addedNodes := one_element |} ].
Proof.
  apply (activated_element_is_not_registered_again (desktop false) one_element
           page_counter bootstrap [AnimationFrame layout_100]).
  vm_compute. discriminate.
Defined.
End Extras.
